(** * The durable e-mail queue of LeoShare ([backend/emailQueue.js])

    A shallow embedding of the [EmailQueue] class and of the part of the
    Node.js run time it relies on (run-to-completion callbacks, timers,
    promises awaited by [async] functions, a file system whose writes
    may throw), followed by the properties of the queue.

    JavaScript objects are shared and mutated in place: an e-mail item
    is created once by [enqueue] and the same object then travels from
    [this.queue] to a [processSingleEmail] invocation, to the closure of
    a retry timer and back.  The model therefore keeps the items in a
    heap and every container holds heap locations. *)

From Stdlib Require Import ZArith NArith Lia.
From stdpp Require Import base option list gmap strings pretty.

(** * The user and file database ([class FileDatabase])

    The in-memory side of the class: every method is given as its
    effect on [this.data] and the value its caller gets.  The mutating
    methods are [async]: they change [this.data] and then
    [await this.saveDatabase()].  The model gives the change they make
    before they await and the value they resolve with when the write
    succeeds, no other method runs in between and the file names no
    user that [this.data] lacks, so that the merge of the users on disk
    in [processWriteQueue] adds nothing (the class never removes a user
    and writes the file from [this.data]).  The write itself
    ([saveDatabase], [processWriteQueue], [waitForLock]), the loading
    and migration of an old file and the direct upload links are not
    part of the model.

    [this.data.users] and [this.data.collections] are JavaScript objects
    used as maps from e-mail addresses and uuids; [for ... in] and
    [Object.values] visit them in insertion order, which the results of
    [getUploadById] and friends depend on, so they are association
    lists here. *)
Module FileDatabase.

Open Scope Z_scope.

(** What a method gives back: a value, or the [TypeError] of reading a
    property of [undefined]. *)
Inductive outcome (A : Type) : Type :=
| Returns (a : A)
| Throws (msg : string).
Arguments Returns {A} a.
Arguments Throws {A} msg.

(** ** Objects as ordered maps *)

(** The objects [users] and [collections] are lists of entries in
    insertion order, which is the order of [for ... in] and of
    [Object.entries] for the keys in use: e-mail addresses and uuids,
    none of them an array index. *)

(** The names every object inherits from [Object.prototype].  Under
    these, [o[k]] finds the inherited value when [o] has no entry of
    its own, and [o["__proto__"] = v] stores no entry. *)
Definition prototype_keys : list string :=
  ["constructor"; "__proto__"; "hasOwnProperty"; "isPrototypeOf";
   "propertyIsEnumerable"; "toLocaleString"; "toString"; "valueOf";
   "__defineGetter__"; "__defineSetter__"; "__lookupGetter__";
   "__lookupSetter__"].

(** A key under which an object holds what was stored in it and
    nothing else. *)
Definition plain_key (k : string) : Prop := k ∉ prototype_keys.

(** [o[k]] for an entry of [o] itself: [undefined] without one, which is
    what the code gets under a [plain_key]. *)
Fixpoint obj_get {A} (k : string) (o : list (string * A)) : option A :=
  match o with
  | [] => None
  | (k', v) :: o' => if decide (k' = k) then Some v else obj_get k o'
  end.

(** In-place change of the value of [o[k]]. *)
Fixpoint obj_update {A} (k : string) (f : A -> A) (o : list (string * A))
    : list (string * A) :=
  match o with
  | [] => []
  | (k', v) :: o' =>
      if decide (k' = k) then (k', f v) :: o' else (k', v) :: obj_update k f o'
  end.

(** [o[k] = v]: an existing key keeps its place, a new one goes last. *)
Definition obj_set {A} (k : string) (v : A) (o : list (string * A))
    : list (string * A) :=
  match obj_get k o with
  | Some _ => obj_update k (fun _ => v) o
  | None => o ++ [(k, v)]
  end.

(** [delete o[k]]. *)
Fixpoint obj_delete {A} (k : string) (o : list (string * A))
    : list (string * A) :=
  match o with
  | [] => []
  | (k', v) :: o' =>
      if decide (k' = k) then o' else (k', v) :: obj_delete k o'
  end.

(** [i = a.indexOf(x); if (i > -1) a.splice(i, 1)]. *)
Fixpoint remove_first (x : string) (a : list string) : list string :=
  match a with
  | [] => []
  | y :: a' => if decide (y = x) then a' else y :: remove_first x a'
  end.

(** ** Records *)

(** An entry of [user.uploads]; times are millisecond clock values. *)
Record Upload := mkUpload {
  upload_id : string;
  originalName : string;
  filename : string;
  size : N;
  uploadTime : Z;
  expiryTime : option Z;
  downloadCount : N;
  isPrivate : bool;
  fileType : string
}.

(** The [fileData] argument of [addUpload] and [replaceFile]. *)
Record FileData := mkFileData {
  fd_id : string;
  fd_originalName : string;
  fd_filename : string;
  fd_size : N;
  fd_uploadTime : Z;
  fd_expiryTime : option Z;
  fd_downloadCount : option N;
  fd_isPrivate : bool
}.

(** A value of [this.data.users].  The three id lists are absent in
    records of an old file, and the methods test for that. *)
Record User := mkUser {
  name : string;
  uploads : list Upload;
  user_collections : option (list string);
  subscribedFiles : option (list string);
  subscribedCollections : option (list string);
  profilePublic : bool;
  approved : bool;
  createdAt : Z;
  approvedAt : option Z
}.

(** A value of [this.data.collections]. *)
Record Collection := mkCollection {
  collection_id : string;
  collection_name : string;
  description : string;
  createdBy : string;
  collection_createdAt : Z;
  files : list string;
  isPublic : bool
}.

(** [this.data], without the metadata and the direct upload links. *)
Record Data := mkData {
  users : list (string * User);
  collections : list (string * Collection)
}.

Definition set_uploads (ups : list Upload) (u : User) : User :=
  mkUser (name u) ups (user_collections u) (subscribedFiles u)
         (subscribedCollections u) (profilePublic u) (approved u)
         (createdAt u) (approvedAt u).
Definition set_user_collections (c : option (list string)) (u : User) : User :=
  mkUser (name u) (uploads u) c (subscribedFiles u)
         (subscribedCollections u) (profilePublic u) (approved u)
         (createdAt u) (approvedAt u).
Definition set_subscribedFiles (c : option (list string)) (u : User) : User :=
  mkUser (name u) (uploads u) (user_collections u) c
         (subscribedCollections u) (profilePublic u) (approved u)
         (createdAt u) (approvedAt u).
Definition set_subscribedCollections (c : option (list string)) (u : User) : User :=
  mkUser (name u) (uploads u) (user_collections u) (subscribedFiles u)
         c (profilePublic u) (approved u) (createdAt u) (approvedAt u).
Definition set_profilePublic (b : bool) (u : User) : User :=
  mkUser (name u) (uploads u) (user_collections u) (subscribedFiles u)
         (subscribedCollections u) b (approved u) (createdAt u) (approvedAt u).
Definition set_approved (t : Z) (u : User) : User :=
  mkUser (name u) (uploads u) (user_collections u) (subscribedFiles u)
         (subscribedCollections u) (profilePublic u) true (createdAt u) (Some t).
Definition set_downloadCount (n : N) (up : Upload) : Upload :=
  mkUpload (upload_id up) (originalName up) (filename up) (size up)
           (uploadTime up) (expiryTime up) n (isPrivate up) (fileType up).
Definition set_files (fs : list string) (c : Collection) : Collection :=
  mkCollection (collection_id c) (collection_name c) (description c)
               (createdBy c) (collection_createdAt c) fs (isPublic c).
Definition set_users (us : list (string * User)) (d : Data) : Data :=
  mkData us (collections d).
Definition set_collections (cs : list (string * Collection)) (d : Data) : Data :=
  mkData (users d) cs.

(** ** Users *)

(** [addUser(email, name, approved = false)] at clock [t]. *)
Definition addUser (email nm : string) (appr : bool) (t : Z) (d : Data)
    : Data * User :=
  match obj_get email (users d) with
  | Some u => (d, u)
  | None =>
      let u := mkUser nm [] (Some []) (Some []) (Some []) true appr t
                      (if appr then Some t else None) in
      (set_users (users d ++ [(email, u)]) d, u)
  end.

(** [approveUser(email)] at clock [t]. *)
Definition approveUser (email : string) (t : Z) (d : Data) : Data * bool :=
  match obj_get email (users d) with
  | Some _ => (set_users (obj_update email (set_approved t) (users d)) d, true)
  | None => (d, false)
  end.

(** [getUserApprovalStatus(email)]: [approved], [name], [createdAt],
    [approvedAt] of an existing user ([exists] is always [true]). *)
Definition getUserApprovalStatus (email : string) (d : Data)
    : option (bool * string * Z * option Z) :=
  match obj_get email (users d) with
  | Some u => Some (approved u, name u, createdAt u, approvedAt u)
  | None => None
  end.

(** [getUnapprovedUsers()]: [email], [name], [createdAt]. *)
Definition getUnapprovedUsers (d : Data) : list (string * string * Z) :=
  (fun eu => (fst eu, name (snd eu), createdAt (snd eu)))
    <$> filter (fun eu => approved (snd eu) = false) (users d).

(** [updateProfileVisibility(userEmail, isPublic)]. *)
Definition updateProfileVisibility (userEmail : string) (b : bool) (d : Data)
    : Data * bool :=
  match obj_get userEmail (users d) with
  | Some _ =>
      (set_users (obj_update userEmail (set_profilePublic b) (users d)) d, true)
  | None => (d, false)
  end.

(** ** Uploads *)

Section WithPath.

(** [path.extname(filename).toLowerCase()], of Node's library. *)
Variable extname_lower : string -> string.

(** [getFileType(filename)]. *)
Definition getFileType (fname : string) : string :=
  let ext := extname_lower fname in
  if bool_decide (ext ∈ [".mp3"; ".wav"; ".flac"; ".aac"; ".ogg"; ".m4a"])
  then "audio"
  else if bool_decide (ext ∈ [".jpg"; ".jpeg"; ".png"; ".gif"; ".bmp"; ".webp"; ".svg"])
  then "image"
  else if bool_decide (ext ∈ [".mp4"; ".avi"; ".mov"; ".mkv"; ".webm"; ".flv"; ".wmv"])
  then "video"
  else "other".

(** The object [addUpload] pushes. *)
Definition new_upload (f : FileData) : Upload :=
  mkUpload (fd_id f) (fd_originalName f) (fd_filename f) (fd_size f)
           (fd_uploadTime f) (fd_expiryTime f)
           (match fd_downloadCount f with Some n => n | None => 0%N end)
           (fd_isPrivate f) (getFileType (fd_originalName f)).

(** [addUpload(userEmail, fileData)] at clock [t]. *)
Definition addUpload (userEmail : string) (f : FileData) (t : Z) (d : Data)
    : Data :=
  let d1 :=
    match obj_get userEmail (users d) with
    | Some _ => d
    | None => fst (addUser userEmail "Unknown User" false t d)
    end in
  set_users
    (obj_update userEmail (fun u => set_uploads (uploads u ++ [new_upload f]) u)
       (users d1)) d1.

(** The object [replaceFile] stores in the place of [existing]. *)
Definition replaced_upload (existing : Upload) (f : FileData) (t : Z) : Upload :=
  mkUpload (upload_id existing) (fd_originalName f) (fd_filename f) (fd_size f)
           t (expiryTime existing) 0 (isPrivate existing)
           (getFileType (fd_originalName f)).

(** [replaceFile(fileId, newFileData, userEmail)] at clock [t]: the loop
    over the users acts on the entry whose key is [userEmail] only. *)
Definition replaceFile (fileId : string) (f : FileData) (userEmail : string)
    (t : Z) (d : Data) : Data * option Upload :=
  match obj_get userEmail (users d) with
  | Some u =>
      match list_find (fun up => upload_id up = fileId) (uploads u) with
      | Some (i, existing) =>
          let up := replaced_upload existing f t in
          (set_users
             (obj_update userEmail
                (fun u' => set_uploads (<[i := up]> (uploads u')) u') (users d)) d,
           Some up)
      | None => (d, None)
      end
  | None => (d, None)
  end.

End WithPath.

(** The loop of [getUploadById]: the first user, in insertion order,
    one of whose uploads has the id; of that user the first such
    upload. *)
Fixpoint getUploadById_in (fileId : string) (us : list (string * User))
    : option (Upload * string) :=
  match us with
  | [] => None
  | (email, u) :: rest =>
      match list_find (fun up => upload_id up = fileId) (uploads u) with
      | Some (_, up) => Some (up, email)
      | None => getUploadById_in fileId rest
      end
  end.

(** [getUploadById(fileId)]: the upload and its [uploadedBy]. *)
Definition getUploadById (fileId : string) (d : Data) : option (Upload * string) :=
  getUploadById_in fileId (users d).

(** The loop of [updateDownloadCount]: the users with the count of the
    first match incremented, and the new count. *)
Fixpoint updateDownloadCount_in (fileId : string) (us : list (string * User))
    : option (list (string * User) * N) :=
  match us with
  | [] => None
  | (email, u) :: rest =>
      match list_find (fun up => upload_id up = fileId) (uploads u) with
      | Some (i, up) =>
          Some ((email,
                 set_uploads
                   (alter (fun x => set_downloadCount (downloadCount x + 1) x) i
                      (uploads u)) u) :: rest,
                (downloadCount up + 1)%N)
      | None =>
          match updateDownloadCount_in fileId rest with
          | Some (rest', n) => Some ((email, u) :: rest', n)
          | None => None
          end
      end
  end.

(** [updateDownloadCount(fileId)]. *)
Definition updateDownloadCount (fileId : string) (d : Data) : Data * N :=
  match updateDownloadCount_in fileId (users d) with
  | Some (us, n) => (set_users us d, n)
  | None => (d, 0%N)
  end.

(** The loop of [removeUpload]. *)
Fixpoint removeUpload_in (fileId : string) (us : list (string * User))
    : option (list (string * User) * Upload) :=
  match us with
  | [] => None
  | (email, u) :: rest =>
      match list_find (fun up => upload_id up = fileId) (uploads u) with
      | Some (i, up) =>
          Some ((email, set_uploads (delete i (uploads u)) u) :: rest, up)
      | None =>
          match removeUpload_in fileId rest with
          | Some (rest', up) => Some ((email, u) :: rest', up)
          | None => None
          end
      end
  end.

(** [removeUpload(fileId)]: the removed upload or [null]. *)
Definition removeUpload (fileId : string) (d : Data) : Data * option Upload :=
  match removeUpload_in fileId (users d) with
  | Some (us, up) => (set_users us d, Some up)
  | None => (d, None)
  end.

(** [upload.expiryTime && new Date(upload.expiryTime) <= now]: the
    expiry is [null] or a date. *)
Definition expired (now : Z) (up : Upload) : bool :=
  match expiryTime up with
  | Some e => bool_decide (e <= now)
  | None => false
  end.

(** [removeExpiredFiles()] at clock [now]: the data and [removedCount]. *)
Definition removeExpiredFiles (now : Z) (d : Data) : Data * nat :=
  let keep (u : User) := filter (fun up => expired now up = false) (uploads u) in
  (set_users ((fun eu => (fst eu, set_uploads (keep (snd eu)) (snd eu))) <$> users d) d,
   sum_list_with
     (fun eu => (length (uploads (snd eu)) - length (keep (snd eu)))%nat) (users d)).

(** [getStats()]: [totalUsers], [totalUploads], [totalSize].  The sizes
    are whole numbers of bytes and the sum is exact, as the sum of the
    code is while it stays within [2 ^ 53]. *)
Record Stats := mkStats {
  totalUsers : nat;
  totalUploads : nat;
  totalSize : N
}.

Definition getStats (d : Data) : Stats :=
  mkStats (length (users d))
          (sum_list_with (fun eu => length (uploads (snd eu))) (users d))
          (foldr (fun eu acc =>
                    (foldl (fun sum up => sum + size up) 0 (uploads (snd eu)) + acc)%N)
                 0%N (users d)).

(** ** Collections *)

(** [collection.files.map(id => this.getUploadById(id)).filter(Boolean)]. *)
Definition expand_files (d : Data) (fs : list string) : list (Upload * string) :=
  omap (fun fileId => getUploadById fileId d) fs.

(** [createCollection(userEmail, name, description)] with the uuid drawn
    and the clock [t]. *)
Definition createCollection (userEmail nm descr uuid : string) (t : Z) (d : Data)
    : Data * outcome Collection :=
  let c := mkCollection uuid nm descr userEmail t [] true in
  let d1 := set_collections (obj_set uuid c (collections d)) d in
  match obj_get userEmail (users d1) with
  | None => (d1, Throws "Cannot read properties of undefined (reading 'collections')")
  | Some _ =>
      (set_users
         (obj_update userEmail
            (fun u => set_user_collections
                        (Some (default [] (user_collections u) ++ [uuid])) u)
            (users d1)) d1,
       Returns c)
  end.

(** [addFileToCollection(collectionId, fileId)]. *)
Definition addFileToCollection (collectionId fileId : string) (d : Data)
    : Data * bool :=
  match obj_get collectionId (collections d) with
  | Some c =>
      if bool_decide (fileId ∈ files c) then (d, false)
      else (set_collections
              (obj_update collectionId (fun c' => set_files (files c' ++ [fileId]) c')
                 (collections d)) d, true)
  | None => (d, false)
  end.

(** [removeFileFromCollection(collectionId, fileId)]. *)
Definition removeFileFromCollection (collectionId fileId : string) (d : Data)
    : Data * bool :=
  match obj_get collectionId (collections d) with
  | Some c =>
      if bool_decide (fileId ∈ files c)
      then (set_collections
              (obj_update collectionId
                 (fun c' => set_files (remove_first fileId (files c')) c')
                 (collections d)) d, true)
      else (d, false)
  | None => (d, false)
  end.

(** [deleteCollection(collectionId, userEmail)]. *)
Definition deleteCollection (collectionId userEmail : string) (d : Data)
    : Data * outcome bool :=
  match obj_get collectionId (collections d) with
  | Some c =>
      if bool_decide (createdBy c = userEmail) then
        let d1 := set_collections (obj_delete collectionId (collections d)) d in
        match obj_get userEmail (users d1) with
        | None =>
            (d1, Throws "Cannot read properties of undefined (reading 'collections')")
        | Some _ =>
            let us1 :=
              obj_update userEmail
                (fun u => set_user_collections
                            (remove_first collectionId <$> user_collections u) u)
                (users d1) in
            let us2 :=
              (fun eu => (fst eu,
                          set_subscribedCollections
                            (remove_first collectionId
                               <$> subscribedCollections (snd eu)) (snd eu)))
                <$> us1 in
            (set_users us2 d1, Returns true)
        end
      else (d, Returns false)
  | None => (d, Returns false)
  end.

(** [getCollection(collectionId)]: the collection and its files
    expanded. *)
Definition getCollection (collectionId : string) (d : Data)
    : option (Collection * list (Upload * string)) :=
  match obj_get collectionId (collections d) with
  | Some c => Some (c, expand_files d (files c))
  | None => None
  end.

(** [getUserCollections(userEmail)]. *)
Definition getUserCollections (userEmail : string) (d : Data)
    : list (Collection * list (Upload * string)) :=
  match obj_get userEmail (users d) with
  | Some u =>
      match user_collections u with
      | Some ids => omap (fun cid => getCollection cid d) ids
      | None => []
      end
  | None => []
  end.

(** [getPublicCollections()]. *)
Definition getPublicCollections (d : Data)
    : list (Collection * list (Upload * string)) :=
  (fun kc => (snd kc, expand_files d (files (snd kc))))
    <$> filter (fun kc => isPublic (snd kc) = true) (collections d).

(** ** Subscriptions *)

(** The common shape of [subscribeToFile] and [subscribeToCollection]
    on the list [get u]: an absent list is created first. *)
Definition subscribe (get : User -> option (list string))
    (set : option (list string) -> User -> User) (prop : string)
    (userEmail x : string) (d : Data) : Data * outcome bool :=
  match obj_get userEmail (users d) with
  | None =>
      (d, Throws ("Cannot read properties of undefined (reading '" ++ prop ++ "')"))
  | Some u =>
      match get u with
      | Some l =>
          if bool_decide (x ∈ l) then (d, Returns false)
          else (set_users
                  (obj_update userEmail (set (Some (l ++ [x]))) (users d)) d,
                Returns true)
      | None =>
          (set_users (obj_update userEmail (set (Some [x])) (users d)) d,
           Returns true)
      end
  end.

(** The common shape of [unsubscribeFromFile] and
    [unsubscribeFromCollection]. *)
Definition unsubscribe (get : User -> option (list string))
    (set : option (list string) -> User -> User) (prop : string)
    (userEmail x : string) (d : Data) : Data * outcome bool :=
  match obj_get userEmail (users d) with
  | None =>
      (d, Throws ("Cannot read properties of undefined (reading '" ++ prop ++ "')"))
  | Some u =>
      match get u with
      | Some l =>
          if bool_decide (x ∈ l)
          then (set_users
                  (obj_update userEmail (set (Some (remove_first x l))) (users d)) d,
                Returns true)
          else (d, Returns false)
      | None => (d, Returns false)
      end
  end.

Definition subscribeToFile :=
  subscribe subscribedFiles set_subscribedFiles "subscribedFiles".
Definition unsubscribeFromFile :=
  unsubscribe subscribedFiles set_subscribedFiles "subscribedFiles".
Definition subscribeToCollection :=
  subscribe subscribedCollections set_subscribedCollections "subscribedCollections".
Definition unsubscribeFromCollection :=
  unsubscribe subscribedCollections set_subscribedCollections
    "subscribedCollections".

(** [getSubscribedFiles(userEmail)]. *)
Definition getSubscribedFiles (userEmail : string) (d : Data)
    : list (Upload * string) :=
  match obj_get userEmail (users d) with
  | Some u =>
      match subscribedFiles u with
      | Some ids => expand_files d ids
      | None => []
      end
  | None => []
  end.

(** [getSubscribedCollections(userEmail)]. *)
Definition getSubscribedCollections (userEmail : string) (d : Data)
    : list Collection :=
  match obj_get userEmail (users d) with
  | Some u =>
      match subscribedCollections u with
      | Some ids => omap (fun cid => obj_get cid (collections d)) ids
      | None => []
      end
  | None => []
  end.

(** ** Profiles *)

(** [getPublicProfile(userEmail)]: [name], [email], [uploads],
    [collections], [joinedAt]. *)
Record Profile := mkProfile {
  profile_name : string;
  profile_email : string;
  profile_uploads : list Upload;
  profile_collections : list (Collection * list (Upload * string));
  joinedAt : Z
}.

Definition getPublicProfile (userEmail : string) (d : Data) : option Profile :=
  match obj_get userEmail (users d) with
  | Some u =>
      if profilePublic u then
        Some (mkProfile (name u) userEmail
                (filter (fun up => isPrivate up = false) (uploads u))
                (filter (fun c => isPublic (fst c) = true)
                   (getUserCollections userEmail d))
                (createdAt u))
      else None
  | None => None
  end.

(** ** Well-formed data *)

(** All the ids of all the uploads, in the order of the loops. *)
Definition upload_ids (d : Data) : list string :=
  mbind (fun eu => upload_id <$> uploads (snd eu)) (users d).

(** No user is subscribed twice to a collection. *)
Definition subscriptions_distinct (d : Data) : Prop :=
  Forall (fun eu => NoDup (default [] (subscribedCollections (snd eu)))) (users d).

(** ** Sample data *)

(** The extensions of the file names used below. *)
Definition extname_of_samples (fname : string) : string :=
  if decide (fname = "song.mp3") then ".mp3"
  else if decide (fname = "demo.WAV") then ".wav"
  else if decide (fname = "cover.PNG") then ".png"
  else if decide (fname = "notes.txt") then ".txt"
  else "".

Definition song : Upload :=
  mkUpload "f1" "song.mp3" "1700000000000-song.mp3" 4200 1000 (Some 5000) 3
           false "audio".
Definition notes : Upload :=
  mkUpload "f2" "notes.txt" "1700000000001-notes.txt" 120 2000 None 0
           true "other".
Definition cover : Upload :=
  mkUpload "f3" "cover.PNG" "1700000000002-cover.PNG" 900 3000 (Some 9000) 1
           false "image".

Definition alice : User :=
  mkUser "Alice" [song; notes] (Some ["c1"; "c2"]) (Some []) (Some []) true true
         500 (Some 600).
Definition bob : User :=
  mkUser "Bob" [cover] (Some []) (Some ["f1"]) (Some ["c1"]) true false
         700 None.

Definition mixtape : Collection :=
  mkCollection "c1" "Mixtape" "" "alice@example.org" 1500 ["f1"; "f3"] true.

Definition drafts : Collection :=
  mkCollection "c2" "Drafts" "work in progress" "alice@example.org" 2500 ["f2"]
               true.

Definition sample_db : Data :=
  mkData [("alice@example.org", alice); ("bob@example.org", bob)]
         [("c1", mixtape); ("c2", drafts)].

Definition demo : FileData :=
  mkFileData "f4" "demo.WAV" "1700000000003-demo.WAV" 7000 4000 (Some 8000)
             None false.

End FileDatabase.

Module EmailQueue.

Open Scope Z_scope.

(** ** Data *)

(** [status] strings written by the class. *)
Inductive Status := pending | retrying | failed.

#[global] Instance Status_eq_dec : EqDecision Status.
Proof. solve_decision. Defined.

(** The object handed to [enqueue]; all call sites in [server.js] pass
    [type], [to], [subject], [html] and optionally [metadata]. *)
Record EmailData := mkEmailData {
  type_ : string;
  to : string;
  subject : string;
  html : string;
  metadata : option string
}.

(** [emailItem]: [{ id, ...emailData, attempts, createdAt, status }] plus
    the two fields added by a failed attempt.  Time stamps are kept as
    the millisecond clock value they are printed from. *)
Record Job := mkJob {
  email_id : string;
  data : EmailData;
  attempts : N;
  createdAt : Z;
  status : Status;
  lastError : option string;
  lastAttempt : option Z
}.

(** Result of an operation that may throw. *)
Inductive result (A : Type) : Type :=
| Ok (a : A)
| Throw (msg : string).
Arguments Ok {A} a.
Arguments Throw {A} msg.

(** The content of [email-queue.json]: either the JSON text of a list of
    items, or bytes that [JSON.parse] rejects. *)
Inductive FileContent :=
| Json (items : list Job)
| Garbled.

(** The two places on disk: the queue file (absent before the first
    write) and the [failed-emails] directory, one file per item. *)
Record Disk := mkDisk {
  queueFile : option FileContent;
  failedDir : gmap string Job
}.

(** Heap locations of e-mail items. *)
Abbreviation loc := nat (only parsing).

(** A suspended [processQueue] invocation: it waits either for
    [Promise.allSettled] of the promises of its batch or for the two
    second pause between batches. *)
Inductive Episode :=
| AwaitBatch (promises : list nat)
| AwaitPause (due : Z).

(** A [processSingleEmail] invocation suspended at [await sendEmail]. *)
Record Proc := mkProc {
  proc_promise : nat;
  processId : string;
  emailItem : loc
}.

(** A pending [setTimeout] of the retry path, with the item its closure
    captured. *)
Record RetryTimer := mkTimer {
  timer_due : Z;
  timer_item : loc
}.

(** The instance fields of [EmailQueue], the suspended computations of
    the event loop, the disk and the clock. *)
Record State := mkState {
  heap : list Job;
  queue : list loc;
  processing : bool;
  activeProcesses : gset string;
  episodes : list Episode;
  inflight : list Proc;
  timers : list RetryTimer;
  next_promise : nat;
  disk : Disk;
  now : Z
}.

(** Constructor constants. *)
Definition retryAttempts : N := 3.
Definition retryDelay : Z := 5000.
Definition maxRetryDelay : Z := 300000.
Definition maxConcurrentEmails : nat := 3.
Definition batchPause : Z := 2000.

(** ** Field updates *)

Definition set_heap (h : list Job) (s : State) : State :=
  mkState h (queue s) (processing s) (activeProcesses s) (episodes s)
          (inflight s) (timers s) (next_promise s) (disk s) (now s).
Definition set_queue (q : list loc) (s : State) : State :=
  mkState (heap s) q (processing s) (activeProcesses s) (episodes s)
          (inflight s) (timers s) (next_promise s) (disk s) (now s).
Definition set_processing (b : bool) (s : State) : State :=
  mkState (heap s) (queue s) b (activeProcesses s) (episodes s)
          (inflight s) (timers s) (next_promise s) (disk s) (now s).
Definition set_activeProcesses (a : gset string) (s : State) : State :=
  mkState (heap s) (queue s) (processing s) a (episodes s)
          (inflight s) (timers s) (next_promise s) (disk s) (now s).
Definition set_episodes (e : list Episode) (s : State) : State :=
  mkState (heap s) (queue s) (processing s) (activeProcesses s) e
          (inflight s) (timers s) (next_promise s) (disk s) (now s).
Definition set_inflight (f : list Proc) (s : State) : State :=
  mkState (heap s) (queue s) (processing s) (activeProcesses s) (episodes s)
          f (timers s) (next_promise s) (disk s) (now s).
Definition set_timers (t : list RetryTimer) (s : State) : State :=
  mkState (heap s) (queue s) (processing s) (activeProcesses s) (episodes s)
          (inflight s) t (next_promise s) (disk s) (now s).
Definition set_next_promise (n : nat) (s : State) : State :=
  mkState (heap s) (queue s) (processing s) (activeProcesses s) (episodes s)
          (inflight s) (timers s) n (disk s) (now s).
Definition set_disk (d : Disk) (s : State) : State :=
  mkState (heap s) (queue s) (processing s) (activeProcesses s) (episodes s)
          (inflight s) (timers s) (next_promise s) d (now s).
Definition set_now (t : Z) (s : State) : State :=
  mkState (heap s) (queue s) (processing s) (activeProcesses s) (episodes s)
          (inflight s) (timers s) (next_promise s) (disk s) t.

(** ** File system *)

(** [fs.writeFileSync(this.queueFile, text)]: [io] is what the storage
    does with this call; a failed write throws and leaves the file as it
    was. *)
Definition writeFileSync (io : bool) (c : FileContent) (d : Disk) : result Disk :=
  if io then Ok (mkDisk (Some c) (failedDir d))
  else Throw "EIO: i/o error, write".

(** [fs.readFileSync(this.queueFile, 'utf8')]. *)
Definition readFileSync (io : bool) (c : FileContent) : result FileContent :=
  if io then Ok c else Throw "EIO: i/o error, read".

(** [JSON.parse(data)]. *)
Definition JSON_parse (c : FileContent) : result (list Job) :=
  match c with
  | Json items => Ok items
  | Garbled => Throw "Unexpected token in JSON"
  end.

(** [JSON.stringify(this.queue)]: the items the queue holds right now,
    with the field values they have right now. *)
Definition JSON_stringify (s : State) : FileContent :=
  Json (omap (fun l => heap s !! l) (queue s)).

(** ** Methods *)

(** [saveQueue]: the [catch] logs the error and the method returns
    normally. *)
Definition saveQueue (io : bool) (s : State) : State :=
  match writeFileSync io (JSON_stringify s) (disk s) with
  | Ok d => set_disk d s
  | Throw _ => s
  end.

(** The [try] block of [loadQueue]: what [this.queue] is assigned, or the
    exception of [readFileSync] or [JSON.parse].  Without a file the
    block does nothing and the queue stays the [[]] of the constructor. *)
Definition loadQueue_try (io : bool) (d : Disk) : result (list Job) :=
  match queueFile d with
  | None => Ok []
  | Some c =>
      match readFileSync io c with
      | Ok text => JSON_parse text
      | Throw msg => Throw msg
      end
  end.

(** [loadQueue]: the [catch] warns and sets [this.queue = []]. *)
Definition loadQueue (io : bool) (d : Disk) : list Job :=
  match loadQueue_try io d with
  | Ok items => items
  | Throw _ => []
  end.

(** [new EmailQueue()] in a process started at clock [t] on disk [d]:
    the loaded items are fresh objects, [startQueueProcessor] registers
    the interval (the [EvInterval] event below). *)
Definition constructor (io : bool) (d : Disk) (t : Z) : State :=
  let items := loadQueue io d in
  mkState items (seq 0 (length items)) false ∅ [] [] [] 0 d t.

(** [generateId]: [Date.now() + '-' + Math.random().toString(36).substr(2, 9)];
    [rnd] is the random suffix. *)
Definition generateId (rnd : string) (s : State) : string :=
  pretty (now s) +:+ "-" +:+ rnd.

(** First half of [processSingleEmail], up to [await this.sendEmail]:
    registers the process id and suspends; returns the promise. *)
Definition processSingleEmail (l : loc) (s : State) : State * nat :=
  let ident := match heap s !! l with Some j => email_id j | None => "undefined" end in
  let pid := ident +:+ "-" +:+ pretty (now s) in
  let p := next_promise s in
  (set_next_promise (S p)
     (set_inflight (inflight s ++ [mkProc p pid l])
        (set_activeProcesses ({[pid]} ∪ activeProcesses s) s)), p).

(** [emailsToProcess.map(emailItem => this.processSingleEmail(emailItem))]. *)
Fixpoint map_processSingleEmail (ls : list loc) (s : State) : State * list nat :=
  match ls with
  | [] => (s, [])
  | l :: ls' =>
      let '(s1, p) := processSingleEmail l s in
      let '(s2, ps) := map_processSingleEmail ls' s1 in
      (s2, p :: ps)
  end.

(** The [finally] of [processQueue]. *)
Definition processQueue_finally (s : State) : State := set_processing false s.

(** One evaluation of the [while] header of [processQueue] and of the
    loop body up to its first [await].  Every iteration awaits, so a
    callback passes here at most once. *)
Definition processQueue_loop (s : State) : State :=
  if bool_decide (0 < length (queue s))%nat
     && bool_decide (size (activeProcesses s) < maxConcurrentEmails)%nat
  then
    let availableSlots := (maxConcurrentEmails - size (activeProcesses s))%nat in
    let n := Nat.min availableSlots (length (queue s)) in
    let emailsToProcess := take n (queue s) in
    let s1 := set_queue (drop n (queue s)) s in
    if bool_decide (length emailsToProcess = 0)%nat then processQueue_finally s1
    else
      let '(s2, promises) := map_processSingleEmail emailsToProcess s1 in
      set_episodes (episodes s2 ++ [AwaitBatch promises]) s2
  else processQueue_finally s.

(** [processQueue()], the synchronous part of a call. *)
Definition processQueue (s : State) : State :=
  if processing s then s
  else processQueue_loop (set_processing true s).

(** [enqueue(emailData)]: the new state and what the call gives back to
    its caller. *)
Definition enqueue (emailData : EmailData) (rnd : string) (io : bool)
    (s : State) : State * result string :=
  let emailItem :=
    mkJob (generateId rnd s) emailData 0 (now s) pending None None in
  let l := length (heap s) in
  let s1 := set_queue (queue s ++ [l]) (set_heap (heap s ++ [emailItem]) s) in
  let s2 := saveQueue io s1 in
  let s3 := if processing s2 then s2 else processQueue s2 in
  (s3, Ok (email_id emailItem)).

(** The callback of [setInterval] in [startQueueProcessor]. *)
Definition interval_callback (s : State) : State :=
  if negb (processing s) && bool_decide (0 < length (queue s))%nat
  then processQueue s else s.

(** [saveFailedEmail]: writes [failed-<id>.json]; errors are logged. *)
Definition saveFailedEmail (io : bool) (j : Job) (s : State) : State :=
  if io then
    set_disk (mkDisk (queueFile (disk s))
                (<["failed-" +:+ email_id j +:+ ".json" := j]> (failedDir (disk s)))) s
  else s.

(** The delay of the retry branch, computed from the incremented
    counter (which is at least 1 there, so the power is integral). *)
Definition retry_delay (attempts : N) : Z :=
  Z.min (retryDelay * 2 ^ (Z.of_N attempts - 1)) maxRetryDelay.

(** The three assignments at the head of the [catch] block. *)
Definition record_failure (msg : string) (t : Z) (j : Job) : Job :=
  mkJob (email_id j) (data j) (attempts j + 1) (createdAt j) (status j)
        (Some msg) (Some t).

Definition set_status (st : Status) (j : Job) : Job :=
  mkJob (email_id j) (data j) (attempts j) (createdAt j) st
        (lastError j) (lastAttempt j).

(** What [sendEmail] settles with. *)
Inductive SendOutcome :=
| Sent
| Rejected (msg : string).

(** The [catch] block of [processSingleEmail] for the item at [l]. *)
Definition processSingleEmail_catch (l : loc) (msg : string)
    (io_failed io : bool) (s : State) : State :=
  let s1 := set_heap (alter (record_failure msg (now s)) l (heap s)) s in
  let n := match heap s1 !! l with Some j => attempts j | None => 0%N end in
  let s2 :=
    if bool_decide (retryAttempts <= n)%N then
      let s' := set_heap (alter (set_status failed) l (heap s1)) s1 in
      match heap s' !! l with
      | Some j => saveFailedEmail io_failed j s'
      | None => s'
      end
    else
      let s' := set_heap (alter (set_status retrying) l (heap s1)) s1 in
      let delay := retry_delay n in
      set_timers (timers s' ++ [mkTimer (now s' + delay) l]) s'
  in
  saveQueue io s2.

(** Second half of [processSingleEmail]: the continuation of
    [await this.sendEmail(emailItem)] for the invocation [p]. *)
Definition processSingleEmail_resume (p : Proc) (o : SendOutcome)
    (io_failed io : bool) (s : State) : State :=
  let s1 :=
    match o with
    | Sent => saveQueue io s
    | Rejected msg => processSingleEmail_catch (emailItem p) msg io_failed io s
    end in
  set_activeProcesses (activeProcesses s1 ∖ {[processId p]}) s1.

(** The callback given to [setTimeout] on the retry branch. *)
Definition retry_callback (l : loc) (io : bool) (s : State) : State :=
  let s1 := set_heap (alter (set_status pending) l (heap s)) s in
  let s2 := set_queue (queue s1 ++ [l]) s1 in
  let s3 := saveQueue io s2 in
  if processing s3 then s3 else processQueue s3.

(** Continuation of [await Promise.allSettled(processingPromises)]. *)
Definition processQueue_after_batch (s : State) : State :=
  if bool_decide (0 < length (queue s))%nat
  then set_episodes (episodes s ++ [AwaitPause (now s + batchPause)]) s
  else processQueue_loop s.

(** [clearQueue]. *)
Definition clearQueue (io : bool) (s : State) : State :=
  saveQueue io (set_queue [] s).

(** [getStatus]. *)
Record QueueStatus := mkStatus {
  queueLength : nat;
  st_processing : bool;
  st_activeProcesses : nat;
  st_maxConcurrentEmails : nat;
  pendingEmails : nat;
  retryingEmails : nat
}.

Definition count_status (st : Status) (s : State) : nat :=
  length (filter (fun l => status <$> heap s !! l = Some st) (queue s)).

Definition getStatus (s : State) : QueueStatus :=
  mkStatus (length (queue s)) (processing s) (size (activeProcesses s))
           maxConcurrentEmails (count_status pending s) (count_status retrying s).

(** ** The event loop *)

(** What can happen next: a producer calls [enqueue], a callback of the
    run time fires, an operator clears the queue, time passes, or the
    process dies and is started again on the same disk. *)
Inductive Event :=
| EvEnqueue (emailData : EmailData) (rnd : string) (io : bool)
| EvInterval
| EvSendDone (i : nat) (o : SendOutcome) (io_failed io : bool)
| EvRetryTimer (i : nat) (io : bool)
| EvBatchSettled (e : nat)
| EvPauseDone (e : nat)
| EvClearQueue (io : bool)
| EvElapse (dt : N)
| EvRestart (io : bool).

Definition settled (s : State) (p : nat) : bool :=
  bool_decide (p ∉ proc_promise <$> inflight s).

(** One turn of the event loop; [None] when the event cannot occur in
    [s] (no such invocation, timer not due, batch not settled).  A
    callback never runs early, but nothing here makes it run as soon as
    it may: [EvElapse] lets the clock pass a due timer, as a busy
    process does.  The runs of [step] therefore include those of a
    process that is on time ([punctual] below) and more. *)
Definition step (ev : Event) (s : State) : option State :=
  match ev with
  | EvEnqueue emailData rnd io => Some (fst (enqueue emailData rnd io s))
  | EvInterval => Some (interval_callback s)
  | EvSendDone i o io_failed io =>
      p ← inflight s !! i;
      Some (processSingleEmail_resume p o io_failed io
              (set_inflight (delete i (inflight s)) s))
  | EvRetryTimer i io =>
      t ← timers s !! i;
      if bool_decide (timer_due t <= now s)
      then Some (retry_callback (timer_item t) io
                   (set_timers (delete i (timers s)) s))
      else None
  | EvBatchSettled e =>
      ep ← episodes s !! e;
      match ep with
      | AwaitBatch ps =>
          if forallb (settled s) ps
          then Some (processQueue_after_batch
                       (set_episodes (delete e (episodes s)) s))
          else None
      | AwaitPause _ => None
      end
  | EvPauseDone e =>
      ep ← episodes s !! e;
      match ep with
      | AwaitPause due =>
          if bool_decide (due <= now s)
          then Some (processQueue_loop (set_episodes (delete e (episodes s)) s))
          else None
      | AwaitBatch _ => None
      end
  | EvClearQueue io => Some (clearQueue io s)
  | EvElapse dt => Some (set_now (now s + Z.of_N dt) s)
  | EvRestart io => Some (constructor io (disk s) (now s))
  end.

(** Running a list of events. *)
Fixpoint run (tr : list Event) (s : State) : option State :=
  match tr with
  | [] => Some s
  | ev :: tr' => s' ← step ev s; run tr' s'
  end.

(** A queue file as the class itself leaves it: absent, or a list of
    pending items (or unreadable, which loads as the empty queue). *)
Definition disk_pending (d : Disk) : Prop :=
  match queueFile d with
  | Some (Json items) => Forall (fun j => status j = pending) items
  | _ => True
  end.

(** States of a service first started on such a disk. *)
Inductive reachable : State -> Prop :=
| reach_boot io d t : disk_pending d -> reachable (constructor io d t)
| reach_step ev s s' : reachable s -> step ev s = Some s' -> reachable s'.


(** ** The retry policy in the words of the specification *)

Inductive Decision :=
| quarantine
| retry (delay : Z).

(** [nextDecision(attempts)]: quarantine from [maxAttempts = 3] on,
    otherwise retry after [min(baseDelay * 2^(attempts-1), maxDelay)]
    with [baseDelay = 5 s] and [maxDelay = 300 s], in milliseconds.
    [attempts] counts the attempts made so far, the failed one
    included, so it is at least 1 and the power is an integer. *)
Definition nextDecision (attempts : N) : Decision :=
  if (3 <=? attempts)%N then quarantine
  else retry (Z.min (5000 * 2 ^ (Z.of_N attempts - 1)) 300000).

(** ** Observations on runs *)

(** Everything [new EmailQueue()] leaves in memory. *)
Definition in_memory (s : State) :=
  (heap s, queue s, processing s, activeProcesses s, episodes s,
   inflight s, timers s).

Definition is_restart (ev : Event) : bool :=
  match ev with EvRestart _ => true | _ => false end.

(** The events that ask for queue processing. *)
Definition is_trigger (ev : Event) : bool :=
  match ev with
  | EvEnqueue _ _ _ | EvInterval | EvRetryTimer _ _ => true
  | _ => false
  end.

(** Whether [ev] completes a delivery attempt of the item [l] that
    satisfies [sel] (an invocation of [processSingleEmail] for [l]
    resumes with that outcome). *)
Definition attempt_of (sel : SendOutcome -> bool) (l : loc) (ev : Event)
    (s : State) : N :=
  match ev with
  | EvSendDone i o _ _ =>
      match inflight s !! i with
      | Some p => if sel o && bool_decide (emailItem p = l) then 1 else 0
      | None => 0
      end
  | _ => 0
  end%N.

(** The number of such attempts along a run from [s]. *)
Fixpoint attempts_along (sel : SendOutcome -> bool) (l : loc)
    (tr : list Event) (s : State) : N :=
  match tr with
  | [] => 0
  | ev :: tr' =>
      attempt_of sel l ev s +
      match step ev s with
      | Some s' => attempts_along sel l tr' s'
      | None => 0
      end
  end%N.

Definition is_rejected (o : SendOutcome) : bool :=
  match o with Rejected _ => true | Sent => false end.

Definition any_outcome (o : SendOutcome) : bool := true.

(** ** Scenarios *)

Definition fresh_disk : Disk := mkDisk None ∅.

Definition mail : EmailData :=
  mkEmailData "test-email" "admin@example.com" "Test" "<p>Hello</p>" None.

(** A service started on a fresh disk at clock 1000. *)
Definition boot : State := constructor true fresh_disk 1000.

(** The state [tr] leads to from [boot]. *)
Definition after (tr : list Event) : State := default boot (run tr boot).

(** One e-mail is queued, its first delivery is rejected, and the
    episode that sent it ends. *)
Definition first_failure : list Event :=
  [EvEnqueue mail "k3j9x0q2a" true;
   EvSendDone 0 (Rejected "ECONNREFUSED") true true;
   EvBatchSettled 0].

(** Five e-mails are queued, the first is delivered, and after the
    pause the next batch starts. *)
Definition five_queued : list Event :=
  [EvEnqueue mail "a" true; EvEnqueue mail "b" true; EvEnqueue mail "c" true;
   EvEnqueue mail "d" true; EvEnqueue mail "e" true;
   EvSendDone 0 Sent true true; EvBatchSettled 0; EvElapse 2000; EvPauseDone 0].

(** One e-mail is queued and delivered at the first attempt. *)
Definition first_success : list Event :=
  [EvEnqueue mail "k3j9x0q2a" true; EvSendDone 0 Sent true true;
   EvBatchSettled 0].

(** Two e-mails are queued one after the other; the first is being
    sent when the second arrives. *)
Definition two_queued : list Event :=
  [EvEnqueue mail "a" true; EvEnqueue mail "b" true].

(** The operator clears the queue while the rejected e-mail waits for
    its retry; then the delay passes and the timer fires. *)
Definition clear_during_backoff : list Event :=
  first_failure ++ [EvClearQueue true; EvElapse 5000; EvRetryTimer 0 true].

(** A record of the [failed-emails] directory and a disk holding it. *)
Definition dead_letter : Job :=
  mkJob "900-zzzzzzzzz" mail 3 900 failed (Some "ECONNREFUSED") (Some 990).

Definition disk_with_dead_letter : Disk :=
  mkDisk None {["failed-900-zzzzzzzzz.json" := dead_letter]}.

(** ** Invariants *)

(** The items some part of the program still holds: waiting in the
    queue, being sent, or captured by a retry timer. *)
Definition live (s : State) : list loc :=
  queue s ++ (emailItem <$> inflight s) ++ (timer_item <$> timers s).

Definition queue_pending (s : State) : Prop :=
  forall l, l ∈ queue s -> exists j, heap s !! l = Some j /\ status j = pending.

(** What a suspended [processQueue] invocation waits for, against the
    invocations of [processSingleEmail] that are still running. *)
Definition episode_ok (s : State) (e : Episode) : Prop :=
  match e with
  | AwaitBatch ps => forall p, p ∈ inflight s -> proc_promise p ∈ ps
  | AwaitPause _ => inflight s = []
  end.

(** The invariant of the in-memory state: every item is held in one
    place only and exists in the heap; queued items are pending; the
    [processing] flag is up exactly while one episode is suspended, and
    the deliveries in flight are those of its batch; [activeProcesses]
    holds ids of running deliveries only; no more than
    [maxConcurrentEmails] deliveries run. *)
Record MemInv (s : State) : Prop := mkMemInv {
  inv_nodup : NoDup (live s);
  inv_alloc : forall l, l ∈ live s -> (l < length (heap s))%nat;
  inv_pending : queue_pending s;
  inv_idle : processing s = false -> episodes s = [] /\ inflight s = [];
  inv_busy : processing s = true -> exists e, episodes s = [e] /\ episode_ok s e;
  inv_active : forall x, x ∈ activeProcesses s -> x ∈ processId <$> inflight s;
  inv_bound : (length (inflight s) <= maxConcurrentEmails)%nat
}.

Definition Inv (s : State) : Prop := MemInv s /\ disk_pending (disk s).

(** An item marked ['retrying'] is held by a retry timer. *)
Definition retrying_on_timer (s : State) : Prop :=
  forall l j, heap s !! l = Some j -> status j = retrying ->
    l ∈ timer_item <$> timers s.

(** What a pending retry timer stands for: its item failed 1 or 2
    times, is marked ['retrying'], and the timer is due one backoff
    delay after the failed attempt. *)
Definition timers_backoff (s : State) : Prop :=
  forall t, t ∈ timers s ->
    exists j ta, heap s !! timer_item t = Some j /\
      status j = retrying /\ (1 <= attempts j < retryAttempts)%N /\
      lastAttempt j = Some ta /\
      timer_due t = ta + retry_delay (attempts j).

(** The job a third (or later) failed attempt leaves behind. *)
Definition quarantined (msg : string) (t : Z) (j : Job) : Job :=
  set_status failed (record_failure msg t j).

(** An e-mail whose deliveries are all rejected, from [enqueue] to the
    dead-letter directory: [k] is the position its retry timer takes
    among the pending timers. *)
Definition three_rejections (emailData : EmailData) (rnd : string)
    (m1 m2 m3 : string) (k : nat) : list Event :=
  [EvEnqueue emailData rnd true;
   EvSendDone 0 (Rejected m1) true true; EvBatchSettled 0;
   EvElapse 5000; EvRetryTimer k true;
   EvSendDone 0 (Rejected m2) true true; EvBatchSettled 0;
   EvElapse 10000; EvRetryTimer k true;
   EvSendDone 0 (Rejected m3) true true; EvBatchSettled 0].

(** One e-mail goes through: queued, delivered, episode over. *)
Definition first_success_a : list Event :=
  [EvEnqueue mail "a" true; EvSendDone 0 Sent true true; EvBatchSettled 0].

(** The e-mail of [first_failure] is rejected a second time and sent a
    third time. *)
Definition third_attempt : list Event :=
  first_failure ++
  [EvElapse 5000; EvRetryTimer 0 true;
   EvSendDone 0 (Rejected "ETIMEDOUT") true true; EvBatchSettled 0;
   EvElapse 10000; EvRetryTimer 0 true].

(** The queue as the callback [ev] extends it before it looks for
    work: [enqueue] and the retry callback push their item at the
    back. *)
Definition queue_with_arrival (ev : Event) (s : State) : list loc :=
  match ev with
  | EvEnqueue _ _ _ => queue s ++ [length (heap s)]
  | EvRetryTimer i _ =>
      match timers s !! i with
      | Some t => queue s ++ [timer_item t]
      | None => queue s
      end
  | _ => queue s
  end.

(** Whether the callback [ev] gets past the guards and into the loop
    of [processQueue] with no batch outstanding. *)
Definition enters_loop (ev : Event) (s : State) : bool :=
  match ev with
  | EvEnqueue _ _ _ | EvInterval | EvRetryTimer _ _ => negb (processing s)
  | EvPauseDone _ => true
  | _ => false
  end.

(** The callbacks of the class itself (time passing and a restart are
    not). *)
Definition is_callback (ev : Event) : bool :=
  match ev with EvElapse _ | EvRestart _ => false | _ => true end.

(** A service that is busy with one delivery and nothing else: the
    job [j], last of the heap, is the batch of the running episode; the
    queue is empty; [ts] are the retry timers of other jobs. *)
Definition sending (h : list Job) (j : Job) (ts : list RetryTimer) (np : nat)
    (dk : Disk) (t : Z) : State :=
  mkState (h ++ [j]) [] true ({[email_id j +:+ "-" +:+ pretty t]} ∪ ∅)
          [AwaitBatch [np]]
          [mkProc np (email_id j +:+ "-" +:+ pretty t) (length h)]
          ts (S np) dk t.

(** An idle service with an empty queue. *)
Definition drained (h : list Job) (ts : list RetryTimer) (np : nat)
    (dk : Disk) (t : Z) : State :=
  mkState h [] false ∅ [] [] ts np dk t.

(** Whether the clock may advance by [dt] in [s] without a callback
    being late: no retry timer and no pause falls due before then, and
    no settled batch waits for its continuation. *)
Definition may_elapse (dt : N) (s : State) : bool :=
  forallb (fun tm => bool_decide (now s + Z.of_N dt <= timer_due tm)) (timers s)
  && forallb (fun e => match e with
                       | AwaitPause due => bool_decide (now s + Z.of_N dt <= due)
                       | AwaitBatch ps => negb (forallb (settled s) ps)
                       end) (episodes s).

(** Whether [tr] runs from [s] with the run time on time: every timer
    fires the moment it is due. *)
Fixpoint punctual (tr : list Event) (s : State) : bool :=
  match tr with
  | [] => true
  | ev :: tr' =>
      match ev with EvElapse dt => may_elapse dt s | _ => true end
      && match step ev s with
         | Some s' => punctual tr' s'
         | None => false
         end
  end.

(** Whether a tick of the interval of [startQueueProcessor] finds
    nothing to do in [s]: its guard is false and the callback returns
    at once. *)
Definition tick_idle (s : State) : bool :=
  negb (negb (processing s) && bool_decide (0 < length (queue s))%nat).

(** Whether that is so in every state of the run of [tr] from [s], so
    that the ticks can be left out of [tr]. *)
Fixpoint ticks_idle (tr : list Event) (s : State) : bool :=
  tick_idle s
  && match tr with
     | [] => true
     | ev :: tr' =>
         match step ev s with
         | Some s' => ticks_idle tr' s'
         | None => false
         end
     end.

(** ** Lemmas on the methods *)

Lemma saveQueue_cases io s :
  saveQueue io s = s \/
  saveQueue io s = set_disk (mkDisk (Some (JSON_stringify s)) (failedDir (disk s))) s.
Proof. unfold saveQueue, writeFileSync. destruct io; auto. Qed.

Lemma MemInv_set_disk d s : MemInv s -> MemInv (set_disk d s).
Proof. intros [? ? ? ? ? ? ?]. split; assumption. Qed.

Lemma MemInv_saveQueue io s : MemInv s -> MemInv (saveQueue io s).
Proof.
  intros H. destruct (saveQueue_cases io s) as [-> | ->]; [done|].
  by apply MemInv_set_disk.
Qed.

Lemma stringify_pending s :
  queue_pending s -> disk_pending (mkDisk (Some (JSON_stringify s)) (failedDir (disk s))).
Proof.
  intros Hq. unfold disk_pending, JSON_stringify. simpl.
  apply Forall_forall. intros j Hj.
  apply list_elem_of_omap in Hj as (l & Hl & Hlk).
  destruct (Hq l Hl) as (j' & Hj' & Hst). congruence.
Qed.

Lemma disk_pending_saveQueue io s :
  queue_pending s -> disk_pending (disk s) -> disk_pending (disk (saveQueue io s)).
Proof.
  intros Hq Hd. destruct (saveQueue_cases io s) as [-> | ->]; [done|].
  by apply stringify_pending.
Qed.

Lemma Inv_saveQueue io s : Inv s -> Inv (saveQueue io s).
Proof.
  intros [Hm Hd]. split; [by apply MemInv_saveQueue|].
  apply disk_pending_saveQueue; [apply Hm | done].
Qed.

(** The batch loop starts one invocation per item and touches nothing
    but the process set, the invocation list and the promise counter. *)
Lemma map_processSingleEmail_spec ls : forall s s' ps,
  map_processSingleEmail ls s = (s', ps) ->
  exists procs,
    inflight s' = inflight s ++ procs /\
    emailItem <$> procs = ls /\
    proc_promise <$> procs = ps /\
    (forall x, x ∈ activeProcesses s' ->
       x ∈ activeProcesses s \/ x ∈ processId <$> procs) /\
    heap s' = heap s /\ queue s' = queue s /\ processing s' = processing s /\
    episodes s' = episodes s /\ timers s' = timers s /\ disk s' = disk s /\
    now s' = now s.
Proof.
  induction ls as [|l ls IH]; intros s s' ps Hrun;
    cbn [map_processSingleEmail] in Hrun.
  - injection Hrun as <- <-. exists []. rewrite app_nil_r. by auto 12.
  - destruct (processSingleEmail l s) as [s1 p] eqn:H1.
    destruct (map_processSingleEmail ls s1) as [s2 ps'] eqn:H2.
    injection Hrun as <- <-.
    destruct (IH _ _ _ H2) as (procs & Hin & Hit & Hpr & Hact & Hrest).
    unfold processSingleEmail in H1. injection H1 as <- <-. simpl in *.
    eexists (_ :: procs).
    split; [rewrite Hin, <- app_assoc; reflexivity|].
    split; [rewrite fmap_cons, Hit; reflexivity|].
    split; [rewrite fmap_cons, Hpr; reflexivity|].
    split; [|exact Hrest].
    intros x Hx. destruct (Hact x Hx) as [Hx'|Hx'].
    + apply elem_of_union in Hx' as [Hx'|Hx']; [|by left].
      apply elem_of_singleton in Hx'. right. subst x. rewrite fmap_cons. by left.
    + right. rewrite fmap_cons. by right.
Qed.

Lemma set_processing_same s : set_processing (processing s) s = s.
Proof. by destruct s. Qed.

Lemma idle_no_active s :
  MemInv s -> inflight s = [] -> activeProcesses s = ∅.
Proof.
  intros Hm Hin. apply set_eq. intros x. split; [|set_solver].
  intros Hx. apply (inv_active _ Hm) in Hx. rewrite Hin in Hx.
  by apply elem_of_nil in Hx.
Qed.

Lemma set_processing_idem b b' s :
  set_processing b (set_processing b' s) = set_processing b s.
Proof. reflexivity. Qed.

(** Starting an episode from an idle queue keeps the invariant: the
    batch takes at most [maxConcurrentEmails] items out of the queue. *)
Lemma processQueue_loop_idle s :
  MemInv s -> processing s = false ->
  MemInv (processQueue_loop (set_processing true s)).
Proof.
  intros Hm Hidle.
  destruct (inv_idle _ Hm Hidle) as [Hep Hin].
  pose proof (idle_no_active _ Hm Hin) as Hact.
  unfold processQueue_loop. cbn [queue activeProcesses set_processing].
  rewrite Hact, size_empty.
  destruct (bool_decide (0 < length (queue s))%nat) eqn:Hq; cbn [andb].
  2:{ unfold processQueue_finally. rewrite set_processing_idem, <- Hidle.
      by rewrite set_processing_same. }
  apply bool_decide_eq_true in Hq.
  rewrite bool_decide_true by (unfold maxConcurrentEmails; lia).
  set (n := Nat.min (maxConcurrentEmails - 0) (length (queue s))).
  assert (Hn : (0 < n <= maxConcurrentEmails)%nat)
    by (unfold n, maxConcurrentEmails; lia).
  rewrite bool_decide_false by (rewrite length_take; fold n; lia).
  destruct (map_processSingleEmail _ _) as [s2 ps] eqn:Hmap.
  apply map_processSingleEmail_spec in Hmap
    as (procs & Hin2 & Hit & Hpr & Hact2 & Hh & Hqu & Hpg & Hep2 & Htm & _ & _).
  cbn in Hin2, Hact2, Hh, Hqu, Hpg, Hep2, Htm.
  rewrite Hin in Hin2. cbn in Hin2.
  pose proof (inv_nodup _ Hm) as Hnd. unfold live in Hnd.
  rewrite Hin in Hnd. cbn in Hnd.
  rewrite <- (take_drop n (queue s)), <- app_assoc in Hnd.
  split; unfold live; cbn; rewrite ?Hin2, ?Hh, ?Hqu, ?Hpg, ?Hep2, ?Htm, ?Hit.
  - apply NoDup_app in Hnd as (Ht & Hdisj & Hrest).
    apply NoDup_app in Hrest as (Hd & Hdisj2 & Htl).
    apply NoDup_app. split; [done|]. split.
    + intros x Hx Hx'. apply elem_of_app in Hx' as [Hx'|Hx'].
      * apply (Hdisj x Hx'). apply elem_of_app. by left.
      * apply (Hdisj2 x Hx Hx').
    + apply NoDup_app. split; [done|]. split; [|done].
      intros x Hx Hx'. apply (Hdisj x Hx). apply elem_of_app. by right.
  - intros l Hl. apply (inv_alloc _ Hm). unfold live. rewrite Hin. cbn.
    rewrite <- (take_drop n (queue s)).
    rewrite !elem_of_app in Hl. rewrite !elem_of_app. tauto.
  - unfold queue_pending. cbn. rewrite Hh, Hqu. cbn. intros l Hl.
    apply (inv_pending _ Hm). rewrite <- (take_drop n (queue s)).
    apply elem_of_app. by right.
  - done.
  - intros _. eexists. split; [rewrite Hep; reflexivity|].
    cbn. rewrite Hin2. intros p Hp. rewrite <- Hpr. by apply list_elem_of_fmap_2.
  - intros x Hx. destruct (Hact2 x Hx) as [Hx'|Hx']; [|done].
    rewrite Hact in Hx'. set_solver.
  - rewrite <- (length_fmap emailItem), Hit, length_take. fold n. lia.
Qed.

Lemma processQueue_inv s : MemInv s -> MemInv (processQueue s).
Proof.
  intros Hm. unfold processQueue. destruct (processing s) eqn:Hp; [done|].
  by apply processQueue_loop_idle.
Qed.

Lemma processQueue_disk s : disk (processQueue s) = disk s.
Proof.
  unfold processQueue. destruct (processing s); [done|].
  unfold processQueue_loop.
  destruct (_ && _); [|done].
  destruct (bool_decide _); [done|].
  destruct (map_processSingleEmail _ _) as [s2 ps] eqn:Hmap.
  apply map_processSingleEmail_spec in Hmap as (procs & Hrest).
  cbn. by destruct Hrest as (_ & _ & _ & _ & _ & _ & _ & _ & _ & -> & _).
Qed.

Lemma Inv_processQueue s : Inv s -> Inv (processQueue s).
Proof.
  intros [Hm Hd]. split; [by apply processQueue_inv|].
  by rewrite processQueue_disk.
Qed.

(** *** Preservation, event by event *)

Lemma loadQueue_pending io d :
  disk_pending d -> Forall (fun j => status j = pending) (loadQueue io d).
Proof.
  unfold disk_pending, loadQueue, loadQueue_try, readFileSync.
  destruct (queueFile d) as [[items|]|]; destruct io; cbn; auto.
Qed.

Lemma Inv_constructor io d t : disk_pending d -> Inv (constructor io d t).
Proof.
  intros Hd. pose proof (loadQueue_pending io d Hd) as Hl.
  split; [|exact Hd]. unfold constructor.
  split; unfold live, queue_pending; cbn.
  - rewrite app_nil_r. apply NoDup_seq.
  - intros l. rewrite app_nil_r, elem_of_seq. lia.
  - intros l Hin. apply elem_of_seq in Hin as [_ Hlt]. cbn in Hlt.
    destruct (lookup_lt_is_Some_2 (loadQueue io d) l Hlt) as [j Hj].
    exists j. split; [done|].
    eapply (proj1 (Forall_forall _ _) Hl), list_elem_of_lookup_2, Hj.
  - done.
  - done.
  - set_solver.
  - unfold maxConcurrentEmails. lia.
Qed.

Lemma Inv_enqueue emailData rnd io s :
  Inv s -> Inv (fst (enqueue emailData rnd io s)).
Proof.
  intros [Hm Hd]. unfold enqueue. cbn [fst].
  set (item := mkJob _ _ _ _ _ _ _).
  set (s1 := set_queue _ _).
  assert (Hfresh : length (heap s) ∉ live s).
  { intros Hin. apply (inv_alloc _ Hm) in Hin. lia. }
  assert (H1 : Inv s1).
  { split; [|exact Hd].
    split; unfold live, queue_pending; cbn.
    - rewrite <- app_assoc. cbn. rewrite <- Permutation_middle.
      apply NoDup_cons. split; [exact Hfresh | apply Hm].
    - intros l Hl. rewrite length_app. cbn.
      rewrite <- app_assoc in Hl. cbn in Hl.
      rewrite <- Permutation_middle in Hl.
      apply elem_of_cons in Hl as [-> | Hl]; [lia|].
      apply (inv_alloc _ Hm) in Hl. lia.
    - intros l Hl. apply elem_of_app in Hl as [Hl|Hl].
      + destruct (inv_pending _ Hm l Hl) as (j & Hj & Hst).
        exists j. split; [|done]. rewrite lookup_app_l; [done|].
        by eapply lookup_lt_Some.
      + apply list_elem_of_singleton in Hl as ->.
        exists item. split; [|done].
        rewrite lookup_app_r by lia. by rewrite Nat.sub_diag.
    - apply Hm.
    - apply Hm.
    - apply Hm.
    - apply Hm. }
  apply (Inv_saveQueue io) in H1.
  destruct (processing (saveQueue io s1)); [done|].
  by apply Inv_processQueue.
Qed.

Lemma Inv_interval s : Inv s -> Inv (interval_callback s).
Proof.
  intros H. unfold interval_callback.
  destruct (_ && _); [by apply Inv_processQueue | done].
Qed.

Lemma Inv_clearQueue io s : Inv s -> Inv (clearQueue io s).
Proof.
  intros [Hm Hd]. unfold clearQueue. apply Inv_saveQueue.
  split; [|exact Hd].
  pose proof (inv_nodup _ Hm) as Hnd. unfold live in Hnd.
  apply NoDup_app in Hnd as (_ & _ & Hnd).
  split; unfold live, queue_pending; cbn; try apply Hm.
  - exact Hnd.
  - intros l Hl. apply (inv_alloc _ Hm). unfold live.
    apply elem_of_app. by right.
  - intros l Hl. by apply elem_of_nil in Hl.
Qed.

Lemma Inv_elapse t s : Inv s -> Inv (set_now t s).
Proof. intros [[? ? ? ? ? ? ?] Hd]. split; [split|]; assumption. Qed.

Lemma MemInv_alter f l s :
  MemInv s -> l ∉ queue s -> MemInv (set_heap (alter f l (heap s)) s).
Proof.
  intros Hm Hl. split; unfold live, queue_pending; cbn; try apply Hm.
  - intros l' Hl'. rewrite length_alter. by apply (inv_alloc _ Hm).
  - intros l' Hl'. destruct (inv_pending _ Hm l' Hl') as (j & Hj & Hst).
    exists j. split; [|done]. rewrite list_lookup_alter_ne; [done|].
    intros ->. by apply Hl.
Qed.

Lemma saveFailedEmail_inv io j s : Inv s -> Inv (saveFailedEmail io j s).
Proof.
  intros [Hm Hd]. unfold saveFailedEmail. destruct io; [|done].
  split; [by apply MemInv_set_disk | exact Hd].
Qed.

(** The [catch] block keeps the invariant when the item it mutates is
    held by nobody else. *)
Lemma Inv_catch l msg io_failed io s :
  Inv s -> l ∉ live s -> (l < length (heap s))%nat ->
  Inv (processSingleEmail_catch l msg io_failed io s).
Proof.
  intros [Hm Hd] Hl Hlt. unfold processSingleEmail_catch.
  assert (Hq : l ∉ queue s).
  { intros Hin. apply Hl. unfold live. apply elem_of_app. by left. }
  set (s1 := set_heap _ s).
  assert (H1 : Inv s1) by (split; [by apply MemInv_alter | exact Hd]).
  apply Inv_saveQueue.
  destruct (bool_decide _).
  - set (s' := set_heap _ s1).
    assert (H' : Inv s').
    { destruct H1 as [Hm1 Hd1]. split; [by apply MemInv_alter | exact Hd1]. }
    match goal with |- Inv (match ?x with _ => _ end) => destruct x end;
      [by apply saveFailedEmail_inv | done].
  - destruct H1 as [Hm1 Hd1]. split; [|exact Hd1].
    pose proof (MemInv_alter (set_status retrying) l s1 Hm1 Hq) as Hm2.
    split; unfold live, queue_pending; cbn; try apply Hm2.
    + rewrite fmap_app, !app_assoc. cbn.
      rewrite <- Permutation_cons_append. apply NoDup_cons.
      rewrite <- !app_assoc. split; [exact Hl | apply Hm].
    + intros l' Hl'. rewrite !length_alter.
      rewrite fmap_app, !app_assoc in Hl'. cbn in Hl'.
      rewrite <- Permutation_cons_append in Hl'.
      apply elem_of_cons in Hl' as [-> | Hl']; [done|].
      rewrite <- !app_assoc in Hl'. by apply (inv_alloc _ Hm).
Qed.

Lemma saveQueue_set_active a io s :
  saveQueue io (set_activeProcesses a s) = set_activeProcesses a (saveQueue io s).
Proof. unfold saveQueue, writeFileSync. by destruct io. Qed.

Lemma saveQueue_active io s : activeProcesses (saveQueue io s) = activeProcesses s.
Proof. unfold saveQueue, writeFileSync. by destruct io. Qed.

Lemma catch_set_active a l msg io_failed io s :
  processSingleEmail_catch l msg io_failed io (set_activeProcesses a s)
  = set_activeProcesses a (processSingleEmail_catch l msg io_failed io s).
Proof.
  unfold processSingleEmail_catch. cbn.
  destruct (bool_decide _); cbn.
  - destruct (alter _ _ _ !! l); cbn.
    + unfold saveFailedEmail. destruct io_failed; cbn;
        by rewrite <- saveQueue_set_active.
    + by rewrite <- saveQueue_set_active.
  - by rewrite <- saveQueue_set_active.
Qed.

Lemma catch_active l msg io_failed io s :
  activeProcesses (processSingleEmail_catch l msg io_failed io s) = activeProcesses s.
Proof.
  unfold processSingleEmail_catch. rewrite saveQueue_active.
  destruct (bool_decide _); cbn; [|done].
  destruct (alter _ _ _ !! l); cbn; [|done].
  unfold saveFailedEmail. by destruct io_failed.
Qed.

Lemma elem_of_delete_ne {A} (l : list A) i x y :
  l !! i = Some x -> y ∈ l -> y <> x -> y ∈ delete i l.
Proof.
  intros Hi Hy Hne. rewrite delete_take_drop.
  rewrite <- (take_drop_middle l i x Hi) in Hy.
  rewrite elem_of_app, elem_of_cons in Hy. rewrite elem_of_app.
  destruct Hy as [?|[?|?]]; [by left | done | by right].
Qed.

Lemma live_delete_inflight i p s :
  inflight s !! i = Some p ->
  live s ≡ₚ emailItem p :: live (set_inflight (delete i (inflight s)) s).
Proof.
  intros Hi. unfold live. cbn.
  rewrite <- (take_drop_middle (inflight s) i p Hi) at 1.
  rewrite delete_take_drop, !fmap_app, fmap_cons.
  rewrite <- !app_assoc. cbn.
  rewrite !Permutation_middle. by rewrite <- !Permutation_middle.
Qed.

Lemma Inv_sendDone i p o io_failed io s :
  Inv s -> inflight s !! i = Some p ->
  Inv (processSingleEmail_resume p o io_failed io
         (set_inflight (delete i (inflight s)) s)).
Proof.
  intros [Hm Hd] Hi.
  set (s0 := set_inflight (delete i (inflight s)) s).
  set (sa := set_activeProcesses (activeProcesses s ∖ {[processId p]}) s0).
  pose proof (live_delete_inflight i p s Hi) as Hperm. fold s0 in Hperm.
  pose proof (inv_nodup _ Hm) as Hnd. rewrite Hperm in Hnd.
  apply NoDup_cons in Hnd as [Hfresh Hnd].
  assert (Hsub : forall l, l ∈ live s0 -> l ∈ live s).
  { intros l Hl. rewrite Hperm. by right. }
  assert (Ha : Inv sa).
  { split; [|exact Hd]. split; unfold queue_pending; cbn.
    - exact Hnd.
    - intros l Hl. apply (inv_alloc _ Hm). by apply Hsub.
    - apply Hm.
    - intros Hp. destruct (inv_idle _ Hm Hp) as [_ Hnil].
      by rewrite Hnil in Hi.
    - intros Hp. destruct (inv_busy _ Hm Hp) as (e & He & Hok).
      exists e. split; [done|]. destruct e as [ps|due]; cbn in *.
      + intros p' Hp'. apply Hok. by eapply list_elem_of_delete_inv.
      + by rewrite Hok in Hi.
    - intros x Hx. apply elem_of_difference in Hx as [Hx Hne].
      apply (inv_active _ Hm), list_elem_of_fmap in Hx as (p' & -> & Hp').
      apply list_elem_of_fmap_2. eapply elem_of_delete_ne; [done..|].
      intros ->. apply Hne. by apply elem_of_singleton.
    - rewrite length_delete by eauto.
      pose proof (inv_bound _ Hm). lia. }
  unfold processSingleEmail_resume. destruct o as [|msg].
  - rewrite saveQueue_active, <- saveQueue_set_active.
    by apply Inv_saveQueue.
  - rewrite catch_active, <- catch_set_active.
    apply Inv_catch; [exact Ha | exact Hfresh |].
    apply (inv_alloc _ Hm). rewrite Hperm. by left.
Qed.

Lemma live_delete_timer i t s :
  timers s !! i = Some t ->
  live s ≡ₚ timer_item t :: live (set_timers (delete i (timers s)) s).
Proof.
  intros Hi. unfold live. cbn.
  rewrite <- (take_drop_middle (timers s) i t Hi) at 1.
  rewrite delete_take_drop, !fmap_app, fmap_cons.
  rewrite !app_assoc. by rewrite <- Permutation_middle.
Qed.

Lemma Inv_retry_callback i t io s :
  Inv s -> timers s !! i = Some t ->
  Inv (retry_callback (timer_item t) io (set_timers (delete i (timers s)) s)).
Proof.
  intros [Hm Hd] Hi.
  set (s0 := set_timers (delete i (timers s)) s).
  pose proof (live_delete_timer i t s Hi) as Hperm. fold s0 in Hperm.
  pose proof (inv_nodup _ Hm) as Hnd. rewrite Hperm in Hnd.
  apply NoDup_cons in Hnd as [Hfresh Hnd].
  assert (Hlt : (timer_item t < length (heap s))%nat).
  { apply (inv_alloc _ Hm). rewrite Hperm. by left. }
  unfold retry_callback.
  set (s2 := set_queue _ _).
  assert (H2 : Inv s2).
  { split; [|exact Hd]. split; unfold live, queue_pending; cbn; try apply Hm.
    - rewrite <- app_assoc. cbn. rewrite <- Permutation_middle.
      by apply NoDup_cons.
    - intros l Hl. rewrite length_alter.
      rewrite <- app_assoc in Hl. cbn in Hl.
      rewrite <- Permutation_middle in Hl.
      apply elem_of_cons in Hl as [-> | Hl]; [done|].
      apply (inv_alloc _ Hm). rewrite Hperm. by right.
    - intros l Hl. apply elem_of_app in Hl as [Hl|Hl].
      + destruct (inv_pending _ Hm l Hl) as (j & Hj & Hst).
        exists j. split; [|done]. rewrite list_lookup_alter_ne; [done|].
        intros <-. apply Hfresh. unfold live. apply elem_of_app. by left.
      + apply list_elem_of_singleton in Hl as ->.
        destruct (lookup_lt_is_Some_2 _ _ Hlt) as [j Hj].
        exists (set_status pending j). split; [|done].
        by rewrite list_lookup_alter_eq, Hj. }
  apply (Inv_saveQueue io) in H2.
  destruct (processing (saveQueue io s2)); [done|].
  by apply Inv_processQueue.
Qed.

(** A suspended episode is the only one, and the flag is up. *)
Lemma episode_unique e ep s :
  MemInv s -> episodes s !! e = Some ep ->
  processing s = true /\ episodes s = [ep] /\ e = 0%nat /\ episode_ok s ep.
Proof.
  intros Hm He. destruct (processing s) eqn:Hp.
  - destruct (inv_busy _ Hm Hp) as (e0 & Heq & Hok).
    rewrite Heq in He. destruct e as [|e]; cbn in He; [|done].
    injection He as <-. done.
  - destruct (inv_idle _ Hm Hp) as [Hnil _]. by rewrite Hnil in He.
Qed.

(** Once the episode is taken off and nothing is in flight, the state
    is that of an idle queue except for the flag. *)
Lemma resume_idle s :
  MemInv s -> processing s = true -> inflight s = [] ->
  MemInv (set_processing false (set_episodes [] s)) /\
  set_episodes [] s = set_processing true (set_processing false (set_episodes [] s)).
Proof.
  intros Hm Hp Hin. split.
  - split; unfold live, queue_pending; cbn; try apply Hm; done.
  - destruct s; cbn in *; by subst.
Qed.

Lemma Inv_pause_done e due s :
  Inv s -> episodes s !! e = Some (AwaitPause due) ->
  Inv (processQueue_loop (set_episodes (delete e (episodes s)) s)).
Proof.
  intros [Hm Hd] He.
  destruct (episode_unique _ _ _ Hm He) as (Hp & Heq & -> & Hok). cbn in Hok.
  rewrite Heq. cbn [delete list_delete].
  destruct (resume_idle s Hm Hp Hok) as [Hidle ->].
  pose proof (processQueue_loop_idle _ Hidle eq_refl) as Hloop.
  split; [exact Hloop|].
  pose proof (processQueue_disk (set_processing false (set_episodes [] s))) as Hdk.
  unfold processQueue in Hdk. cbn [processing set_processing] in Hdk.
  by rewrite Hdk.
Qed.

Lemma batch_settled_idle ps s :
  episode_ok s (AwaitBatch ps) -> forallb (settled s) ps = true -> inflight s = [].
Proof.
  intros Hok Hall. destruct (inflight s) as [|p rest] eqn:Hin; [done|].
  exfalso. cbn in Hok. rewrite Hin in Hok.
  assert (Hp : proc_promise p ∈ ps) by (apply Hok; by left).
  rewrite forallb_forall in Hall.
  apply list_elem_of_In, Hall in Hp. unfold settled in Hp.
  apply bool_decide_eq_true in Hp. apply Hp. rewrite Hin. by left.
Qed.

Lemma Inv_batch_settled e ps s :
  Inv s -> episodes s !! e = Some (AwaitBatch ps) ->
  forallb (settled s) ps = true ->
  Inv (processQueue_after_batch (set_episodes (delete e (episodes s)) s)).
Proof.
  intros [Hm Hd] He Hall.
  destruct (episode_unique _ _ _ Hm He) as (Hp & Heq & -> & Hok).
  pose proof (batch_settled_idle _ _ Hok Hall) as Hin.
  rewrite Heq. cbn [delete list_delete].
  unfold processQueue_after_batch. cbn [queue set_episodes].
  destruct (bool_decide _).
  - split; [|exact Hd].
    split; unfold live, queue_pending; cbn; try apply Hm.
    + intros Hf. congruence.
    + intros _. eexists. split; [reflexivity|]. exact Hin.
  - change (Inv (processQueue_loop (set_episodes [] s))).
    destruct (resume_idle s Hm Hp Hin) as [Hidle ->].
    pose proof (processQueue_loop_idle _ Hidle eq_refl) as Hloop.
    split; [exact Hloop|].
    pose proof (processQueue_disk (set_processing false (set_episodes [] s))) as Hdk.
    unfold processQueue in Hdk. cbn [processing set_processing] in Hdk.
    by rewrite Hdk.
Qed.

(** Every turn of the event loop keeps the invariant. *)
Lemma Inv_step ev s s' : Inv s -> step ev s = Some s' -> Inv s'.
Proof.
  intros HI Hstep. destruct ev; cbn in Hstep.
  - injection Hstep as <-. by apply Inv_enqueue.
  - injection Hstep as <-. by apply Inv_interval.
  - destruct (inflight s !! i) as [p|] eqn:Hi; cbn in Hstep; [|done].
    injection Hstep as <-. by apply Inv_sendDone.
  - destruct (timers s !! i) as [t|] eqn:Hi; cbn in Hstep; [|done].
    destruct (bool_decide _); [|done].
    injection Hstep as <-. by apply Inv_retry_callback.
  - destruct (episodes s !! e) as [[ps|due]|] eqn:He; cbn in Hstep; [|done..].
    destruct (forallb _ _) eqn:Hall; [|done].
    injection Hstep as <-. by eapply Inv_batch_settled.
  - destruct (episodes s !! e) as [[ps|due]|] eqn:He; cbn in Hstep; [done| |done].
    destruct (bool_decide _); [|done].
    injection Hstep as <-. by eapply Inv_pause_done.
  - injection Hstep as <-. by apply Inv_clearQueue.
  - injection Hstep as <-. by apply Inv_elapse.
  - injection Hstep as <-. apply Inv_constructor. apply HI.
Qed.

Lemma Inv_reachable s : reachable s -> Inv s.
Proof.
  induction 1 as [io d t Hd | ev s s' _ IH Hstep].
  - by apply Inv_constructor.
  - by eapply Inv_step.
Qed.

Lemma reachable_run tr : forall s s',
  reachable s -> run tr s = Some s' -> reachable s'.
Proof.
  induction tr as [|ev tr IH]; intros s s' Hr Hrun; cbn in Hrun.
  - by injection Hrun as <-.
  - destruct (step ev s) as [s1|] eqn:Hs; cbn in Hrun; [|done].
    eapply IH; [|exact Hrun]. by eapply reach_step.
Qed.

(** *** What the scheduling functions leave alone *)

Lemma processQueue_loop_frame s :
  heap (processQueue_loop s) = heap s /\ timers (processQueue_loop s) = timers s /\
  disk (processQueue_loop s) = disk s /\ now (processQueue_loop s) = now s.
Proof.
  unfold processQueue_loop. destruct (_ && _); [|done].
  destruct (bool_decide (length _ = _)); [done|].
  destruct (map_processSingleEmail _ _) as [s2 ps] eqn:Hmap.
  apply map_processSingleEmail_spec in Hmap
    as (procs & _ & _ & _ & _ & Hh & _ & _ & _ & Ht & Hd & Hn).
  cbn. by rewrite Hh, Ht, Hd, Hn.
Qed.

Lemma processQueue_frame s :
  heap (processQueue s) = heap s /\ timers (processQueue s) = timers s /\
  disk (processQueue s) = disk s /\ now (processQueue s) = now s.
Proof.
  unfold processQueue. destruct (processing s); [done|].
  apply (processQueue_loop_frame (set_processing true s)).
Qed.

Lemma trigger_frame s :
  let s' := if processing s then s else processQueue s in
  heap s' = heap s /\ timers s' = timers s /\ disk s' = disk s /\ now s' = now s.
Proof. cbn. destruct (processing s); [done | apply processQueue_frame]. Qed.

Lemma saveQueue_frame io s :
  heap (saveQueue io s) = heap s /\ queue (saveQueue io s) = queue s /\
  processing (saveQueue io s) = processing s /\
  episodes (saveQueue io s) = episodes s /\
  inflight (saveQueue io s) = inflight s /\ timers (saveQueue io s) = timers s /\
  now (saveQueue io s) = now s.
Proof. by destruct (saveQueue_cases io s) as [-> | ->]. Qed.

Lemma catch_heap_timers l msg io_failed io s :
  let s' := processSingleEmail_catch l msg io_failed io s in
  let h1 := alter (record_failure msg (now s)) l (heap s) in
  let n := match h1 !! l with Some j => attempts j | None => 0%N end in
  if bool_decide (retryAttempts <= n)%N
  then heap s' = alter (set_status failed) l h1 /\ timers s' = timers s
  else heap s' = alter (set_status retrying) l h1 /\
       timers s' = timers s ++ [mkTimer (now s + retry_delay n) l].
Proof.
  cbn. unfold processSingleEmail_catch.
  match goal with |- context [saveQueue io ?x] =>
    destruct (saveQueue_frame io x) as (Hh & _ & _ & _ & _ & Ht & _) end.
  cbn in Hh, Ht |- *.
  destruct (bool_decide _).
  - rewrite Hh, Ht.
    destruct (alter _ _ _ !! l); [|done].
    unfold saveFailedEmail. by destruct io_failed.
  - by rewrite Hh, Ht.
Qed.

(** *** Items marked ['retrying'] *)

Lemma retrying_frame s s' :
  heap s' = heap s -> timers s' = timers s ->
  retrying_on_timer s -> retrying_on_timer s'.
Proof. unfold retrying_on_timer. intros -> ->. done. Qed.

Lemma retrying_constructor io d t :
  disk_pending d -> retrying_on_timer (constructor io d t).
Proof.
  intros Hd l j Hj Hst. cbn in Hj.
  pose proof (loadQueue_pending io d Hd) as Hall.
  apply list_elem_of_lookup_2 in Hj.
  apply (proj1 (Forall_forall _ _) Hall) in Hj. congruence.
Qed.

Lemma retrying_catch l msg io_failed io s :
  retrying_on_timer s ->
  retrying_on_timer (processSingleEmail_catch l msg io_failed io s).
Proof.
  intros Hr l' j' Hj' Hst.
  pose proof (catch_heap_timers l msg io_failed io s) as Hc. cbn in Hc.
  destruct (bool_decide _); destruct Hc as [Hh Ht]; rewrite Hh in Hj'; rewrite Ht.
  - destruct (decide (l = l')) as [<- | Hne].
    + rewrite list_lookup_alter_eq in Hj'.
      apply fmap_Some in Hj' as (j0 & _ & ->). done.
    + rewrite !list_lookup_alter_ne in Hj' by done. by eapply Hr.
  - rewrite fmap_app. apply elem_of_app.
    destruct (decide (l = l')) as [<- | Hne].
    + right. by left.
    + left. rewrite !list_lookup_alter_ne in Hj' by done. by eapply Hr.
Qed.

Lemma retrying_step ev s s' :
  Inv s -> retrying_on_timer s -> step ev s = Some s' -> retrying_on_timer s'.
Proof.
  intros HI Hr Hstep. destruct ev; cbn in Hstep.
  - injection Hstep as <-. unfold enqueue. cbn [fst].
    match goal with |- retrying_on_timer (if processing ?x then _ else _) =>
      destruct (trigger_frame x) as (Hh & Ht & _);
      destruct (saveQueue_frame io (set_queue (queue s ++ [length (heap s)])
        (set_heap (heap s ++ [mkJob (generateId rnd s) emailData 0 (now s)
                                 pending None None]) s)))
        as (Hh' & _ & _ & _ & _ & Ht' & _) end.
    intros l j Hj Hst. rewrite Hh, Hh' in Hj. rewrite Ht, Ht'.
    cbn in Hj |- *.
    destruct (decide (l < length (heap s))%nat) as [Hlt|Hge].
    + rewrite lookup_app_l in Hj by done. by eapply Hr.
    + rewrite lookup_app_r in Hj by lia.
      destruct (l - length (heap s))%nat; by simplify_eq/=.
  - injection Hstep as <-. unfold interval_callback.
    destruct (_ && _); [|done].
    destruct (processQueue_frame s) as (Hh & Ht & _).
    by eapply retrying_frame.
  - destruct (inflight s !! i) as [p|] eqn:Hi; cbn in Hstep; [|done].
    injection Hstep as <-. unfold processSingleEmail_resume.
    destruct o as [|msg].
    + eapply retrying_frame; [| |exact Hr]; cbn;
        by destruct (saveQueue_cases io (set_inflight (delete i (inflight s)) s))
          as [-> | ->].
    + apply (retrying_frame (processSingleEmail_catch (emailItem p) msg io_failed io
                 (set_inflight (delete i (inflight s)) s))); [done..|].
      by apply retrying_catch.
  - destruct (timers s !! i) as [t|] eqn:Hi; cbn in Hstep; [|done].
    destruct (bool_decide _); [|done].
    injection Hstep as <-. unfold retry_callback.
    match goal with |- retrying_on_timer (if processing ?x then _ else _) =>
      destruct (trigger_frame x) as (Hh & Ht & _) end.
    match type of Hh with context [saveQueue io ?x] =>
      destruct (saveQueue_frame io x) as (Hh' & _ & _ & _ & _ & Ht' & _) end.
    intros l j Hj Hst. rewrite Hh, Hh' in Hj. rewrite Ht, Ht'.
    cbn in Hj |- *.
    destruct (decide (timer_item t = l)) as [<- | Hne].
    + rewrite list_lookup_alter_eq in Hj.
      apply fmap_Some in Hj as (j0 & _ & ->). done.
    + rewrite list_lookup_alter_ne in Hj by done.
      rewrite list_fmap_delete.
      eapply elem_of_delete_ne; [by rewrite list_lookup_fmap, Hi | | done].
      by eapply Hr.
  - destruct (episodes s !! e) as [[ps|due]|] eqn:He; cbn in Hstep; [|done..].
    destruct (forallb _ _); [|done].
    injection Hstep as <-. unfold processQueue_after_batch.
    destruct (bool_decide _); [done|].
    match goal with |- retrying_on_timer (processQueue_loop ?x) =>
      destruct (processQueue_loop_frame x) as (Hh & Ht & _) end.
    by eapply retrying_frame.
  - destruct (episodes s !! e) as [[ps|due]|] eqn:He; cbn in Hstep; [done| |done].
    destruct (bool_decide _); [|done].
    injection Hstep as <-.
    match goal with |- retrying_on_timer (processQueue_loop ?x) =>
      destruct (processQueue_loop_frame x) as (Hh & Ht & _) end.
    by eapply retrying_frame.
  - injection Hstep as <-. unfold clearQueue.
    eapply retrying_frame; [| |exact Hr];
      by destruct (saveQueue_cases io (set_queue [] s)) as [-> | ->].
  - by injection Hstep as <-.
  - injection Hstep as <-. apply retrying_constructor, HI.
Qed.

Lemma retrying_reachable s : reachable s -> retrying_on_timer s.
Proof.
  induction 1 as [io d t Hd | ev s s' Hreach IH Hstep].
  - by apply retrying_constructor.
  - eapply retrying_step; [by apply Inv_reachable | exact IH | exact Hstep].
Qed.

(** ** Properties of the queue *)

Lemma reachable_boot : reachable boot.
Proof. apply reach_boot. exact I. Qed.

Lemma reachable_after tr s : run tr boot = Some s -> reachable (after tr).
Proof.
  intros Hrun. unfold after. rewrite Hrun. cbn.
  eapply reachable_run; [apply reachable_boot | exact Hrun].
Qed.

Lemma size_list_to_set_le (l : list string) :
  (size (list_to_set l : gset string) <= length l)%nat.
Proof.
  induction l as [|x l IH]; cbn.
  - by rewrite size_empty.
  - rewrite size_union_alt, size_singleton.
    assert (Hsub : list_to_set l ∖ {[x]} ⊆ (list_to_set l : gset string)).
    { intros y Hy. apply elem_of_difference in Hy. tauto. }
    apply subseteq_size in Hsub. lia.
Qed.

(** C6: at every reachable state at most [maxConcurrentEmails = 3]
    deliveries are in flight (invocations of [processSingleEmail]
    between their start and the settling of [sendEmail]), however many
    e-mails have been enqueued; the [activeProcesses] set that
    [getStatus] reports has at most 3 elements as well. *)
Theorem inflight_bounded s :
  reachable s ->
  (length (inflight s) <= maxConcurrentEmails)%nat /\
  maxConcurrentEmails = 3%nat /\
  (st_activeProcesses (getStatus s) <= 3)%nat.
Proof.
  intros Hr. destruct (Inv_reachable s Hr) as [Hm _].
  pose proof (inv_bound _ Hm) as Hb.
  split; [exact Hb|]. split; [reflexivity|]. cbn.
  assert (Hsub : activeProcesses s ⊆ list_to_set (processId <$> inflight s)).
  { intros x Hx. apply elem_of_list_to_set. by apply (inv_active _ Hm). }
  apply subseteq_size in Hsub.
  pose proof (size_list_to_set_le (processId <$> inflight s)) as Hle.
  rewrite length_fmap in Hle. unfold maxConcurrentEmails in Hb. lia.
Qed.

Lemma inflight_bounded_witness :
  reachable (after five_queued) /\
  length (queue (after five_queued) ++ (emailItem <$> inflight (after five_queued))) = 4%nat /\
  ((length (inflight (after five_queued)) <= maxConcurrentEmails)%nat /\
   maxConcurrentEmails = 3%nat /\
   (st_activeProcesses (getStatus (after five_queued)) <= 3)%nat).
Proof.
  assert (Hr : reachable (after five_queued))
    by (eapply reachable_after; vm_compute; reflexivity).
  split; [exact Hr|]. split; [vm_compute; reflexivity|].
  exact (inflight_bounded (after five_queued) Hr).
Defined.

(** C7: at most one scheduling episode ([processQueue] invocation past
    its guard) exists at any time, and it exists exactly while the
    [processing] flag is up; while it is up a call of [processQueue] and
    every trigger (an [enqueue], the periodic timer, the expiry of a
    retry delay) starts nothing: the episode and the deliveries in
    flight are as before; and no item is in flight twice. *)
Theorem single_episode s :
  reachable s ->
  (length (episodes s) <= 1)%nat /\
  (processing s = true <-> episodes s <> []) /\
  NoDup (emailItem <$> inflight s) /\
  (processing s = true ->
     processQueue s = s /\
     forall ev s', is_trigger ev = true -> step ev s = Some s' ->
       processing s' = true /\ episodes s' = episodes s /\
       inflight s' = inflight s).
Proof.
  intros Hr. destruct (Inv_reachable s Hr) as [Hm _].
  split; [|split; [|split]].
  - destruct (processing s) eqn:Hp.
    + destruct (inv_busy _ Hm Hp) as (e & -> & _). cbn. lia.
    + destruct (inv_idle _ Hm Hp) as [-> _]. cbn. lia.
  - destruct (processing s) eqn:Hp.
    + destruct (inv_busy _ Hm Hp) as (e & -> & _). done.
    + destruct (inv_idle _ Hm Hp) as [-> _]. done.
  - pose proof (inv_nodup _ Hm) as Hnd. unfold live in Hnd.
    apply NoDup_app in Hnd as (_ & _ & Hnd).
    by apply NoDup_app in Hnd as (Hnd & _ & _).
  - intros Hp. split; [unfold processQueue; by rewrite Hp|].
    intros ev s' Htr Hstep. destruct ev; try discriminate Htr; cbn in Hstep.
    + injection Hstep as <-. unfold enqueue. cbn [fst].
      match goal with |- context [saveQueue io ?x] =>
        destruct (saveQueue_cases io x) as [-> | ->] end;
        cbn; rewrite Hp; cbn; by rewrite Hp.
    + injection Hstep as <-. unfold interval_callback. by rewrite Hp.
    + destruct (timers s !! i) as [t|]; cbn in Hstep; [|done].
      destruct (bool_decide _); [|done].
      injection Hstep as <-. unfold retry_callback.
      match goal with |- context [saveQueue io ?x] =>
        destruct (saveQueue_cases io x) as [-> | ->] end;
        cbn; rewrite Hp; cbn; by rewrite Hp.
Qed.

Lemma single_episode_witness :
  reachable (after five_queued) /\
  processing (after five_queued) = true /\
  ((length (episodes (after five_queued)) <= 1)%nat /\
   (processing (after five_queued) = true <-> episodes (after five_queued) <> []) /\
   NoDup (emailItem <$> inflight (after five_queued)) /\
   (processing (after five_queued) = true ->
      processQueue (after five_queued) = after five_queued /\
      forall ev s', is_trigger ev = true -> step ev (after five_queued) = Some s' ->
        processing s' = true /\ episodes s' = episodes (after five_queued) /\
        inflight s' = inflight (after five_queued))).
Proof.
  assert (Hr : reachable (after five_queued))
    by (eapply reachable_after; vm_compute; reflexivity).
  split; [exact Hr|]. split; [vm_compute; reflexivity|].
  exact (single_episode (after five_queued) Hr).
Defined.

(** C10: at every reachable state every item in [this.queue] has status
    ['pending'], and so has every item of the persisted queue file; an
    item with status ['retrying'] is outside the queue, held by its
    retry timer; hence [getStatus] always reports [retryingEmails = 0]. *)
Theorem queue_holds_only_pending s :
  reachable s ->
  (forall l, l ∈ queue s -> exists j, heap s !! l = Some j /\ status j = pending) /\
  (forall items, queueFile (disk s) = Some (Json items) ->
     Forall (fun j => status j = pending) items) /\
  (forall l j, heap s !! l = Some j -> status j = retrying ->
     (l ∉ queue s) /\ l ∈ timer_item <$> timers s) /\
  retryingEmails (getStatus s) = 0%nat.
Proof.
  intros Hr. destruct (Inv_reachable s Hr) as [Hm Hd].
  pose proof (inv_pending _ Hm) as Hq.
  split; [exact Hq|]. split; [|split].
  - intros items Hf. unfold disk_pending in Hd. by rewrite Hf in Hd.
  - intros l j Hj Hst. split; [|by eapply (retrying_reachable s Hr)].
    intros Hin. destruct (Hq l Hin) as (j' & Hj' & Hst').
    rewrite Hj in Hj'. injection Hj' as <-. by rewrite Hst in Hst'.
  - cbn. unfold count_status.
    rewrite (elem_of_nil_inv (filter _ (queue s))); [done|].
    intros l Hl. apply list_elem_of_filter in Hl as [Hst Hin].
    destruct (Hq l Hin) as (j & Hj & Hst'). rewrite Hj in Hst. cbn in Hst.
    congruence.
Qed.

Lemma queue_holds_only_pending_witness :
  reachable (after first_failure) /\
  (status <$> heap (after first_failure) !! 0%nat) = Some retrying /\
  ((forall l, l ∈ queue (after first_failure) ->
      exists j, heap (after first_failure) !! l = Some j /\ status j = pending) /\
   (forall items, queueFile (disk (after first_failure)) = Some (Json items) ->
      Forall (fun j => status j = pending) items) /\
   (forall l j, heap (after first_failure) !! l = Some j -> status j = retrying ->
      (l ∉ queue (after first_failure)) /\
      l ∈ timer_item <$> timers (after first_failure)) /\
   retryingEmails (getStatus (after first_failure)) = 0%nat).
Proof.
  assert (Hr : reachable (after first_failure))
    by (eapply reachable_after; vm_compute; reflexivity).
  split; [exact Hr|]. split; [vm_compute; reflexivity|].
  exact (queue_holds_only_pending (after first_failure) Hr).
Defined.

(** *** [enqueue] and the store *)

Lemma enqueue_disk emailData rnd io s :
  disk (fst (enqueue emailData rnd io s))
  = disk (saveQueue io
      (set_queue (queue s ++ [length (heap s)])
         (set_heap (heap s ++ [mkJob (generateId rnd s) emailData 0 (now s)
                                  pending None None]) s))).
Proof.
  unfold enqueue. cbn [fst].
  match goal with |- disk (if processing ?x then _ else _) = _ =>
    destruct (trigger_frame x) as (_ & _ & Hd & _) end.
  exact Hd.
Qed.

Lemma enqueue_heap_new emailData rnd io s :
  heap (fst (enqueue emailData rnd io s)) !! length (heap s)
  = Some (mkJob (generateId rnd s) emailData 0 (now s) pending None None).
Proof.
  unfold enqueue. cbn [fst].
  match goal with |- heap (if processing ?x then _ else _) !! _ = _ =>
    destruct (trigger_frame x) as (Hh & _) end.
  rewrite Hh.
  match goal with |- heap (saveQueue io ?x) !! _ = _ =>
    destruct (saveQueue_frame io x) as (Hh' & _) end.
  rewrite Hh'. cbn. rewrite lookup_app_r by lia. by rewrite Nat.sub_diag.
Qed.

(** C1, as stated, fails: on a fresh service whose storage rejects the
    write, [saveQueue] gets the exception of [writeFileSync], yet
    [enqueue] returns the id and nothing has been persisted. *)
Lemma enqueue_swallows_write_error :
  let r := enqueue mail "k3j9x0q2a" false boot in
  (exists msg, writeFileSync false (Json [mkJob "1000-k3j9x0q2a" mail 0 1000
                                       pending None None]) (disk boot)
               = Throw msg) /\
  snd r = Ok "1000-k3j9x0q2a" /\
  queueFile (disk (fst r)) = None.
Proof. cbn. split; [by eexists | by vm_compute]. Qed.

(** *** The retry policy *)

(** C4: what the [catch] block of [processSingleEmail] decides depends
    on the attempt count alone and is [nextDecision] of the count
    reached by the failed attempt: quarantine (status ['failed'], no
    timer) from 3 attempts on, otherwise a retry (status ['retrying'],
    a timer) after [min(5000 * 2^(attempts-1), 300000)] ms; that is 5 s
    after the first attempt, 10 s after the second, and never more than
    300 s. *)
Theorem retry_policy l msg io_failed io s j :
  heap s !! l = Some j ->
  let s' := processSingleEmail_catch l msg io_failed io s in
  match nextDecision (attempts j + 1) with
  | quarantine =>
      status <$> heap s' !! l = Some failed /\ timers s' = timers s
  | retry delay =>
      status <$> heap s' !! l = Some retrying /\
      timers s' = timers s ++ [mkTimer (now s + delay) l]
  end /\
  (forall a, (3 <= a)%N -> nextDecision a = quarantine) /\
  (forall a, (1 <= a < 3)%N ->
     nextDecision a = retry (Z.min (5000 * 2 ^ (Z.of_N a - 1)) 300000)) /\
  nextDecision 1 = retry 5000 /\
  nextDecision 2 = retry 10000 /\
  (forall a d, nextDecision a = retry d -> d <= 300000).
Proof.
  intros Hj. cbv zeta. split; [|split; [|split; [|split; [|split]]]].
  - pose proof (catch_heap_timers l msg io_failed io s) as Hc. cbv zeta in Hc.
    rewrite list_lookup_alter_eq, Hj in Hc. cbn in Hc.
    unfold nextDecision, retryAttempts in *.
    destruct (N.leb_spec 3 (attempts j + 1)) as [Hge|Hlt].
    + rewrite bool_decide_true in Hc by done. destruct Hc as [-> ->].
      split; [|done].
      by rewrite !list_lookup_alter_eq, Hj.
    + rewrite bool_decide_false in Hc by lia. destruct Hc as [-> ->].
      split; [by rewrite !list_lookup_alter_eq, Hj | done].
  - intros a Ha. unfold nextDecision.
    by destruct (N.leb_spec 3 a); [|lia].
  - intros a Ha. unfold nextDecision.
    by destruct (N.leb_spec 3 a); [lia|].
  - reflexivity.
  - reflexivity.
  - intros a d. unfold nextDecision. destruct (3 <=? a)%N; [done|].
    intros [= <-]. apply Z.le_min_r.
Qed.

Lemma retry_policy_witness :
  heap (after two_queued) !! 0%nat
    = Some (mkJob "1000-a" mail 0 1000 pending None None) /\
  (let s' := processSingleEmail_catch 0 "ECONNREFUSED" true true (after two_queued) in
   match nextDecision (0 + 1) with
   | quarantine =>
       status <$> heap s' !! 0%nat = Some failed /\
       timers s' = timers (after two_queued)
   | retry delay =>
       status <$> heap s' !! 0%nat = Some retrying /\
       timers s' = timers (after two_queued)
                   ++ [mkTimer (now (after two_queued) + delay) 0]
   end /\
   (forall a, (3 <= a)%N -> nextDecision a = quarantine) /\
   (forall a, (1 <= a < 3)%N ->
      nextDecision a = retry (Z.min (5000 * 2 ^ (Z.of_N a - 1)) 300000)) /\
   nextDecision 1 = retry 5000 /\
   nextDecision 2 = retry 10000 /\
   (forall a d, nextDecision a = retry d -> d <= 300000)).
Proof.
  assert (H : heap (after two_queued) !! 0%nat
              = Some (mkJob "1000-a" mail 0 1000 pending None None))
    by (vm_compute; reflexivity).
  split; [exact H|].
  exact (retry_policy 0 "ECONNREFUSED" true true (after two_queued) _ H).
Defined.

(** *** Start-up *)

(** C8, as stated, fails for the dead-letter set: the constructor never
    reads the [failed-emails] directory; a disk holding a dead-letter
    record loads to the same memory as a fresh disk, and the record is
    nowhere in memory. *)
Lemma load_ignores_dead_letters :
  failedDir disk_with_dead_letter !! "failed-900-zzzzzzzzz.json" = Some dead_letter /\
  in_memory (constructor true disk_with_dead_letter 1000)
  = in_memory (constructor true fresh_disk 1000) /\
  heap (constructor true disk_with_dead_letter 1000) = [].
Proof. split; [by vm_compute | split; reflexivity]. Qed.

(** C8, amended: at start-up [loadQueue] reads the persisted active set
    only; dead-letter records are written and never read back.  When
    the queue file is absent, cannot be read or cannot be parsed, the
    queue starts empty and the constructor completes: the service is
    idle on an unchanged disk; a file that parses is loaded as it is. *)
Theorem loadQueue_never_refuses io d t :
  (forall fd, in_memory (constructor io (mkDisk (queueFile d) fd) t)
              = in_memory (constructor io d t)) /\
  (forall fd, (exists msg, loadQueue_try io (mkDisk (Some Garbled) fd) = Throw msg) /\
              in_memory (constructor io (mkDisk (Some Garbled) fd) t)
              = ([], [], false, ∅, [], [], [])) /\
  (forall c fd, in_memory (constructor false (mkDisk (Some c) fd) t)
                = ([], [], false, ∅, [], [], [])) /\
  (forall fd, in_memory (constructor io (mkDisk None fd) t)
              = ([], [], false, ∅, [], [], [])) /\
  (forall items fd,
     in_memory (constructor true (mkDisk (Some (Json items)) fd) t)
     = (items, seq 0 (length items), false, ∅, [], [], [])) /\
  disk (constructor io d t) = d.
Proof.
  split; [|split; [|split; [|split; [|split]]]]; try done.
  intros fd. split; [destruct io; by eexists|]. by destruct io.
Qed.

(** *** The attempt counter *)

Lemma attempts_step ev s s' l j :
  is_restart ev = false -> step ev s = Some s' -> heap s !! l = Some j ->
  exists j', heap s' !! l = Some j' /\
             attempts j' = (attempts j + attempt_of is_rejected l ev s)%N.
Proof.
  intros Hnr Hstep Hj.
  assert (Hsame : forall h : list Job, h = heap s ->
            exists j', h !! l = Some j' /\ attempts j' = (attempts j + 0)%N).
  { intros h ->. exists j. split; [done | lia]. }
  destruct ev; try discriminate Hnr; cbn in Hstep; cbn [attempt_of].
  - injection Hstep as <-. unfold enqueue. cbn [fst].
    match goal with |- context [heap (if processing ?x then _ else _)] =>
      destruct (trigger_frame x) as (Hh & _) end.
    rewrite Hh.
    match goal with |- context [heap (saveQueue io ?x)] =>
      destruct (saveQueue_frame io x) as (Hh' & _) end.
    rewrite Hh'. cbn. exists j. split; [|lia].
    rewrite lookup_app_l; [done|]. by eapply lookup_lt_Some.
  - injection Hstep as <-. apply Hsame. unfold interval_callback.
    destruct (_ && _); [|done]. apply processQueue_frame.
  - destruct (inflight s !! i) as [p|] eqn:Hi; cbn in Hstep; [|done].
    injection Hstep as <-. unfold processSingleEmail_resume. cbn [heap set_activeProcesses].
    destruct o as [|msg]; cbn [is_rejected andb].
    + apply Hsame.
      by destruct (saveQueue_cases io (set_inflight (delete i (inflight s)) s))
        as [-> | ->].
    + pose proof (catch_heap_timers (emailItem p) msg io_failed io
                    (set_inflight (delete i (inflight s)) s)) as Hc.
      cbv zeta in Hc. cbn [heap timers now set_inflight] in Hc.
      assert (Hh : heap (processSingleEmail_catch (emailItem p) msg io_failed io
                           (set_inflight (delete i (inflight s)) s))
                   = alter (set_status failed) (emailItem p)
                       (alter (record_failure msg (now s)) (emailItem p) (heap s))
                 \/ heap (processSingleEmail_catch (emailItem p) msg io_failed io
                           (set_inflight (delete i (inflight s)) s))
                   = alter (set_status retrying) (emailItem p)
                       (alter (record_failure msg (now s)) (emailItem p) (heap s))).
      { destruct (bool_decide _); [left | right]; apply Hc. }
      destruct (decide (emailItem p = l)) as [Heq | Hne].
      * rewrite bool_decide_true by done. rewrite Heq in Hh |- *.
        destruct Hh as [-> | ->]; rewrite !list_lookup_alter_eq, Hj; cbn;
          by eexists.
      * rewrite bool_decide_false by done.
        destruct Hh as [-> | ->]; rewrite !list_lookup_alter_ne by done;
          exists j; split; [done | lia | done | lia].
  - destruct (timers s !! i) as [t|] eqn:Hi; cbn in Hstep; [|done].
    destruct (bool_decide _); [|done].
    injection Hstep as <-. unfold retry_callback.
    match goal with |- context [heap (if processing ?x then _ else _)] =>
      destruct (trigger_frame x) as (Hh & _) end.
    rewrite Hh.
    match goal with |- context [heap (saveQueue io ?x)] =>
      destruct (saveQueue_frame io x) as (Hh' & _) end.
    rewrite Hh'. cbn.
    destruct (decide (timer_item t = l)) as [-> | Hne].
    + rewrite list_lookup_alter_eq, Hj. cbn. eexists. split; [done|]. cbn. lia.
    + rewrite list_lookup_alter_ne by done. exists j. split; [done | lia].
  - destruct (episodes s !! e) as [[ps|due]|] eqn:He; cbn in Hstep; [|done..].
    destruct (forallb _ _); [|done].
    injection Hstep as <-. apply Hsame. unfold processQueue_after_batch.
    destruct (bool_decide _); [done|].
    match goal with |- heap (processQueue_loop ?x) = _ =>
      apply (processQueue_loop_frame x) end.
  - destruct (episodes s !! e) as [[ps|due]|] eqn:He; cbn in Hstep; [done| |done].
    destruct (bool_decide _); [|done].
    injection Hstep as <-. apply Hsame.
    match goal with |- heap (processQueue_loop ?x) = _ =>
      apply (processQueue_loop_frame x) end.
  - injection Hstep as <-. apply Hsame. unfold clearQueue.
    by destruct (saveQueue_cases io (set_queue [] s)) as [-> | ->].
  - injection Hstep as <-. by apply Hsame.
Qed.

(** C3, as stated, fails for successful attempts: the e-mail is
    delivered at the first attempt, one attempt has completed, and the
    counter of the item still is 0. *)
Lemma success_is_not_counted :
  attempts_along any_outcome 0 first_success boot = 1%N /\
  (attempts <$> heap (after first_success) !! 0%nat) = Some 0%N.
Proof. by vm_compute. Qed.

(** C3, amended: the counter of a job increases by exactly 1 for every
    failed delivery attempt, is left unchanged by a successful one (after
    which the job is gone) and by everything else, and is never
    decremented while the process runs; a new job starts at 0; so after
    N failed attempts the counter equals N. *)
Theorem attempts_count_failures tr : forall s s' l j,
  forallb (fun ev => negb (is_restart ev)) tr = true ->
  run tr s = Some s' -> heap s !! l = Some j ->
  exists j', heap s' !! l = Some j' /\
    attempts j' = (attempts j + attempts_along is_rejected l tr s)%N /\
    (attempts j <= attempts j')%N /\
    (forall emailData rnd io,
       attempts <$> heap (fst (enqueue emailData rnd io s')) !! length (heap s')
       = Some 0%N).
Proof.
  induction tr as [|ev tr IH]; intros s s' l j Hnr Hrun Hj; cbn in Hrun, Hnr.
  - injection Hrun as <-. exists j. cbn [attempts_along].
    split; [done|]. split; [lia|]. split; [lia|].
    intros emailData rnd io.
    by rewrite enqueue_heap_new.
  - apply andb_prop in Hnr as [Hev Hnr]. apply negb_true_iff in Hev.
    destruct (step ev s) as [s1|] eqn:Hs; cbn in Hrun; [|done].
    destruct (attempts_step ev s s1 l j Hev Hs Hj) as (j1 & Hj1 & Ha1).
    destruct (IH s1 s' l j1 Hnr Hrun Hj1) as (j' & Hj' & Ha' & _ & Hnew).
    exists j'. cbn [attempts_along]. rewrite Hs.
    split; [done|]. split; [lia|]. split; [lia|]. exact Hnew.
Qed.

Lemma attempts_count_failures_witness :
  forallb (fun ev => negb (is_restart ev)) first_failure = true /\
  run first_failure (after [EvEnqueue mail "zero" true])
    = Some (after (EvEnqueue mail "zero" true :: first_failure)) /\
  attempts_along is_rejected 1 first_failure (after [EvEnqueue mail "zero" true])
    = 0%N /\
  exists j', heap (after (EvEnqueue mail "zero" true :: first_failure)) !! 0%nat
             = Some j' /\
    attempts j' = (0 + attempts_along is_rejected 0 first_failure
                         (after [EvEnqueue mail "zero" true]))%N /\
    (0 <= attempts j')%N /\
    (forall emailData rnd io,
       attempts <$> heap (fst (enqueue emailData rnd io
                  (after (EvEnqueue mail "zero" true :: first_failure))))
           !! length (heap (after (EvEnqueue mail "zero" true :: first_failure)))
       = Some 0%N).
Proof.
  split; [reflexivity|]. split; [vm_compute; reflexivity|].
  split; [vm_compute; reflexivity|].
  exact (attempts_count_failures first_failure
           (after [EvEnqueue mail "zero" true])
           (after (EvEnqueue mail "zero" true :: first_failure))
           0%nat (mkJob "1000-zero" mail 0 1000 pending None None)
           eq_refl ltac:(vm_compute; reflexivity) ltac:(vm_compute; reflexivity)).
Defined.

(** *** Which items the program holds *)

Lemma live_eq s s' :
  queue s' = queue s -> inflight s' = inflight s -> timers s' = timers s ->
  live s' = live s.
Proof. unfold live. by intros -> -> ->. Qed.

Lemma live_saveQueue io s : live (saveQueue io s) = live s.
Proof. by destruct (saveQueue_cases io s) as [-> | ->]. Qed.

Lemma live_processQueue_loop s : live (processQueue_loop s) ≡ₚ live s.
Proof.
  unfold processQueue_loop. destruct (_ && _); [|done].
  destruct (bool_decide (length _ = _)) eqn:Hz.
  - apply bool_decide_eq_true, nil_length_inv in Hz.
    set (n := Nat.min _ _) in *.
    pose proof (take_drop n (queue s)) as Htd. rewrite Hz in Htd.
    cbn [app] in Htd. unfold live. cbn [queue inflight timers processQueue_finally
                      set_processing set_queue]. by rewrite Htd.
  - destruct (map_processSingleEmail _ _) as [s2 ps] eqn:Hmap.
    set (n := Nat.min _ _) in *.
    apply map_processSingleEmail_spec in Hmap
      as (procs & Hin & Hit & _ & _ & _ & Hq & _ & _ & Ht & _).
    unfold live. cbn [queue inflight timers set_episodes].
    rewrite Hin, Hq, Ht, fmap_app, Hit.
    cbn [queue inflight timers set_queue].
    pose proof (take_drop n (queue s)) as Htd.
    rewrite <- Htd at 3.
    rewrite <- !app_assoc.
    rewrite (Permutation_app_comm (take n (queue s)) (timer_item <$> timers s)).
    etrans; [|apply Permutation_app_comm].
    by rewrite <- !app_assoc.
Qed.

Lemma live_trigger s :
  live (if processing s then s else processQueue s) ≡ₚ live s.
Proof.
  destruct (processing s) eqn:Hp; [done|].
  unfold processQueue. rewrite Hp. by rewrite live_processQueue_loop.
Qed.

Lemma enqueue_holds emailData rnd io s :
  queue (fst (enqueue emailData rnd io s))
    ++ (emailItem <$> inflight (fst (enqueue emailData rnd io s)))
  ≡ₚ queue s ++ (emailItem <$> inflight s) ++ [length (heap s)].
Proof.
  unfold enqueue. cbn [fst].
  set (s1 := set_queue _ _). set (s2 := saveQueue io s1).
  pose proof (live_trigger s2) as Hl.
  destruct (trigger_frame s2) as (_ & Ht & _). cbv zeta in Ht.
  destruct (saveQueue_frame io s1) as (_ & _ & _ & _ & _ & Ht' & _).
  fold s2 in Ht'.
  assert (Hs : live s2 = live s1) by apply live_saveQueue.
  rewrite Hs in Hl.
  unfold live in Hl. rewrite Ht, Ht' in Hl. rewrite !app_assoc in Hl.
  apply Permutation_app_inv_r in Hl. rewrite Hl.
  subst s1. cbn [queue inflight set_queue set_heap].
  rewrite <- !app_assoc. apply Permutation_app_head, Permutation_app_comm.
Qed.

(** C1, amended: [enqueue] never fails; it returns the id of the new
    job whether or not the Durable Store could persist it.  When the
    write succeeds the persisted active set ends with the new job; when
    it fails, [saveQueue] catches the error and the disk is left as it
    was, while the job is kept in memory (in the queue or already being
    sent): after the call the queue and the deliveries in flight hold
    what they held before and the new job, whatever the write did. *)
Theorem enqueue_always_returns_id emailData rnd s :
  let item := mkJob (generateId rnd s) emailData 0 (now s) pending None None in
  (forall io, snd (enqueue emailData rnd io s) = Ok (email_id item)) /\
  (exists items,
     queueFile (disk (fst (enqueue emailData rnd true s)))
     = Some (Json (items ++ [item]))) /\
  disk (fst (enqueue emailData rnd false s)) = disk s /\
  (forall io, heap (fst (enqueue emailData rnd io s)) !! length (heap s) = Some item) /\
  (forall io,
     (length (heap s) ∈ queue (fst (enqueue emailData rnd io s)) \/
      length (heap s) ∈ emailItem <$> inflight (fst (enqueue emailData rnd io s))) /\
     queue (fst (enqueue emailData rnd io s))
       ++ (emailItem <$> inflight (fst (enqueue emailData rnd io s)))
     ≡ₚ queue s ++ (emailItem <$> inflight s) ++ [length (heap s)]).
Proof.
  cbv zeta. split; [done|]. split; [|split; [|split]].
  - rewrite enqueue_disk. cbn. unfold JSON_stringify. cbn.
    rewrite omap_app. cbn.
    rewrite lookup_app_r by lia. rewrite Nat.sub_diag. cbn. by eexists.
  - by rewrite enqueue_disk.
  - intros io. apply enqueue_heap_new.
  - intros io. pose proof (enqueue_holds emailData rnd io s) as Hp.
    split; [|exact Hp].
    apply elem_of_app. rewrite Hp, !elem_of_app, list_elem_of_singleton. auto.
Qed.

Lemma catch_frame l msg io_failed io s :
  queue (processSingleEmail_catch l msg io_failed io s) = queue s /\
  inflight (processSingleEmail_catch l msg io_failed io s) = inflight s.
Proof.
  unfold processSingleEmail_catch.
  match goal with |- context [saveQueue io ?x] =>
    destruct (saveQueue_frame io x) as (_ & -> & _ & _ & -> & _) end.
  destruct (bool_decide _); cbn; [|done].
  destruct (alter _ _ _ !! l); cbn; [|done].
  unfold saveFailedEmail. by destruct io_failed.
Qed.

(** Apart from the item [enqueue] creates, a turn of the event loop
    only moves items between the queue, the deliveries and the timers,
    or drops them. *)
Lemma live_step ev s s' x :
  is_restart ev = false -> step ev s = Some s' -> x ∈ live s' ->
  x ∈ live s \/ x = length (heap s).
Proof.
  intros Hnr Hstep Hx.
  destruct ev; try discriminate Hnr; cbn in Hstep.
  - injection Hstep as <-. unfold enqueue in Hx. cbn [fst] in Hx.
    rewrite live_trigger, live_saveQueue in Hx. unfold live in Hx |- *.
    cbn in Hx. rewrite !elem_of_app, list_elem_of_singleton in Hx.
    rewrite !elem_of_app. tauto.
  - injection Hstep as <-. left. unfold interval_callback in Hx.
    destruct (_ && _); [|done].
    pose proof (live_trigger s) as Hl.
    unfold processQueue in Hx, Hl. destruct (processing s); [done|].
    by rewrite Hl in Hx.
  - destruct (inflight s !! i) as [p|] eqn:Hi; cbn in Hstep; [|done].
    injection Hstep as <-. left.
    rewrite (live_delete_inflight i p s Hi).
    unfold processSingleEmail_resume in Hx.
    destruct o as [|msg].
    + right. by rewrite <- (live_saveQueue io).
    + pose proof (catch_heap_timers (emailItem p) msg io_failed io
                    (set_inflight (delete i (inflight s)) s)) as Hc.
      destruct (catch_frame (emailItem p) msg io_failed io
                    (set_inflight (delete i (inflight s)) s)) as [Hq Hin].
      cbv zeta in Hc. unfold live in Hx |- *. cbn in Hx, Hq, Hin |- *.
      rewrite Hq, Hin in Hx.
      destruct (bool_decide _); destruct Hc as [_ Ht]; rewrite Ht in Hx.
      * by right.
      * rewrite fmap_app in Hx. cbn in Hx.
        rewrite !elem_of_app, list_elem_of_singleton in Hx.
        rewrite elem_of_cons, !elem_of_app. tauto.
  - destruct (timers s !! i) as [t|] eqn:Hi; cbn in Hstep; [|done].
    destruct (bool_decide _); [|done].
    injection Hstep as <-. left.
    rewrite (live_delete_timer i t s Hi).
    unfold retry_callback in Hx.
    rewrite live_trigger, live_saveQueue in Hx. unfold live in Hx |- *.
    cbn in Hx |- *. rewrite !elem_of_app, list_elem_of_singleton in Hx.
    rewrite elem_of_cons, !elem_of_app. tauto.
  - destruct (episodes s !! e) as [[ps|due]|] eqn:He; cbn in Hstep; [|done..].
    destruct (forallb _ _); [|done].
    injection Hstep as <-. left. unfold processQueue_after_batch in Hx.
    destruct (bool_decide _); [done|].
    by rewrite live_processQueue_loop in Hx.
  - destruct (episodes s !! e) as [[ps|due]|] eqn:He; cbn in Hstep; [done| |done].
    destruct (bool_decide _); [|done].
    injection Hstep as <-. left.
    by rewrite live_processQueue_loop in Hx.
  - injection Hstep as <-. left. unfold clearQueue in Hx.
    rewrite live_saveQueue in Hx. unfold live in Hx |- *. cbn in Hx.
    apply elem_of_app. by right.
  - injection Hstep as <-. by left.
Qed.

Lemma dropped_stays_dropped tr : forall s s' l,
  forallb (fun ev => negb (is_restart ev)) tr = true ->
  run tr s = Some s' ->
  (l < length (heap s))%nat -> l ∉ live s -> l ∉ live s'.
Proof.
  induction tr as [|ev tr IH]; intros s s' l Hnr Hrun Hlt Hl; cbn in Hrun, Hnr.
  - by injection Hrun as <-.
  - apply andb_prop in Hnr as [Hev Hnr]. apply negb_true_iff in Hev.
    destruct (step ev s) as [s1|] eqn:Hs; cbn in Hrun; [|done].
    destruct (lookup_lt_is_Some_2 _ _ Hlt) as [j Hj].
    destruct (attempts_step ev s s1 l j Hev Hs Hj) as (j1 & Hj1 & _).
    apply (IH s1 s' l Hnr Hrun); [by eapply lookup_lt_Some|].
    intros Hin. destruct (live_step ev s s1 l Hev Hs Hin); [done | lia].
Qed.

(** *** Clearing the queue *)

(** C9, as stated, fails for retry-scheduled jobs: the queue is cleared
    while the rejected e-mail waits for its retry; when the delay has
    passed its timer puts it back, it is persisted again and sent
    again. *)
Lemma clearQueue_misses_retry_timers :
  (status <$> heap (after first_failure) !! 0%nat) = Some retrying /\
  run clear_during_backoff boot = Some (after clear_during_backoff) /\
  emailItem <$> inflight (after clear_during_backoff) = [0%nat] /\
  queueFile (disk (after clear_during_backoff))
  = Some (Json [mkJob "1000-k3j9x0q2a" mail 1 1000 pending
                  (Some "ECONNREFUSED") (Some 1000)]).
Proof. by vm_compute. Qed.

(** C9, amended: [clearQueue] empties the in-memory queue, whose jobs
    are all pending, without delivering them, and persists the empty
    queue; while the process runs none of these jobs is attempted or
    re-admitted afterwards.  Jobs in flight and jobs waiting for a retry
    timer are not in the queue and stay as they are. *)
Theorem clearQueue_drops_waiting_jobs io s :
  reachable s ->
  queue (clearQueue io s) = [] /\
  queueFile (disk (clearQueue true s)) = Some (Json []) /\
  inflight (clearQueue io s) = inflight s /\
  timers (clearQueue io s) = timers s /\
  (forall tr s' l,
     forallb (fun ev => negb (is_restart ev)) tr = true ->
     run tr (clearQueue io s) = Some s' ->
     l ∈ queue s ->
     l ∉ queue s' ++ (emailItem <$> inflight s') ++ (timer_item <$> timers s')).
Proof.
  intros Hr. destruct (Inv_reachable s Hr) as [Hm _].
  unfold clearQueue.
  destruct (saveQueue_frame io (set_queue [] s)) as (Hh & Hq & _ & _ & Hin & Ht & _).
  split; [exact Hq|]. split; [reflexivity|].
  split; [exact Hin|]. split; [exact Ht|].
  intros tr s' l Hnr Hrun Hl.
  apply (dropped_stays_dropped tr _ s' l Hnr Hrun).
  - rewrite Hh. apply (inv_alloc _ Hm). unfold live. apply elem_of_app. by left.
  - rewrite live_saveQueue. unfold live. cbn.
    pose proof (inv_nodup _ Hm) as Hnd. unfold live in Hnd.
    apply NoDup_app in Hnd as (_ & Hdisj & _). by apply Hdisj.
Qed.

Lemma clearQueue_drops_waiting_jobs_witness :
  reachable (after five_queued) /\
  queue (after five_queued) = [4%nat] /\
  (queue (clearQueue true (after five_queued)) = [] /\
   queueFile (disk (clearQueue true (after five_queued))) = Some (Json []) /\
   inflight (clearQueue true (after five_queued)) = inflight (after five_queued) /\
   timers (clearQueue true (after five_queued)) = timers (after five_queued) /\
   (forall tr s' l,
      forallb (fun ev => negb (is_restart ev)) tr = true ->
      run tr (clearQueue true (after five_queued)) = Some s' ->
      l ∈ queue (after five_queued) ->
      l ∉ queue s' ++ (emailItem <$> inflight s') ++ (timer_item <$> timers s'))).
Proof.
  assert (Hr : reachable (after five_queued))
    by (eapply reachable_after; vm_compute; reflexivity).
  split; [exact Hr|]. split; [vm_compute; reflexivity|].
  exact (clearQueue_drops_waiting_jobs true (after five_queued) Hr).
Defined.

(** *** Durability *)

(** C2 on the code: an e-mail is queued (and persisted) and its first
    delivery is rejected.  The job now waits for its retry, 1 attempt
    out of 3 made, but the queue file written by that very failure is
    empty, and a restart at this point comes up with nothing.  Likewise
    for a job in flight: once a second e-mail is queued the file holds
    the second only, and after a restart the first is gone. *)
Theorem restart_loses_dispatched_jobs :
  heap (after first_failure) !! 0%nat
  = Some (mkJob "1000-k3j9x0q2a" mail 1 1000 retrying
            (Some "ECONNREFUSED") (Some 1000)) /\
  timer_item <$> timers (after first_failure) = [0%nat] /\
  queueFile (disk (after first_failure)) = Some (Json []) /\
  in_memory (after (first_failure ++ [EvRestart true]))
  = ([], [], false, ∅, [], [], []) /\
  emailItem <$> inflight (after two_queued) = [0%nat] /\
  email_id <$> heap (after two_queued) = ["1000-a"; "1000-b"] /\
  email_id <$> heap (after (two_queued ++ [EvRestart true])) = ["1000-b"].
Proof. by vm_compute. Qed.

(** C5 on the code: after the rejected first delivery the job has
    status ['retrying'] and a timer due 5000 ms later holds it; the
    timer cannot fire before that; but [saveQueue], although its write
    succeeded, has persisted a queue that does not contain the job.
    Only when the timer has fired is the job, pending again, back in the
    file. *)
Theorem retrying_job_not_persisted :
  heap (after first_failure) !! 0%nat
  = Some (mkJob "1000-k3j9x0q2a" mail 1 1000 retrying
            (Some "ECONNREFUSED") (Some 1000)) /\
  timers (after first_failure) = [mkTimer 6000 0] /\
  queueFile (disk (after first_failure)) = Some (Json []) /\
  step (EvRetryTimer 0 true) (after first_failure) = None /\
  step (EvRetryTimer 0 true) (after (first_failure ++ [EvElapse 4999])) = None /\
  queueFile (disk (after (first_failure ++ [EvElapse 5000; EvRetryTimer 0 true])))
  = Some (Json [mkJob "1000-k3j9x0q2a" mail 1 1000 pending
                  (Some "ECONNREFUSED") (Some 1000)]).
Proof. by vm_compute. Qed.

(** ** Further properties of the queue *)

(** *** Batches *)

Lemma resume_inflight p o io_failed io s :
  inflight (processSingleEmail_resume p o io_failed io s) = inflight s /\
  queue (processSingleEmail_resume p o io_failed io s) = queue s /\
  processing (processSingleEmail_resume p o io_failed io s) = processing s.
Proof.
  unfold processSingleEmail_resume. cbn. destruct o as [|msg].
  - by destruct (saveQueue_cases io s) as [-> | ->].
  - destruct (catch_frame (emailItem p) msg io_failed io s) as [-> ->].
    split; [done|]. split; [done|].
    unfold processSingleEmail_catch.
    match goal with |- context [saveQueue io ?x] =>
      destruct (saveQueue_frame io x) as (_ & _ & -> & _) end.
    destruct (bool_decide _); cbn; [|done].
    destruct (alter _ _ _ !! emailItem p); cbn; [|done].
    unfold saveFailedEmail. by destruct io_failed.
Qed.

Lemma busy_trigger_frame io s :
  processing s = true ->
  let s' := if processing (saveQueue io s) then saveQueue io s
            else processQueue (saveQueue io s) in
  inflight s' = inflight s /\ queue s' = queue s /\ processing s' = true.
Proof.
  intros Hp. cbn.
  destruct (saveQueue_frame io s) as (_ & Hq & Hpg & _ & Hin & _).
  rewrite Hpg, Hp. by rewrite Hq, Hin, Hpg.
Qed.

(** X1.  While a delivery of the current batch is unsettled no other
    item is dispatched, whatever happens: the deliveries in flight can
    only become fewer. *)
Theorem batches_do_not_overlap ev s s' :
  reachable s -> inflight s <> [] -> step ev s = Some s' ->
  inflight s' `sublist_of` inflight s.
Proof.
  intros Hr Hne Hstep. destruct (Inv_reachable s Hr) as [Hm _].
  assert (Hp : processing s = true).
  { destruct (processing s) eqn:Hp; [done|].
    by destruct (inv_idle _ Hm Hp) as [_ ?]. }
  destruct (inv_busy _ Hm Hp) as (e0 & Hep & Hok).
  destruct ev; cbn in Hstep.
  - injection Hstep as <-. unfold enqueue. cbn [fst].
    match goal with |- context [saveQueue io ?x] =>
      destruct (busy_trigger_frame io x Hp) as (-> & _) end. done.
  - injection Hstep as <-. unfold interval_callback. by rewrite Hp.
  - destruct (inflight s !! i) as [p|] eqn:Hi; cbn in Hstep; [|done].
    injection Hstep as <-.
    destruct (resume_inflight p o io_failed io
                (set_inflight (delete i (inflight s)) s)) as (-> & _).
    apply sublist_delete.
  - destruct (timers s !! i) as [t|] eqn:Hi; cbn in Hstep; [|done].
    destruct (bool_decide _); [|done].
    injection Hstep as <-. unfold retry_callback.
    match goal with |- context [saveQueue io ?x] =>
      destruct (busy_trigger_frame io x Hp) as (-> & _) end. done.
  - rewrite Hep in Hstep. destruct e as [|e]; cbn in Hstep; [|done].
    destruct e0 as [ps|due]; [|done].
    destruct (forallb _ _) eqn:Hall; [|done].
    by pose proof (batch_settled_idle _ _ Hok Hall).
  - rewrite Hep in Hstep. destruct e as [|e]; cbn in Hstep; [|done].
    destruct e0 as [ps|due]; [done|]. by cbn in Hok.
  - injection Hstep as <-. unfold clearQueue.
    by destruct (saveQueue_frame io (set_queue [] s)) as (_ & _ & _ & _ & -> & _).
  - by injection Hstep as <-.
  - injection Hstep as <-. apply sublist_nil_l.
Qed.

Lemma batches_do_not_overlap_witness :
  reachable (after five_queued) /\
  length (inflight (after five_queued)) = 3%nat /\
  step (EvEnqueue mail "f" true) (after five_queued)
    = Some (after (five_queued ++ [EvEnqueue mail "f" true])) /\
  inflight (after (five_queued ++ [EvEnqueue mail "f" true]))
    `sublist_of` inflight (after five_queued).
Proof.
  assert (Hr : reachable (after five_queued))
    by (eapply reachable_after; vm_compute; reflexivity).
  assert (Hs : step (EvEnqueue mail "f" true) (after five_queued)
               = Some (after (five_queued ++ [EvEnqueue mail "f" true])))
    by (vm_compute; reflexivity).
  split; [exact Hr|]. split; [vm_compute; reflexivity|]. split; [exact Hs|].
  exact (batches_do_not_overlap _ _ _ Hr ltac:(vm_compute; discriminate) Hs).
Defined.

Lemma take_min_length {A} n (l : list A) :
  take (Nat.min n (length l)) l = take n l /\
  drop (Nat.min n (length l)) l = drop n l.
Proof.
  destruct (Nat.min_spec n (length l)) as [[_ ->] | [Hle ->]]; [done|].
  by rewrite take_ge, drop_ge, take_ge, drop_ge by lia.
Qed.

Lemma processQueue_loop_dispatch s :
  activeProcesses s = ∅ -> inflight s = [] ->
  emailItem <$> inflight (processQueue_loop s) = take maxConcurrentEmails (queue s) /\
  queue (processQueue_loop s) = drop maxConcurrentEmails (queue s) /\
  processing (processQueue_loop s)
  = (if decide (queue s = []) then false else processing s).
Proof.
  intros Hact Hin. unfold processQueue_loop. rewrite Hact, size_empty.
  destruct (queue s) as [|l q] eqn:Hq.
  { rewrite bool_decide_false by (cbn; lia). cbn. by rewrite Hin. }
  rewrite bool_decide_true by (cbn; lia).
  rewrite bool_decide_true by (unfold maxConcurrentEmails; lia).
  cbn [andb]. rewrite Nat.sub_0_r.
  destruct (take_min_length maxConcurrentEmails (l :: q)) as [-> ->].
  rewrite bool_decide_false by (unfold maxConcurrentEmails; cbn; lia).
  destruct (map_processSingleEmail _ _) as [s2 ps] eqn:Hmap.
  apply map_processSingleEmail_spec in Hmap
    as (procs & Hin2 & Hit & _ & _ & _ & Hq2 & Hpg & _).
  cbn in Hin2, Hq2, Hpg |- *. rewrite Hin in Hin2. cbn in Hin2.
  rewrite Hin2, Hit, Hq2, Hpg. done.
Qed.

(** The loop entered by a trigger on an idle queue, on the state [x]
    the trigger has prepared (same deliveries, same process set). *)
Lemma idle_trigger_dispatch s x :
  MemInv s -> processing s = false ->
  inflight x = inflight s -> activeProcesses x = activeProcesses s ->
  processing x = false ->
  emailItem <$> inflight (processQueue x) = take maxConcurrentEmails (queue x) /\
  queue (processQueue x) = drop maxConcurrentEmails (queue x) /\
  processing (processQueue x) = (if decide (queue x = []) then false else true).
Proof.
  intros Hm Hp Hin Hact Hpx.
  destruct (inv_idle _ Hm Hp) as [_ Hnil].
  pose proof (idle_no_active _ Hm Hnil) as Hempty.
  unfold processQueue. rewrite Hpx.
  apply (processQueue_loop_dispatch (set_processing true x)); cbn; congruence.
Qed.

Lemma saved_trigger_dispatch io s y :
  MemInv s -> processing s = false ->
  inflight y = inflight s -> activeProcesses y = activeProcesses s ->
  processing y = false ->
  let s' := if processing (saveQueue io y) then saveQueue io y
            else processQueue (saveQueue io y) in
  emailItem <$> inflight s' = take maxConcurrentEmails (queue y) /\
  queue s' = drop maxConcurrentEmails (queue y) /\
  processing s' = (if decide (queue y = []) then false else true).
Proof.
  intros Hm Hp Hin Hact Hpy. cbv zeta.
  destruct (saveQueue_frame io y) as (_ & Hq & Hpg & _ & Hin' & _).
  pose proof (saveQueue_active io y) as Hact'.
  rewrite Hpg, Hpy.
  destruct (idle_trigger_dispatch s (saveQueue io y) Hm Hp) as (H1 & H2 & H3);
    [congruence..|].
  by rewrite H1, H2, H3, Hq.
Qed.

Lemma paused_loop_dispatch e due s :
  MemInv s -> episodes s !! e = Some (AwaitPause due) ->
  let x := set_episodes (delete e (episodes s)) s in
  emailItem <$> inflight (processQueue_loop x) = take maxConcurrentEmails (queue s) /\
  queue (processQueue_loop x) = drop maxConcurrentEmails (queue s) /\
  processing (processQueue_loop x) = (if decide (queue s = []) then false else true).
Proof.
  intros Hm He. cbn.
  destruct (episode_unique _ _ _ Hm He) as (Hp & _ & _ & Hok). cbn in Hok.
  pose proof (idle_no_active _ Hm Hok) as Hact.
  destruct (processQueue_loop_dispatch (set_episodes (delete e (episodes s)) s)
              Hact Hok) as (H1 & H2 & H3).
  cbn in H1, H2, H3. by rewrite H1, H2, H3, Hp.
Qed.

(** X2.  Whenever a callback starts a batch, the batch is the up to
    [maxConcurrentEmails] oldest items of the queue in queue order, the
    item the callback itself pushed ([enqueue], a retry) being the
    youngest; the rest keeps its order. *)
Theorem batch_is_queue_prefix ev s s' :
  reachable s -> enters_loop ev s = true -> step ev s = Some s' ->
  emailItem <$> inflight s' = take maxConcurrentEmails (queue_with_arrival ev s) /\
  queue s' = drop maxConcurrentEmails (queue_with_arrival ev s).
Proof.
  intros Hr Hen Hstep. destruct (Inv_reachable s Hr) as [Hm _].
  destruct ev; try discriminate Hen; cbn in Hen, Hstep;
    try apply negb_true_iff in Hen.
  - injection Hstep as <-. unfold enqueue. cbn [fst queue_with_arrival].
    match goal with |- context [saveQueue io ?y] =>
      destruct (saved_trigger_dispatch io s y Hm Hen eq_refl eq_refl Hen)
        as (H1 & H2 & _) end.
    by rewrite H1, H2.
  - injection Hstep as <-. unfold interval_callback. rewrite Hen.
    cbn [negb andb queue_with_arrival].
    destruct (inv_idle _ Hm Hen) as [_ Hnil].
    destruct (queue s) as [|l q] eqn:Hq.
    + rewrite bool_decide_false by (cbn; lia). by rewrite Hnil, Hq.
    + rewrite bool_decide_true by (cbn; lia).
      destruct (idle_trigger_dispatch s s Hm Hen eq_refl eq_refl Hen)
        as (H1 & H2 & _).
      by rewrite H1, H2, Hq.
  - destruct (timers s !! i) as [t|] eqn:Hi; cbn in Hstep; [|done].
    destruct (bool_decide _); [|done].
    injection Hstep as <-. unfold retry_callback. cbn [queue_with_arrival].
    rewrite Hi.
    match goal with |- context [saveQueue io ?y] =>
      destruct (saved_trigger_dispatch io s y Hm Hen eq_refl eq_refl Hen)
        as (H1 & H2 & _) end.
    by rewrite H1, H2.
  - destruct (episodes s !! e) as [[ps|due]|] eqn:He; cbn in Hstep; [done| |done].
    destruct (bool_decide _); [|done].
    injection Hstep as <-. cbn [queue_with_arrival].
    by destruct (paused_loop_dispatch e due s Hm He) as (-> & -> & _).
Qed.

Lemma batch_is_queue_prefix_witness :
  reachable (after (five_queued ++ [EvSendDone 0 Sent true true;
     EvSendDone 0 Sent true true; EvSendDone 0 Sent true true;
     EvEnqueue mail "f" true; EvBatchSettled 0; EvElapse 2000])) /\
  queue (after (five_queued ++ [EvSendDone 0 Sent true true;
     EvSendDone 0 Sent true true; EvSendDone 0 Sent true true;
     EvEnqueue mail "f" true; EvBatchSettled 0; EvElapse 2000])) = [4; 5]%nat /\
  emailItem <$> inflight (after (five_queued ++ [EvSendDone 0 Sent true true;
     EvSendDone 0 Sent true true; EvSendDone 0 Sent true true;
     EvEnqueue mail "f" true; EvBatchSettled 0; EvElapse 2000; EvPauseDone 0]))
  = take maxConcurrentEmails [4; 5]%nat /\
  queue (after (five_queued ++ [EvSendDone 0 Sent true true;
     EvSendDone 0 Sent true true; EvSendDone 0 Sent true true;
     EvEnqueue mail "f" true; EvBatchSettled 0; EvElapse 2000; EvPauseDone 0]))
  = drop maxConcurrentEmails [4; 5]%nat.
Proof.
  split; [eapply reachable_after; vm_compute; reflexivity|].
  split; [vm_compute; reflexivity|].
  refine (batch_is_queue_prefix (EvPauseDone 0)
            (after (five_queued ++ [EvSendDone 0 Sent true true;
               EvSendDone 0 Sent true true; EvSendDone 0 Sent true true;
               EvEnqueue mail "f" true; EvBatchSettled 0; EvElapse 2000]))
            _ _ eq_refl _).
  - eapply reachable_after; vm_compute; reflexivity.
  - vm_compute; reflexivity.
Defined.

(** X3.  Once a callback of the class has run, an idle scheduler means
    a drained queue: if [processing] is down, the queue is empty, no
    delivery is in flight and [getStatus] reports no active process.
    (Only the jobs loaded at start-up wait with the flag down, until
    the first tick or [enqueue].) *)
Theorem idle_means_drained ev s s' :
  reachable s -> is_callback ev = true -> step ev s = Some s' ->
  processing s' = false ->
  queue s' = [] /\ inflight s' = [] /\
  st_activeProcesses (getStatus s') = 0%nat.
Proof.
  intros Hr Hcb Hstep Hidle.
  pose proof (reach_step _ _ _ Hr Hstep) as Hr'.
  destruct (Inv_reachable s Hr) as [Hm _].
  destruct (Inv_reachable s' Hr') as [Hm' _].
  destruct (inv_idle _ Hm' Hidle) as [_ Hnil].
  pose proof (idle_no_active _ Hm' Hnil) as Hact.
  split; [|split; [exact Hnil | cbn; by rewrite Hact, size_empty]].
  destruct ev; try discriminate Hcb; cbn in Hstep.
  - exfalso. injection Hstep as <-. revert Hidle. unfold enqueue. cbn [fst].
    destruct (processing s) eqn:Hp.
    + match goal with |- context [saveQueue io ?y] =>
        destruct (busy_trigger_frame io y Hp) as (_ & _ & ->) end. done.
    + match goal with |- context [saveQueue io ?y] =>
        destruct (saved_trigger_dispatch io s y Hm Hp eq_refl eq_refl Hp)
          as (_ & _ & ->) end.
      cbn. by destruct (queue s).
  - injection Hstep as <-. revert Hidle. unfold interval_callback.
    destruct (processing s) eqn:Hp; cbn [negb andb]; [by rewrite Hp|].
    destruct (queue s) as [|l q] eqn:Hq.
    + rewrite bool_decide_false by (cbn; lia). by rewrite Hq.
    + rewrite bool_decide_true by (cbn; lia).
      destruct (idle_trigger_dispatch s s Hm Hp eq_refl eq_refl Hp)
        as (_ & _ & ->).
      by rewrite Hq.
  - exfalso. destruct (inflight s !! i) as [p|] eqn:Hi; cbn in Hstep; [|done].
    injection Hstep as <-.
    destruct (resume_inflight p o io_failed io
                (set_inflight (delete i (inflight s)) s)) as (_ & _ & Hpg).
    rewrite Hpg in Hidle. cbn in Hidle.
    destruct (inv_idle _ Hm Hidle) as [_ Hn]. by rewrite Hn in Hi.
  - exfalso. destruct (timers s !! i) as [t|] eqn:Hi; cbn in Hstep; [|done].
    destruct (bool_decide _); [|done].
    injection Hstep as <-. revert Hidle. unfold retry_callback.
    destruct (processing s) eqn:Hp.
    + match goal with |- context [saveQueue io ?y] =>
        destruct (busy_trigger_frame io y Hp) as (_ & _ & ->) end. done.
    + match goal with |- context [saveQueue io ?y] =>
        destruct (saved_trigger_dispatch io s y Hm Hp eq_refl eq_refl Hp)
          as (_ & _ & ->) end.
      cbn. by destruct (queue s).
  - destruct (episodes s !! e) as [[ps|due]|] eqn:He; cbn in Hstep; [|done..].
    destruct (forallb _ _) eqn:Hall; [|done].
    injection Hstep as <-.
    destruct (episode_unique _ _ _ Hm He) as (Hp & _ & _ & Hok).
    pose proof (batch_settled_idle _ _ Hok Hall) as Hin.
    pose proof (idle_no_active _ Hm Hin) as Ha.
    revert Hidle. unfold processQueue_after_batch. cbn [queue set_episodes].
    destruct (queue s) as [|l q] eqn:Hq.
    + rewrite bool_decide_false by (cbn; lia). intros _.
      destruct (processQueue_loop_dispatch
                  (set_episodes (delete e (episodes s)) s) Ha Hin) as (_ & -> & _).
      cbn. by rewrite Hq.
    + rewrite bool_decide_true by (cbn; lia). cbn. by rewrite Hp.
  - destruct (episodes s !! e) as [[ps|due]|] eqn:He; cbn in Hstep; [done| |done].
    destruct (bool_decide _); [|done].
    injection Hstep as <-.
    destruct (paused_loop_dispatch e due s Hm He) as (_ & Hq & Hpg).
    rewrite Hq. rewrite Hpg in Hidle.
    destruct (decide (queue s = [])) as [-> | _]; done.
  - injection Hstep as <-. unfold clearQueue.
    by destruct (saveQueue_frame io (set_queue [] s)) as (_ & -> & _).
Qed.

Lemma idle_means_drained_witness :
  reachable (after [EvEnqueue mail "a" true; EvSendDone 0 Sent true true]) /\
  step (EvBatchSettled 0)
       (after [EvEnqueue mail "a" true; EvSendDone 0 Sent true true])
  = Some (after first_success_a) /\
  processing (after first_success_a) = false /\
  (queue (after first_success_a) = [] /\ inflight (after first_success_a) = [] /\
   st_activeProcesses (getStatus (after first_success_a)) = 0%nat).
Proof.
  assert (Hr : reachable (after [EvEnqueue mail "a" true; EvSendDone 0 Sent true true]))
    by (eapply reachable_after; vm_compute; reflexivity).
  assert (Hs : step (EvBatchSettled 0)
                 (after [EvEnqueue mail "a" true; EvSendDone 0 Sent true true])
               = Some (after first_success_a)) by (vm_compute; reflexivity).
  assert (Hi : processing (after first_success_a) = false)
    by (vm_compute; reflexivity).
  split; [exact Hr|]. split; [exact Hs|]. split; [exact Hi|].
  exact (idle_means_drained (EvBatchSettled 0) _ _ Hr eq_refl Hs Hi).
Defined.

(** *** Backoff *)

Lemma retry_delay_small n :
  (1 <= n < retryAttempts)%N ->
  retry_delay n = 5000 * 2 ^ (Z.of_N n - 1) /\ 5000 <= retry_delay n.
Proof.
  unfold retryAttempts. intros Hn.
  assert (n = 1 \/ n = 2)%N as [-> | ->] by lia; by vm_compute.
Qed.

Lemma timers_backoff_frame s s' :
  heap s' = heap s -> timers s' = timers s ->
  timers_backoff s -> timers_backoff s'.
Proof. unfold timers_backoff. intros -> ->. done. Qed.

Lemma timers_backoff_catch l j msg io_failed io s :
  timers_backoff s -> heap s !! l = Some j -> l ∉ timer_item <$> timers s ->
  timers_backoff (processSingleEmail_catch l msg io_failed io s).
Proof.
  intros Hb Hj Hl t Ht.
  pose proof (catch_heap_timers l msg io_failed io s) as Hc. cbv zeta in Hc.
  rewrite list_lookup_alter_eq, Hj in Hc. cbn [fmap option_fmap option_map attempts record_failure] in Hc.
  assert (Hold : forall t0, t0 ∈ timers s -> forall f,
            alter f l (alter (record_failure msg (now s)) l (heap s)) !! timer_item t0
            = heap s !! timer_item t0).
  { intros t0 Ht0 f. rewrite !list_lookup_alter_ne; [done|..];
      intros ->; apply Hl; by apply list_elem_of_fmap_2. }
  destruct (bool_decide _) eqn:Hdec; destruct Hc as [Hh Hts];
    rewrite Hh; rewrite Hts in Ht.
  - rewrite (Hold t Ht). by apply Hb.
  - apply elem_of_app in Ht as [Ht | Ht].
    + rewrite (Hold t Ht). by apply Hb.
    + apply list_elem_of_singleton in Ht as ->. cbn [timer_item timer_due].
      apply bool_decide_eq_false in Hdec.
      exists (set_status retrying (record_failure msg (now s) j)), (now s).
      rewrite !list_lookup_alter_eq, Hj. cbn.
      split; [done|]. split; [done|]. split; [lia|]. done.
Qed.

Lemma timers_backoff_step ev s s' :
  Inv s -> timers_backoff s -> step ev s = Some s' -> timers_backoff s'.
Proof.
  intros [Hm _] Hb Hstep. destruct ev; cbn in Hstep.
  - injection Hstep as <-. unfold enqueue. cbn [fst].
    match goal with |- timers_backoff (if processing ?x then _ else _) =>
      destruct (trigger_frame x) as (Hh & Ht & _) end.
    match type of Hh with context [saveQueue io ?y] =>
      destruct (saveQueue_frame io y) as (Hh' & _ & _ & _ & _ & Ht' & _) end.
    intros t Hin. rewrite Ht, Ht' in Hin. rewrite Hh, Hh'. cbn in Hin |- *.
    destruct (Hb t Hin) as (j & ta & Hj & Hrest).
    exists j, ta. split; [|done].
    rewrite lookup_app_l; [done|]. by eapply lookup_lt_Some.
  - injection Hstep as <-. unfold interval_callback.
    destruct (_ && _); [|done].
    destruct (processQueue_frame s) as (Hh & Ht & _).
    by eapply timers_backoff_frame.
  - destruct (inflight s !! i) as [p|] eqn:Hi; cbn in Hstep; [|done].
    injection Hstep as <-. unfold processSingleEmail_resume.
    destruct o as [|msg].
    + eapply timers_backoff_frame; [| |exact Hb]; cbn;
        by destruct (saveQueue_cases io (set_inflight (delete i (inflight s)) s))
          as [-> | ->].
    + apply (timers_backoff_frame (processSingleEmail_catch (emailItem p) msg
                 io_failed io (set_inflight (delete i (inflight s)) s))); [done..|].
      pose proof (live_delete_inflight i p s Hi) as Hperm.
      pose proof (inv_nodup _ Hm) as Hnd. rewrite Hperm in Hnd.
      apply NoDup_cons in Hnd as [Hfresh _].
      assert (Hlt : (emailItem p < length (heap s))%nat).
      { apply (inv_alloc _ Hm). rewrite Hperm. by left. }
      destruct (lookup_lt_is_Some_2 _ _ Hlt) as [j Hj].
      apply (timers_backoff_catch _ j); [done | done |].
      intros Hin. apply Hfresh. unfold live. cbn.
      rewrite !elem_of_app. by right; right.
  - destruct (timers s !! i) as [t|] eqn:Hi; cbn in Hstep; [|done].
    destruct (bool_decide _); [|done].
    injection Hstep as <-. unfold retry_callback.
    match goal with |- timers_backoff (if processing ?x then _ else _) =>
      destruct (trigger_frame x) as (Hh & Ht & _) end.
    match type of Hh with context [saveQueue io ?y] =>
      destruct (saveQueue_frame io y) as (Hh' & _ & _ & _ & _ & Ht' & _) end.
    intros t' Hin. rewrite Ht, Ht' in Hin. rewrite Hh, Hh'. cbn in Hin |- *.
    pose proof (live_delete_timer i t s Hi) as Hperm.
    pose proof (inv_nodup _ Hm) as Hnd. rewrite Hperm in Hnd.
    apply NoDup_cons in Hnd as [Hfresh _].
    rewrite list_lookup_alter_ne.
    + apply Hb. by eapply list_elem_of_delete_inv.
    + intros Heq. apply Hfresh. unfold live. cbn.
      rewrite !elem_of_app. right; right. rewrite Heq.
      by apply list_elem_of_fmap_2.
  - destruct (episodes s !! e) as [[ps|due]|] eqn:He; cbn in Hstep; [|done..].
    destruct (forallb _ _); [|done].
    injection Hstep as <-. unfold processQueue_after_batch.
    destruct (bool_decide _); [done|].
    match goal with |- timers_backoff (processQueue_loop ?x) =>
      destruct (processQueue_loop_frame x) as (Hh & Ht & _) end.
    by eapply timers_backoff_frame.
  - destruct (episodes s !! e) as [[ps|due]|] eqn:He; cbn in Hstep; [done| |done].
    destruct (bool_decide _); [|done].
    injection Hstep as <-.
    match goal with |- timers_backoff (processQueue_loop ?x) =>
      destruct (processQueue_loop_frame x) as (Hh & Ht & _) end.
    by eapply timers_backoff_frame.
  - injection Hstep as <-. unfold clearQueue.
    eapply timers_backoff_frame; [| |exact Hb];
      by destruct (saveQueue_cases io (set_queue [] s)) as [-> | ->].
  - by injection Hstep as <-.
  - injection Hstep as <-. intros t Ht. by apply elem_of_nil in Ht.
Qed.

Lemma timers_backoff_reachable s : reachable s -> timers_backoff s.
Proof.
  induction 1 as [io d t Hd | ev s s' Hreach IH Hstep].
  - intros t' Ht. by apply elem_of_nil in Ht.
  - eapply timers_backoff_step; [by apply Inv_reachable | exact IH | exact Hstep].
Qed.

(** X4.  A job comes back from a retry only when its backoff has
    passed: when a retry timer fires, its job has failed once or twice,
    is marked ['retrying'], and at least [5000 * 2^(attempts-1)] ms (5 s,
    then 10 s) have gone by since the failed attempt; the callback marks
    the very same job ['pending'] again, all other fields kept. *)
Theorem retry_waits_for_backoff i io s s' t :
  reachable s -> timers s !! i = Some t -> step (EvRetryTimer i io) s = Some s' ->
  exists j ta,
    heap s !! timer_item t = Some j /\ status j = retrying /\
    (attempts j = 1 \/ attempts j = 2)%N /\
    lastAttempt j = Some ta /\
    ta + 5000 * 2 ^ (Z.of_N (attempts j) - 1) <= now s /\
    heap s' !! timer_item t = Some (set_status pending j).
Proof.
  intros Hr Hi Hstep.
  destruct (timers_backoff_reachable s Hr t) as (j & ta & Hj & Hst & Hn & Hla & Hdue).
  { by eapply list_elem_of_lookup_2. }
  exists j, ta. cbn in Hstep. rewrite Hi in Hstep. cbn in Hstep.
  destruct (bool_decide _) eqn:Hnow; [|done].
  apply bool_decide_eq_true in Hnow. injection Hstep as <-.
  destruct (retry_delay_small _ Hn) as [Hd _].
  split; [done|]. split; [done|]. split; [unfold retryAttempts in Hn; lia|].
  split; [done|]. split; [lia|].
  unfold retry_callback.
  match goal with |- heap (if processing ?x then _ else _) !! _ = _ =>
    destruct (trigger_frame x) as (Hh & _) end.
  match type of Hh with context [saveQueue io ?y] =>
    destruct (saveQueue_frame io y) as (Hh' & _) end.
  rewrite Hh, Hh'. cbn. by rewrite list_lookup_alter_eq, Hj.
Qed.

Lemma retry_waits_for_backoff_witness :
  reachable (after (first_failure ++ [EvElapse 5000])) /\
  timers (after (first_failure ++ [EvElapse 5000])) !! 0%nat = Some (mkTimer 6000 0) /\
  step (EvRetryTimer 0 true) (after (first_failure ++ [EvElapse 5000]))
  = Some (after (first_failure ++ [EvElapse 5000; EvRetryTimer 0 true])) /\
  exists j ta,
    heap (after (first_failure ++ [EvElapse 5000])) !! 0%nat = Some j /\
    status j = retrying /\
    (attempts j = 1 \/ attempts j = 2)%N /\
    lastAttempt j = Some ta /\
    ta + 5000 * 2 ^ (Z.of_N (attempts j) - 1)
      <= now (after (first_failure ++ [EvElapse 5000])) /\
    heap (after (first_failure ++ [EvElapse 5000; EvRetryTimer 0 true])) !! 0%nat
    = Some (set_status pending j).
Proof.
  assert (Hr : reachable (after (first_failure ++ [EvElapse 5000])))
    by (eapply reachable_after; vm_compute; reflexivity).
  assert (Hi : timers (after (first_failure ++ [EvElapse 5000])) !! 0%nat
               = Some (mkTimer 6000 0)) by (vm_compute; reflexivity).
  assert (Hs : step (EvRetryTimer 0 true) (after (first_failure ++ [EvElapse 5000]))
               = Some (after (first_failure ++ [EvElapse 5000; EvRetryTimer 0 true])))
    by (vm_compute; reflexivity).
  split; [exact Hr|]. split; [exact Hi|]. split; [exact Hs|].
  exact (retry_waits_for_backoff 0 true _ _ _ Hr Hi Hs).
Defined.

(** *** Terminal jobs *)

Lemma saveQueue_failedDir io s :
  failedDir (disk (saveQueue io s)) = failedDir (disk s).
Proof. by destruct (saveQueue_cases io s) as [-> | ->]. Qed.

Lemma resume_heap_length p o io_failed io s :
  length (heap (processSingleEmail_resume p o io_failed io s)) = length (heap s).
Proof.
  unfold processSingleEmail_resume. cbn. destruct o as [|msg].
  - by destruct (saveQueue_cases io s) as [-> | ->].
  - pose proof (catch_heap_timers (emailItem p) msg io_failed io s) as Hc.
    cbv zeta in Hc.
    destruct (bool_decide _); destruct Hc as [-> _]; by rewrite !length_alter.
Qed.

(** X5.  Delivery is final: when [sendEmail] succeeds no job is
    modified, and the delivered job is from then on neither queued, nor
    in flight, nor on a retry timer, whatever happens while the process
    runs. *)
Theorem delivered_is_final i p io_failed io s s' :
  reachable s -> inflight s !! i = Some p ->
  step (EvSendDone i Sent io_failed io) s = Some s' ->
  heap s' = heap s /\
  failedDir (disk s') = failedDir (disk s) /\
  forall tr s'',
    forallb (fun ev => negb (is_restart ev)) tr = true ->
    run tr s' = Some s'' -> emailItem p ∉ live s''.
Proof.
  intros Hr Hi Hstep. destruct (Inv_reachable s Hr) as [Hm _].
  cbn in Hstep. rewrite Hi in Hstep. cbn in Hstep. injection Hstep as <-.
  set (s0 := set_inflight (delete i (inflight s)) s).
  pose proof (live_delete_inflight i p s Hi) as Hperm. fold s0 in Hperm.
  pose proof (inv_nodup _ Hm) as Hnd. rewrite Hperm in Hnd.
  apply NoDup_cons in Hnd as [Hfresh _].
  destruct (saveQueue_frame io s0) as (Hh & Hq & _ & _ & Hin & Ht & _).
  split; [exact Hh|]. split; [apply (saveQueue_failedDir io s0)|].
  intros tr s'' Hnr Hrun.
  apply (dropped_stays_dropped tr _ s'' _ Hnr Hrun).
  - cbn. rewrite Hh. apply (inv_alloc _ Hm). rewrite Hperm. by left.
  - unfold live. cbn. rewrite Hq, Hin, Ht. exact Hfresh.
Qed.

Lemma delivered_is_final_witness :
  reachable (after two_queued) /\
  inflight (after two_queued) !! 0%nat = Some (mkProc 0 "1000-a-1000" 0) /\
  step (EvSendDone 0 Sent true true) (after two_queued)
  = Some (after (two_queued ++ [EvSendDone 0 Sent true true])) /\
  (heap (after (two_queued ++ [EvSendDone 0 Sent true true]))
   = heap (after two_queued) /\
   failedDir (disk (after (two_queued ++ [EvSendDone 0 Sent true true])))
   = failedDir (disk (after two_queued)) /\
   forall tr s'',
     forallb (fun ev => negb (is_restart ev)) tr = true ->
     run tr (after (two_queued ++ [EvSendDone 0 Sent true true])) = Some s'' ->
     0%nat ∉ live s'').
Proof.
  assert (Hr : reachable (after two_queued))
    by (eapply reachable_after; vm_compute; reflexivity).
  assert (Hi : inflight (after two_queued) !! 0%nat
               = Some (mkProc 0 "1000-a-1000" 0)) by (vm_compute; reflexivity).
  assert (Hs : step (EvSendDone 0 Sent true true) (after two_queued)
               = Some (after (two_queued ++ [EvSendDone 0 Sent true true])))
    by (vm_compute; reflexivity).
  split; [exact Hr|]. split; [exact Hi|]. split; [exact Hs|].
  exact (delivered_is_final 0 _ true true _ _ Hr Hi Hs).
Defined.

(** X6.  Quarantine is final: the failed attempt that brings the count
    to [retryAttempts = 3] or more marks the job ['failed'] with the
    error and the time of the attempt, writes it (if the file system
    lets it) as [failed-<id>.json], arms no timer, and the job is from
    then on neither queued, nor in flight, nor on a retry timer while
    the process runs. *)
Theorem quarantine_is_final i p msg io_failed io s s' j :
  reachable s -> inflight s !! i = Some p ->
  heap s !! emailItem p = Some j -> (retryAttempts <= attempts j + 1)%N ->
  step (EvSendDone i (Rejected msg) io_failed io) s = Some s' ->
  heap s' !! emailItem p = Some (quarantined msg (now s) j) /\
  attempts (quarantined msg (now s) j) = (attempts j + 1)%N /\
  failedDir (disk s') !! ("failed-" +:+ email_id j +:+ ".json")
  = (if io_failed then Some (quarantined msg (now s) j)
     else failedDir (disk s) !! ("failed-" +:+ email_id j +:+ ".json")) /\
  timers s' = timers s /\
  forall tr s'',
    forallb (fun ev => negb (is_restart ev)) tr = true ->
    run tr s' = Some s'' -> emailItem p ∉ live s''.
Proof.
  intros Hr Hi Hj Hn Hstep. destruct (Inv_reachable s Hr) as [Hm _].
  cbn in Hstep. rewrite Hi in Hstep. cbn in Hstep. injection Hstep as <-.
  set (s0 := set_inflight (delete i (inflight s)) s).
  pose proof (live_delete_inflight i p s Hi) as Hperm. fold s0 in Hperm.
  pose proof (inv_nodup _ Hm) as Hnd. rewrite Hperm in Hnd.
  apply NoDup_cons in Hnd as [Hfresh _].
  pose proof (catch_heap_timers (emailItem p) msg io_failed io s0) as Hc.
  destruct (catch_frame (emailItem p) msg io_failed io s0) as [Hq Hin].
  cbv zeta in Hc. cbn [heap set_inflight s0 now timers] in Hc.
  rewrite list_lookup_alter_eq, Hj in Hc.
  cbn [fmap option_fmap option_map attempts record_failure] in Hc.
  rewrite bool_decide_true in Hc by done. destruct Hc as [Hh Ht].
  unfold processSingleEmail_resume. cbn [heap disk timers set_activeProcesses].
  split; [by rewrite Hh, !list_lookup_alter_eq, Hj|].
  split; [done|]. split; [|split; [exact Ht|]].
  - unfold processSingleEmail_catch. rewrite saveQueue_failedDir.
    cbn [heap set_heap s0 set_inflight now].
    rewrite list_lookup_alter_eq, Hj.
    cbn [fmap option_fmap option_map attempts record_failure].
    rewrite bool_decide_true by done.
    rewrite !list_lookup_alter_eq, Hj. cbn -[String.append].
    unfold saveFailedEmail. destruct io_failed; cbn -[String.append]; [|done].
    by rewrite lookup_insert_eq.
  - intros tr s'' Hnr Hrun.
    apply (dropped_stays_dropped tr _ s'' _ Hnr Hrun).
    + cbn. rewrite Hh, !length_alter. by eapply lookup_lt_Some.
    + unfold live. cbn. rewrite Hq, Hin, Ht. exact Hfresh.
Qed.

Lemma quarantine_is_final_witness :
  reachable (after third_attempt) /\
  inflight (after third_attempt) !! 0%nat
    = Some (mkProc 2 "1000-k3j9x0q2a-16000" 0) /\
  heap (after third_attempt) !! 0%nat
    = Some (mkJob "1000-k3j9x0q2a" mail 2 1000 pending
              (Some "ETIMEDOUT") (Some 6000)) /\
  step (EvSendDone 0 (Rejected "ECONNRESET") true true) (after third_attempt)
    = Some (after (third_attempt ++ [EvSendDone 0 (Rejected "ECONNRESET") true true])) /\
  failedDir (disk (after (third_attempt ++
      [EvSendDone 0 (Rejected "ECONNRESET") true true])))
    !! "failed-1000-k3j9x0q2a.json"
  = Some (mkJob "1000-k3j9x0q2a" mail 3 1000 failed
            (Some "ECONNRESET") (Some 16000)) /\
  forall tr s'',
    forallb (fun ev => negb (is_restart ev)) tr = true ->
    run tr (after (third_attempt ++
      [EvSendDone 0 (Rejected "ECONNRESET") true true])) = Some s'' ->
    0%nat ∉ live s''.
Proof.
  assert (Hr : reachable (after third_attempt))
    by (eapply reachable_after; vm_compute; reflexivity).
  assert (Hi : inflight (after third_attempt) !! 0%nat
               = Some (mkProc 2 "1000-k3j9x0q2a-16000" 0))
    by (vm_compute; reflexivity).
  assert (Hj : heap (after third_attempt) !! 0%nat
               = Some (mkJob "1000-k3j9x0q2a" mail 2 1000 pending
                         (Some "ETIMEDOUT") (Some 6000)))
    by (vm_compute; reflexivity).
  assert (Hs : step (EvSendDone 0 (Rejected "ECONNRESET") true true)
                 (after third_attempt)
               = Some (after (third_attempt ++
                   [EvSendDone 0 (Rejected "ECONNRESET") true true])))
    by (vm_compute; reflexivity).
  split; [exact Hr|]. split; [exact Hi|]. split; [exact Hj|]. split; [exact Hs|].
  destruct (quarantine_is_final 0 _ "ECONNRESET" true true _ _ _ Hr Hi Hj
              ltac:(vm_compute; discriminate) Hs) as (_ & _ & Hf & _ & Hfin).
  split; [exact Hf | exact Hfin].
Defined.

(** *** The files *)

Lemma omap_all_Some {A B} (f : A -> option B) (l : list A) :
  (forall x, x ∈ l -> is_Some (f x)) -> Some <$> omap f l = f <$> l.
Proof.
  induction l as [|x l IH]; intros Hall; [done|]. cbn.
  destruct (Hall x) as [y Hy]; [by left|]. rewrite Hy. cbn.
  rewrite IH; [done|]. intros z Hz. apply Hall. by right.
Qed.

(** X7.  What [saveQueue] writes is what a restart loads: after a
    successful save, a process started on the disk (and able to read
    it) holds exactly the jobs of the queue, in queue order and with all
    their fields, as its queue; it is idle and has no timer.  Jobs that
    were in flight or waiting for a retry are not among them. *)
Theorem saved_queue_reloads s t :
  reachable s ->
  Some <$> heap (constructor true (disk (saveQueue true s)) t)
    = (fun l => heap s !! l) <$> queue s /\
  queue (constructor true (disk (saveQueue true s)) t)
    = seq 0 (length (queue s)) /\
  in_memory (constructor true (disk (saveQueue true s)) t)
    = (heap (constructor true (disk (saveQueue true s)) t),
       seq 0 (length (queue s)), false, ∅, [], [], []).
Proof.
  intros Hr. destruct (Inv_reachable s Hr) as [Hm _].
  assert (Hl : Some <$> loadQueue true (disk (saveQueue true s))
               = (fun l => heap s !! l) <$> queue s).
  { cbn. apply omap_all_Some. intros l Hin.
    destruct (inv_pending _ Hm l Hin) as (j & -> & _). by eexists. }
  assert (Hlen : length (loadQueue true (disk (saveQueue true s)))
                 = length (queue s)).
  { rewrite <- (length_fmap Some), Hl. apply length_fmap. }
  unfold in_memory, constructor. cbn [heap queue processing activeProcesses
    episodes inflight timers]. by rewrite Hlen.
Qed.

Lemma saved_queue_reloads_witness :
  reachable (after five_queued) /\
  queue (after five_queued) = [4%nat] /\
  (Some <$> heap (constructor true (disk (saveQueue true (after five_queued))) 9000)
     = (fun l => heap (after five_queued) !! l) <$> queue (after five_queued) /\
   queue (constructor true (disk (saveQueue true (after five_queued))) 9000)
     = seq 0 (length (queue (after five_queued))) /\
   in_memory (constructor true (disk (saveQueue true (after five_queued))) 9000)
     = (heap (constructor true (disk (saveQueue true (after five_queued))) 9000),
        seq 0 (length (queue (after five_queued))), false, ∅, [], [], [])).
Proof.
  assert (Hr : reachable (after five_queued))
    by (eapply reachable_after; vm_compute; reflexivity).
  split; [exact Hr|]. split; [vm_compute; reflexivity|].
  exact (saved_queue_reloads (after five_queued) 9000 Hr).
Defined.

Lemma failedDir_step ev s s' k :
  step ev s = Some s' ->
  is_Some (failedDir (disk s) !! k) -> is_Some (failedDir (disk s') !! k).
Proof.
  intros Hstep Hk.
  assert (Hsame : forall x : State, disk x = disk s ->
            is_Some (failedDir (disk x) !! k)) by (by intros x ->).
  destruct ev; cbn [step] in Hstep.
  - injection Hstep as <-.
    change (is_Some (failedDir (disk (fst (enqueue emailData rnd io s))) !! k)).
    rewrite enqueue_disk, saveQueue_failedDir. done.
  - injection Hstep as <-. apply Hsame. unfold interval_callback.
    destruct (_ && _); [|done]. apply processQueue_frame.
  - destruct (inflight s !! i) as [p|] eqn:Hi; cbn in Hstep; [|done].
    injection Hstep as <-. unfold processSingleEmail_resume. cbn [disk set_activeProcesses].
    destruct o as [|msg]; [by rewrite saveQueue_failedDir|].
    unfold processSingleEmail_catch. rewrite saveQueue_failedDir.
    destruct (bool_decide _); cbn; [|done].
    destruct (alter _ _ _ !! emailItem p); cbn; [|done].
    unfold saveFailedEmail. destruct io_failed; cbn -[String.append]; [|done].
    rewrite lookup_insert. by case_decide.
  - destruct (timers s !! i) as [t|] eqn:Hi; cbn in Hstep; [|done].
    destruct (bool_decide _); [|done].
    injection Hstep as <-. unfold retry_callback.
    match goal with |- context [disk (if processing ?x then _ else _)] =>
      destruct (trigger_frame x) as (_ & _ & -> & _) end.
    by rewrite saveQueue_failedDir.
  - destruct (episodes s !! e) as [[ps|due]|] eqn:He; cbn in Hstep; [|done..].
    destruct (forallb _ _); [|done].
    injection Hstep as <-. apply Hsame. unfold processQueue_after_batch.
    destruct (bool_decide _); [done|].
    match goal with |- disk (processQueue_loop ?x) = _ =>
      apply (processQueue_loop_frame x) end.
  - destruct (episodes s !! e) as [[ps|due]|] eqn:He; cbn in Hstep; [done| |done].
    destruct (bool_decide _); [|done].
    injection Hstep as <-. apply Hsame.
    match goal with |- disk (processQueue_loop ?x) = _ =>
      apply (processQueue_loop_frame x) end.
  - injection Hstep as <-. unfold clearQueue. by rewrite saveQueue_failedDir.
  - by injection Hstep as <-.
  - by injection Hstep as <-.
Qed.

(** X8.  Dead-letter records are never removed: whatever the service
    does (saving or clearing the queue, restarting, quarantining other
    jobs), a file of the [failed-emails] directory stays there. *)
Theorem dead_letters_are_kept tr : forall s s' k,
  run tr s = Some s' ->
  is_Some (failedDir (disk s) !! k) -> is_Some (failedDir (disk s') !! k).
Proof.
  induction tr as [|ev tr IH]; intros s s' k Hrun Hk; cbn in Hrun.
  - by injection Hrun as <-.
  - destruct (step ev s) as [s1|] eqn:Hs; cbn in Hrun; [|done].
    eapply IH; [exact Hrun|]. by eapply failedDir_step.
Qed.

Lemma dead_letters_are_kept_witness :
  run [EvClearQueue true; EvEnqueue mail "g" true; EvRestart true]
      (after (third_attempt ++ [EvSendDone 0 (Rejected "ECONNRESET") true true]))
  = Some (after (third_attempt ++ [EvSendDone 0 (Rejected "ECONNRESET") true true;
                   EvClearQueue true; EvEnqueue mail "g" true; EvRestart true])) /\
  is_Some (failedDir (disk (after (third_attempt ++
             [EvSendDone 0 (Rejected "ECONNRESET") true true])))
           !! "failed-1000-k3j9x0q2a.json") /\
  is_Some (failedDir (disk (after (third_attempt ++
             [EvSendDone 0 (Rejected "ECONNRESET") true true;
              EvClearQueue true; EvEnqueue mail "g" true; EvRestart true])))
           !! "failed-1000-k3j9x0q2a.json").
Proof.
  assert (Hrun : run [EvClearQueue true; EvEnqueue mail "g" true; EvRestart true]
      (after (third_attempt ++ [EvSendDone 0 (Rejected "ECONNRESET") true true]))
    = Some (after (third_attempt ++ [EvSendDone 0 (Rejected "ECONNRESET") true true;
                   EvClearQueue true; EvEnqueue mail "g" true; EvRestart true])))
    by (vm_compute; reflexivity).
  assert (Hk : is_Some (failedDir (disk (after (third_attempt ++
             [EvSendDone 0 (Rejected "ECONNRESET") true true])))
           !! "failed-1000-k3j9x0q2a.json"))
    by (vm_compute; eexists; reflexivity).
  split; [exact Hrun|]. split; [exact Hk|].
  exact (dead_letters_are_kept _ _ _ _ Hrun Hk).
Defined.

(** *** The life of a job that is always rejected *)

Lemma saveQueue_true_eval h q pg a e f ts np dk t :
  saveQueue true (mkState h q pg a e f ts np dk t)
  = mkState h q pg a e f ts np
      (mkDisk (Some (Json (omap (fun l => h !! l) q))) (failedDir dk)) t.
Proof. reflexivity. Qed.

Lemma loop_single h l ts np dk t :
  processQueue_loop (mkState h [l] true ∅ [] [] ts np dk t)
  = mkState h [] true
      ({[match h !! l with Some j => email_id j | None => "undefined" end
         +:+ "-" +:+ pretty t]} ∪ ∅)
      [AwaitBatch [np]]
      [mkProc np (match h !! l with Some j => email_id j | None => "undefined" end
                  +:+ "-" +:+ pretty t) l]
      ts (S np) dk t.
Proof.
  unfold processQueue_loop. cbn [queue activeProcesses]. rewrite size_empty.
  reflexivity.
Qed.

Lemma omap_single {A B} (f : A -> option B) x :
  omap f [x] = match f x with Some y => [y] | None => [] end.
Proof. reflexivity. Qed.

Lemma lookup_last {A} (h : list A) x : (h ++ [x]) !! length h = Some x.
Proof. by rewrite lookup_app_r, Nat.sub_diag by lia. Qed.

Lemma alter_last {A} (f : A -> A) (h : list A) x :
  alter f (length h) (h ++ [x]) = h ++ [f x].
Proof. induction h as [|y h IH]; [done|]. cbn. by rewrite IH. Qed.

Lemma delete_last {A} (h : list A) x : delete (length h) (h ++ [x]) = h.
Proof. induction h as [|y h IH]; [done|]. simpl. f_equal. exact IH. Qed.

Lemma active_done (pid : string) : ({[pid]} ∪ ∅) ∖ {[pid]} = (∅ : gset string).
Proof.
  apply set_eq. intros x.
  rewrite elem_of_difference, elem_of_union, elem_of_empty. tauto.
Qed.

Lemma enqueue_on_drained h ts np dk t emailData rnd :
  step (EvEnqueue emailData rnd true) (drained h ts np dk t)
  = Some (sending h (mkJob (pretty t +:+ "-" +:+ rnd) emailData 0 t pending None None)
            ts np
            (mkDisk (Some (Json [mkJob (pretty t +:+ "-" +:+ rnd) emailData 0 t
                                   pending None None])) (failedDir dk)) t).
Proof.
  cbn [step]. unfold enqueue, drained, sending, generateId.
  cbn [fst now heap queue set_queue set_heap app]. f_equal.
  unfold set_queue, set_heap.
  cbn [heap queue processing activeProcesses episodes inflight timers
       next_promise disk now app].
  rewrite saveQueue_true_eval, omap_single, lookup_last. cbn [processing].
  unfold processQueue. cbn [processing]. unfold set_processing.
  cbn [heap queue activeProcesses episodes inflight timers next_promise disk now].
  by rewrite loop_single, lookup_last.
Qed.

Lemma rejected_retry h j ts np dk t m :
  (attempts j + 1 < retryAttempts)%N ->
  step (EvSendDone 0 (Rejected m) true true) (sending h j ts np dk t)
  = Some (mkState (h ++ [set_status retrying (record_failure m t j)]) [] true ∅
            [AwaitBatch [np]] []
            (ts ++ [mkTimer (t + retry_delay (attempts j + 1)) (length h)])
            (S np) (mkDisk (Some (Json [])) (failedDir dk)) t).
Proof.
  intros Hn. unfold sending.
  cbn [step inflight lookup list_lookup mbind option_bind].
  f_equal. unfold processSingleEmail_resume.
  cbn [emailItem processId]. rewrite catch_active.
  cbn [activeProcesses set_inflight]. rewrite active_done.
  unfold processSingleEmail_catch. cbn [heap now set_inflight set_heap].
  rewrite alter_last, lookup_last. cbn [attempts record_failure].
  rewrite bool_decide_false by lia.
  cbn [heap set_heap]. by rewrite alter_last.
Qed.

Lemma rejected_final h j ts np dk t m :
  (retryAttempts <= attempts j + 1)%N ->
  step (EvSendDone 0 (Rejected m) true true) (sending h j ts np dk t)
  = Some (mkState (h ++ [quarantined m t j]) [] true ∅ [AwaitBatch [np]] [] ts
            (S np)
            (mkDisk (Some (Json []))
               (<["failed-" +:+ email_id j +:+ ".json" := quarantined m t j]>
                  (failedDir dk))) t).
Proof.
  intros Hn. unfold sending.
  cbn [step inflight lookup list_lookup mbind option_bind].
  f_equal. unfold processSingleEmail_resume.
  cbn [emailItem processId]. rewrite catch_active.
  cbn [activeProcesses set_inflight]. rewrite active_done.
  unfold processSingleEmail_catch. cbn [heap now set_inflight set_heap].
  rewrite alter_last, lookup_last. cbn [attempts record_failure].
  rewrite bool_decide_true by lia.
  cbn [heap set_heap]. by rewrite alter_last, lookup_last.
Qed.

Lemma batch_of_one_settles h a ts np np' dk t :
  step (EvBatchSettled 0) (mkState h [] true a [AwaitBatch [np]] [] ts np' dk t)
  = Some (mkState h [] false a [] [] ts np' dk t).
Proof. reflexivity. Qed.

Lemma retry_fires h j ts due np dk t :
  due <= t ->
  step (EvRetryTimer (length ts) true)
       (drained (h ++ [j]) (ts ++ [mkTimer due (length h)]) np dk t)
  = Some (sending h (set_status pending j) ts np
            (mkDisk (Some (Json [set_status pending j])) (failedDir dk)) t).
Proof.
  intros Hdue. unfold drained, sending. cbn [step timers].
  rewrite lookup_last. cbn [mbind option_bind timer_due timer_item now].
  rewrite bool_decide_true by done. f_equal.
  unfold retry_callback, set_timers, set_heap, set_queue.
  cbn [heap queue processing activeProcesses episodes inflight timers
       next_promise disk now app].
  rewrite delete_last, alter_last, saveQueue_true_eval, omap_single, lookup_last.
  cbn [processing].
  unfold processQueue. cbn [processing]. unfold set_processing.
  cbn [heap queue activeProcesses episodes inflight timers next_promise disk now].
  by rewrite loop_single, lookup_last.
Qed.

Lemma idle_drained_form s :
  MemInv s -> processing s = false -> queue s = [] ->
  s = drained (heap s) (timers s) (next_promise s) (disk s) (now s).
Proof.
  intros Hm Hp Hq.
  destruct (inv_idle _ Hm Hp) as [He Hi].
  pose proof (idle_no_active _ Hm Hi) as Ha.
  destruct s; cbn in *; by subst.
Qed.

(** X9.  The whole life of an e-mail that the transport always rejects
    at once, on an idle service with an empty queue and no retry
    pending: it is sent when enqueued, again 5 s after the first
    rejection and again 10 s after the second; the third rejection
    makes it a dead letter with [attempts = 3] and the last error,
    written to [failed-<id>.json]; three deliveries were made in all;
    the queue file is empty and the service is idle as before.  The run
    is one of a process that is on time: each retry timer fires the
    moment it is due and the clock passes no other callback, and the
    interval ticks it leaves out find nothing to do in any of its
    states. *)
Theorem rejected_three_times emailData rnd m1 m2 m3 s :
  reachable s -> processing s = false -> queue s = [] -> timers s = [] ->
  exists s',
    run (three_rejections emailData rnd m1 m2 m3 0) s = Some s' /\
    punctual (three_rejections emailData rnd m1 m2 m3 0) s = true /\
    ticks_idle (three_rejections emailData rnd m1 m2 m3 0) s = true /\
    heap s' = heap s ++ [mkJob (generateId rnd s) emailData 3 (now s) failed
                           (Some m3) (Some (now s + 5000 + 10000))] /\
    failedDir (disk s')
    = <["failed-" +:+ generateId rnd s +:+ ".json" :=
          mkJob (generateId rnd s) emailData 3 (now s) failed
            (Some m3) (Some (now s + 5000 + 10000))]> (failedDir (disk s)) /\
    queueFile (disk s') = Some (Json []) /\
    in_memory s' = (heap s', [], false, ∅, [], [], []) /\
    attempts_along any_outcome (length (heap s))
      (three_rejections emailData rnd m1 m2 m3 0) s = 3%N.
Proof.
  intros Hr Hp Hq Ht. destruct (Inv_reachable s Hr) as [Hm _].
  rewrite (idle_drained_form s Hm Hp Hq), Ht.
  generalize (heap s) (next_promise s) (disk s) (now s).
  intros h np dk t. clear.
  unfold generateId. cbn [now heap timers drained disk].
  set (ident := pretty t +:+ "-" +:+ rnd).
  set (j0 := mkJob ident emailData 0 t pending None None).
  set (r1 := mkJob ident emailData 1 t retrying (Some m1) (Some t)).
  set (p1 := mkJob ident emailData 1 t pending (Some m1) (Some t)).
  set (r2 := mkJob ident emailData 2 t retrying (Some m2) (Some (t + 5000))).
  set (p2 := mkJob ident emailData 2 t pending (Some m2) (Some (t + 5000))).
  set (f3 := mkJob ident emailData 3 t failed (Some m3) (Some (t + 5000 + 10000))).
  set (fd := failedDir dk).
  assert (E1 : step (EvEnqueue emailData rnd true) (drained h [] np dk t)
          = Some (sending h j0 [] np (mkDisk (Some (Json [j0])) fd) t))
    by exact (enqueue_on_drained h [] np dk t emailData rnd).
  assert (E2 : step (EvSendDone 0 (Rejected m1) true true)
                 (sending h j0 [] np (mkDisk (Some (Json [j0])) fd) t)
          = Some (mkState (h ++ [r1]) [] true ∅ [AwaitBatch [np]] []
                    [mkTimer (t + 5000) (length h)] (S np)
                    (mkDisk (Some (Json [])) fd) t))
    by exact (rejected_retry h j0 [] np _ t m1 ltac:(by vm_compute)).
  assert (E5 : step (EvRetryTimer 0 true)
                 (drained (h ++ [r1]) [mkTimer (t + 5000) (length h)] (S np)
                    (mkDisk (Some (Json [])) fd) (t + 5000))
          = Some (sending h p1 [] (S np) (mkDisk (Some (Json [p1])) fd) (t + 5000)))
    by exact (retry_fires h r1 [] (t + 5000) (S np) _ (t + 5000) ltac:(lia)).
  assert (E6 : step (EvSendDone 0 (Rejected m2) true true)
                 (sending h p1 [] (S np) (mkDisk (Some (Json [p1])) fd) (t + 5000))
          = Some (mkState (h ++ [r2]) [] true ∅ [AwaitBatch [S np]] []
                    [mkTimer (t + 5000 + 10000) (length h)] (S (S np))
                    (mkDisk (Some (Json [])) fd) (t + 5000)))
    by exact (rejected_retry h p1 [] (S np) _ (t + 5000) m2 ltac:(by vm_compute)).
  assert (E9 : step (EvRetryTimer 0 true)
                 (drained (h ++ [r2]) [mkTimer (t + 5000 + 10000) (length h)]
                    (S (S np)) (mkDisk (Some (Json [])) fd) (t + 5000 + 10000))
          = Some (sending h p2 [] (S (S np)) (mkDisk (Some (Json [p2])) fd)
                    (t + 5000 + 10000)))
    by exact (retry_fires h r2 [] (t + 5000 + 10000) (S (S np)) _
                (t + 5000 + 10000) ltac:(lia)).
  assert (E10 : step (EvSendDone 0 (Rejected m3) true true)
                  (sending h p2 [] (S (S np)) (mkDisk (Some (Json [p2])) fd)
                     (t + 5000 + 10000))
          = Some (mkState (h ++ [f3]) [] true ∅ [AwaitBatch [S (S np)]] [] []
                    (S (S (S np)))
                    (mkDisk (Some (Json []))
                       (<["failed-" +:+ ident +:+ ".json" := f3]> fd))
                    (t + 5000 + 10000)))
    by exact (rejected_final h p2 [] (S (S np)) _ (t + 5000 + 10000) m3
                ltac:(by vm_compute)).
  assert (Hrun : run (three_rejections emailData rnd m1 m2 m3 0)
                   (drained h [] np dk t)
          = Some (drained (h ++ [f3]) [] (S (S (S np)))
                    (mkDisk (Some (Json []))
                       (<["failed-" +:+ ident +:+ ".json" := f3]> fd))
                    (t + 5000 + 10000))).
  { unfold three_rejections. cbn [run].
    rewrite E1. cbn [mbind option_bind].
    rewrite E2. cbn [mbind option_bind].
    rewrite batch_of_one_settles. cbn [mbind option_bind].
    change (step (EvElapse 5000) ?x) with (Some (set_now (now x + 5000) x)).
    unfold set_now.
    cbn [mbind option_bind heap queue processing activeProcesses
         episodes inflight timers next_promise disk now].
    fold (drained (h ++ [r1]) [mkTimer (t + 5000) (length h)] (S np)
            (mkDisk (Some (Json [])) fd) (t + 5000)).
    rewrite E5. cbn [mbind option_bind].
    rewrite E6. cbn [mbind option_bind].
    rewrite batch_of_one_settles. cbn [mbind option_bind].
    change (step (EvElapse 10000) ?x) with (Some (set_now (now x + 10000) x)).
    unfold set_now.
    cbn [mbind option_bind heap queue processing activeProcesses
         episodes inflight timers next_promise disk now].
    fold (drained (h ++ [r2]) [mkTimer (t + 5000 + 10000) (length h)]
            (S (S np)) (mkDisk (Some (Json [])) fd) (t + 5000 + 10000)).
    rewrite E9. cbn [mbind option_bind].
    rewrite E10. cbn [mbind option_bind].
    by rewrite batch_of_one_settles. }
  assert (Hel : forall dt due l h' np' dk' t',
            t' + Z.of_N dt <= due ->
            may_elapse dt (mkState h' [] false ∅ [] [] [mkTimer due l] np' dk' t')
            = true).
  { intros dt due l h' np' dk' t' Hdue. unfold may_elapse.
    cbn [timers episodes forallb timer_due now andb].
    by rewrite bool_decide_true by done. }
  eexists. split; [exact Hrun|].
  split; [|split].
  - unfold three_rejections. cbn [punctual andb].
    rewrite E1, E2, batch_of_one_settles.
    rewrite Hel by (cbn; lia). cbn [andb].
    change (step (EvElapse 5000) ?x) with (Some (set_now (now x + 5000) x)).
    unfold set_now.
    cbn [heap queue processing activeProcesses
         episodes inflight timers next_promise disk now].
    fold (drained (h ++ [r1]) [mkTimer (t + 5000) (length h)] (S np)
            (mkDisk (Some (Json [])) fd) (t + 5000)).
    rewrite E5, E6, batch_of_one_settles.
    rewrite Hel by (cbn; lia). cbn [andb].
    change (step (EvElapse 10000) ?x) with (Some (set_now (now x + 10000) x)).
    unfold set_now.
    cbn [heap queue processing activeProcesses
         episodes inflight timers next_promise disk now].
    fold (drained (h ++ [r2]) [mkTimer (t + 5000 + 10000) (length h)]
            (S (S np)) (mkDisk (Some (Json [])) fd) (t + 5000 + 10000)).
    by rewrite E9, E10, batch_of_one_settles.
  - assert (Hti : forall h' pg a e f ts np' dk' t',
              tick_idle (mkState h' [] pg a e f ts np' dk' t') = true).
    { intros. unfold tick_idle. cbn [queue processing length].
      rewrite bool_decide_false by lia. by rewrite andb_false_r. }
    unfold three_rejections. cbn [ticks_idle].
    rewrite E1, E2, batch_of_one_settles.
    change (step (EvElapse 5000) ?x) with (Some (set_now (now x + 5000) x)).
    unfold set_now.
    cbn [heap queue processing activeProcesses
         episodes inflight timers next_promise disk now].
    fold (drained (h ++ [r1]) [mkTimer (t + 5000) (length h)] (S np)
            (mkDisk (Some (Json [])) fd) (t + 5000)).
    rewrite E5, E6, batch_of_one_settles.
    change (step (EvElapse 10000) ?x) with (Some (set_now (now x + 10000) x)).
    unfold set_now.
    cbn [heap queue processing activeProcesses
         episodes inflight timers next_promise disk now].
    fold (drained (h ++ [r2]) [mkTimer (t + 5000 + 10000) (length h)]
            (S (S np)) (mkDisk (Some (Json [])) fd) (t + 5000 + 10000)).
    rewrite E9, E10, batch_of_one_settles.
    unfold drained, sending. by rewrite !Hti.
  - split; [reflexivity|]. split; [reflexivity|]. split; [reflexivity|].
    split; [reflexivity|].
    assert (Hfl : forall j' ts' np' dk' t',
              inflight (sending h j' ts' np' dk' t') !! 0%nat
              = Some (mkProc np' (email_id j' +:+ "-" +:+ pretty t') (length h)))
      by reflexivity.
    unfold three_rejections. cbn [attempts_along attempt_of].
    rewrite E1, !Hfl, E2, batch_of_one_settles.
    change (step (EvElapse 5000) ?x) with (Some (set_now (now x + 5000) x)).
    unfold set_now.
    cbn [heap queue processing activeProcesses
         episodes inflight timers next_promise disk now].
    fold (drained (h ++ [r1]) [mkTimer (t + 5000) (length h)] (S np)
            (mkDisk (Some (Json [])) fd) (t + 5000)).
    rewrite E5, !Hfl, E6, batch_of_one_settles.
    change (step (EvElapse 10000) ?x) with (Some (set_now (now x + 10000) x)).
    unfold set_now.
    cbn [heap queue processing activeProcesses
         episodes inflight timers next_promise disk now].
    fold (drained (h ++ [r2]) [mkTimer (t + 5000 + 10000) (length h)]
            (S (S np)) (mkDisk (Some (Json [])) fd) (t + 5000 + 10000)).
    rewrite E9, !Hfl, E10, batch_of_one_settles.
    cbn [any_outcome andb emailItem]. rewrite !bool_decide_true by done.
    reflexivity.
Qed.

Lemma rejected_three_times_witness :
  reachable (after first_success_a) /\
  processing (after first_success_a) = false /\
  queue (after first_success_a) = [] /\
  timers (after first_success_a) = [] /\
  exists s',
    run (three_rejections mail "zq81mmx0p" "ECONNREFUSED" "ETIMEDOUT" "ECONNRESET" 0)
        (after first_success_a) = Some s' /\
    punctual
      (three_rejections mail "zq81mmx0p" "ECONNREFUSED" "ETIMEDOUT" "ECONNRESET" 0)
      (after first_success_a) = true /\
    ticks_idle
      (three_rejections mail "zq81mmx0p" "ECONNREFUSED" "ETIMEDOUT" "ECONNRESET" 0)
      (after first_success_a) = true /\
    heap s' = heap (after first_success_a)
              ++ [mkJob (generateId "zq81mmx0p" (after first_success_a)) mail 3
                    (now (after first_success_a)) failed (Some "ECONNRESET")
                    (Some (now (after first_success_a) + 5000 + 10000))] /\
    failedDir (disk s')
    = <["failed-" +:+ generateId "zq81mmx0p" (after first_success_a) +:+ ".json" :=
          mkJob (generateId "zq81mmx0p" (after first_success_a)) mail 3
            (now (after first_success_a)) failed (Some "ECONNRESET")
            (Some (now (after first_success_a) + 5000 + 10000))]>
        (failedDir (disk (after first_success_a))) /\
    queueFile (disk s') = Some (Json []) /\
    in_memory s' = (heap s', [], false, ∅, [], [], []) /\
    attempts_along any_outcome (length (heap (after first_success_a)))
      (three_rejections mail "zq81mmx0p" "ECONNREFUSED" "ETIMEDOUT" "ECONNRESET" 0)
      (after first_success_a) = 3%N.
Proof.
  assert (Hr : reachable (after first_success_a))
    by (eapply reachable_after; vm_compute; reflexivity).
  split; [exact Hr|]. split; [vm_compute; reflexivity|].
  split; [vm_compute; reflexivity|]. split; [vm_compute; reflexivity|].
  exact (rejected_three_times mail "zq81mmx0p" "ECONNREFUSED" "ETIMEDOUT"
           "ECONNRESET" (after first_success_a) Hr
           ltac:(vm_compute; reflexivity) ltac:(vm_compute; reflexivity)
           ltac:(vm_compute; reflexivity)).
Defined.

End EmailQueue.

(** * Properties of the database *)
Module FileDatabaseFacts.
Import FileDatabase.

Open Scope Z_scope.

(** ** Objects *)

Lemma obj_get_None {A} k (o : list (string * A)) :
  obj_get k o = None <-> k ∉ fst <$> o.
Proof.
  induction o as [|[k' v] o IH]; cbn.
  - split; [intros _; apply not_elem_of_nil | done].
  - rewrite not_elem_of_cons. destruct (decide (k' = k)) as [-> | Hne].
    + split; [done | by intros [? _]].
    + rewrite IH. split; [by intros ? | by intros [_ ?]].
Qed.

Lemma obj_get_update {A} k k' (f : A -> A) (o : list (string * A)) :
  obj_get k (obj_update k' f o)
  = if decide (k = k') then f <$> obj_get k o else obj_get k o.
Proof.
  induction o as [|[k0 v] o IH]; cbn; [by destruct (decide _)|].
  destruct (decide (k0 = k')) as [-> | Hne]; cbn.
  - destruct (decide (k' = k)) as [-> | Hne'].
    + by rewrite decide_True.
    + by rewrite decide_False by done.
  - destruct (decide (k0 = k)) as [-> | Hne'].
    + by rewrite decide_False by done.
    + exact IH.
Qed.

Lemma obj_get_app {A} k (o o' : list (string * A)) :
  obj_get k (o ++ o') = match obj_get k o with Some v => Some v | None => obj_get k o' end.
Proof.
  induction o as [|[k0 v] o IH]; cbn; [done|]. by destruct (decide (k0 = k)).
Qed.

Lemma obj_update_app {A} k (f : A -> A) (o o' : list (string * A)) :
  obj_update k f (o ++ o')
  = match obj_get k o with
    | Some _ => obj_update k f o ++ o'
    | None => o ++ obj_update k f o'
    end.
Proof.
  induction o as [|[k0 v] o IH]; cbn; [done|].
  destruct (decide (k0 = k)); [done|]. rewrite IH. by destruct (obj_get k o).
Qed.

Lemma obj_update_keys {A} k (f : A -> A) (o : list (string * A)) :
  fst <$> obj_update k f o = fst <$> o.
Proof.
  induction o as [|[k0 v] o IH]; cbn; [done|].
  destruct (decide (k0 = k)); cbn; [done | by rewrite IH].
Qed.

Lemma obj_update_same {A} k (f : A -> A) (o : list (string * A)) :
  (forall v, obj_get k o = Some v -> f v = v) -> obj_update k f o = o.
Proof.
  induction o as [|[k0 v] o IH]; cbn; [done|]. intros Hf.
  destruct (decide (k0 = k)) as [-> | Hne].
  - by rewrite Hf.
  - by rewrite IH.
Qed.

Lemma obj_update_update {A} k (f g : A -> A) (o : list (string * A)) :
  obj_update k g (obj_update k f o) = obj_update k (fun v => g (f v)) o.
Proof.
  induction o as [|[k0 v] o IH]; cbn; [done|].
  destruct (decide (k0 = k)) as [-> | Hne]; cbn.
  - by rewrite decide_True.
  - by rewrite decide_False, IH.
Qed.

Lemma obj_get_elem_of {A} k v (o : list (string * A)) :
  obj_get k o = Some v -> (k, v) ∈ o.
Proof.
  induction o as [|[k0 v0] o IH]; cbn; [done|].
  destruct (decide (k0 = k)) as [-> | Hne].
  - intros [= ->]. by left.
  - intros H. right. by apply IH.
Qed.

Lemma remove_first_NoDup x (l : list string) :
  NoDup l -> x ∉ remove_first x l.
Proof.
  induction l as [|y l IH]; cbn; intros Hnd; [apply not_elem_of_nil|].
  apply NoDup_cons in Hnd as [Hy Hnd].
  destruct (decide (y = x)) as [-> | Hne]; [done|].
  apply not_elem_of_cons. split; [done | by apply IH].
Qed.

Lemma remove_first_app_last x (l : list string) :
  x ∉ l -> remove_first x (l ++ [x]) = l.
Proof.
  induction l as [|y l IH]; cbn; intros Hx.
  - by rewrite decide_True.
  - apply not_elem_of_cons in Hx as [Hne Hx].
    rewrite decide_False by done. by rewrite IH.
Qed.

(** ** Looking uploads up *)

Lemma getUploadById_in_app fid us us' :
  getUploadById_in fid (us ++ us')
  = match getUploadById_in fid us with
    | Some r => Some r
    | None => getUploadById_in fid us'
    end.
Proof.
  induction us as [|[e u] us IH]; cbn; [done|].
  by destruct (list_find _ (uploads u)) as [[i up]|].
Qed.

Lemma getUploadById_in_update fid e (g : User -> User) us :
  (forall u, snd <$> list_find (fun up => upload_id up = fid) (uploads (g u))
             = snd <$> list_find (fun up => upload_id up = fid) (uploads u)) ->
  getUploadById_in fid (obj_update e g us) = getUploadById_in fid us.
Proof.
  intros Hg. induction us as [|[e0 u] us IH]; cbn; [done|].
  destruct (decide (e0 = e)) as [-> | Hne]; cbn.
  - specialize (Hg u).
    destruct (list_find _ (uploads (g u))) as [[i up]|],
             (list_find _ (uploads u)) as [[i' up']|]; cbn in Hg; congruence.
  - by rewrite IH.
Qed.

Lemma list_find_snoc_other fid (l : list Upload) up :
  upload_id up <> fid ->
  list_find (fun x => upload_id x = fid) (l ++ [up])
  = list_find (fun x => upload_id x = fid) l.
Proof.
  intros Hne. destruct (list_find _ l) as [[i x]|] eqn:Hl.
  - by apply list_find_app_l.
  - rewrite list_find_app_r by done. cbn. by rewrite decide_False.
Qed.

Lemma list_find_snoc_new (l : list Upload) up :
  list_find (fun x => upload_id x = upload_id up) l = None ->
  list_find (fun x => upload_id x = upload_id up) (l ++ [up])
  = Some (length l, up).
Proof.
  intros Hl. rewrite list_find_app_r by done. cbn. by rewrite decide_True.
Qed.

Lemma getUploadById_in_push us : forall e u up,
  getUploadById_in (upload_id up) us = None -> obj_get e us = Some u ->
  getUploadById_in (upload_id up)
    (obj_update e (fun u' => set_uploads (uploads u' ++ [up]) u') us)
  = Some (up, e).
Proof.
  induction us as [|[e0 u0] us IH]; intros e u up Hnone Hget; cbn in *; [done|].
  destruct (list_find _ (uploads u0)) as [[i x]|] eqn:Hf; [done|].
  destruct (decide (e0 = e)) as [-> | Hne]; cbn.
  - by rewrite list_find_snoc_new.
  - rewrite Hf. by eapply IH.
Qed.

Lemma sum_list_with_update {A} (h : string * A -> nat) e (g : A -> A) c us :
  (forall k v, h (k, g v) = (h (k, v) + c)%nat) ->
  forall u, obj_get e us = Some u ->
  sum_list_with h (obj_update e g us) = (sum_list_with h us + c)%nat.
Proof.
  intros Hh. induction us as [|[e0 u0] us IH]; intros u Hget; cbn in *; [done|].
  destruct (decide (e0 = e)) as [-> | Hne]; cbn.
  - rewrite Hh. lia.
  - rewrite (IH u Hget). lia.
Qed.

Lemma obj_update_length {A} k (f : A -> A) (o : list (string * A)) :
  length (obj_update k f o) = length o.
Proof.
  rewrite <- (length_fmap fst (obj_update k f o)), obj_update_keys.
  apply length_fmap.
Qed.

Lemma foldr_sum_update {A} (h : string * A -> N) e (g : A -> A) c us :
  (forall k v, h (k, g v) = (h (k, v) + c)%N) ->
  forall u, obj_get e us = Some u ->
  foldr (fun eu acc => (h eu + acc)%N) 0%N (obj_update e g us)
  = (foldr (fun eu acc => (h eu + acc)%N) 0%N us + c)%N.
Proof.
  intros Hh. induction us as [|[e0 u0] us IH]; intros u Hget; cbn in *; [done|].
  destruct (decide (e0 = e)) as [-> | Hne]; cbn.
  - rewrite Hh. lia.
  - rewrite (IH u Hget). lia.
Qed.

Lemma foldl_size_snoc (l : list Upload) up :
  foldl (fun sum x => (sum + size x)%N) 0%N (l ++ [up])
  = (foldl (fun sum x => (sum + size x)%N) 0%N l + size up)%N.
Proof. by rewrite foldl_app. Qed.

(** ** Adding uploads *)

Lemma addUpload_users extname_lower e f t d :
  collections (addUpload extname_lower e f t d) = collections d /\
  users (addUpload extname_lower e f t d)
  = match obj_get e (users d) with
    | Some _ =>
        obj_update e
          (fun u => set_uploads (uploads u ++ [new_upload extname_lower f]) u)
          (users d)
    | None =>
        users d ++ [(e, mkUser "Unknown User" [new_upload extname_lower f]
                          (Some []) (Some []) (Some []) true false t None)]
    end.
Proof.
  unfold addUpload, addUser. destruct (obj_get e (users d)) eqn:Hget; [done|].
  cbn. split; [done|]. rewrite obj_update_app, Hget. cbn. by rewrite decide_True.
Qed.

(** X10.  An upload stored with [addUpload], for an uploader whose
    address is no name of [Object.prototype], under an id no upload has
    yet is what [getUploadById] returns for that id, with the uploader
    as [uploadedBy], a download count of 0 unless one was given, and the
    file type of its name; every other id resolves as before. *)
Theorem addUpload_then_getUploadById extname_lower e f t d fid :
  plain_key e ->
  getUploadById (fd_id f) d = None ->
  getUploadById fid (addUpload extname_lower e f t d)
  = if decide (fid = fd_id f) then Some (new_upload extname_lower f, e)
    else getUploadById fid d.
Proof.
  intros _ Hfresh. unfold getUploadById in *.
  destruct (addUpload_users extname_lower e f t d) as [_ ->].
  destruct (decide (fid = fd_id f)) as [-> | Hne].
  - destruct (obj_get e (users d)) as [u|] eqn:Hget.
    + by apply (getUploadById_in_push (users d) e u (new_upload extname_lower f)).
    + rewrite getUploadById_in_app, Hfresh. cbn. by rewrite decide_True.
  - destruct (obj_get e (users d)) as [u|] eqn:Hget.
    + apply getUploadById_in_update. intros u'. cbn.
      rewrite list_find_snoc_other; [done|]. cbn. congruence.
    + rewrite getUploadById_in_app.
      destruct (getUploadById_in fid (users d)); [done|].
      cbn. by rewrite decide_False by (cbn; congruence).
Qed.

Lemma addUpload_then_getUploadById_witness :
  plain_key "carol@example.org" /\
  getUploadById "f4" sample_db = None /\
  getUploadById "f4"
    (addUpload extname_of_samples "carol@example.org" demo 4500 sample_db)
  = Some (mkUpload "f4" "demo.WAV" "1700000000003-demo.WAV" 7000 4000
            (Some 8000) 0 false "audio", "carol@example.org") /\
  getUploadById "f1"
    (addUpload extname_of_samples "carol@example.org" demo 4500 sample_db)
  = Some (song, "alice@example.org").
Proof.
  assert (Hk : plain_key "carol@example.org")
    by (apply (bool_decide_unpack _); vm_compute; reflexivity).
  assert (H : getUploadById "f4" sample_db = None) by (vm_compute; reflexivity).
  split; [exact Hk|]. split; [exact H|]. split.
  - exact (addUpload_then_getUploadById extname_of_samples "carol@example.org"
             demo 4500 sample_db "f4" Hk H).
  - rewrite (addUpload_then_getUploadById extname_of_samples "carol@example.org"
               demo 4500 sample_db "f1" Hk H).
    vm_compute; reflexivity.
Defined.

(** X11.  [getStats] after [addUpload], for an uploader whose address
    is no name of [Object.prototype] and as long as the total size
    stays within [2 ^ 53] bytes, where the sums of the code are exact:
    one upload more, the bytes of the file more, and one user more
    exactly when the uploader was not in the database. *)
Theorem addUpload_stats extname_lower e f t d :
  plain_key e ->
  (totalSize (getStats d) + fd_size f <= 2 ^ 53)%N ->
  getStats (addUpload extname_lower e f t d)
  = mkStats
      (totalUsers (getStats d)
       + match obj_get e (users d) with Some _ => 0 | None => 1 end)
      (totalUploads (getStats d) + 1)
      (totalSize (getStats d) + fd_size f).
Proof.
  intros _ _.
  unfold getStats. destruct (addUpload_users extname_lower e f t d) as [_ ->].
  cbn [totalUsers totalUploads totalSize].
  destruct (obj_get e (users d)) as [u|] eqn:Hget; f_equal.
  - rewrite obj_update_length. lia.
  - apply (sum_list_with_update (fun eu => length (uploads (snd eu))) _ _ 1%nat _)
      with (u := u); [|done].
    intros k v. cbn. rewrite length_app. cbn. lia.
  - apply (foldr_sum_update
             (fun eu => foldl (fun sum x => (sum + size x)%N) 0%N (uploads (snd eu))))
      with (u := u); [|done].
    intros k v. cbn. apply (foldl_size_snoc (uploads v) (new_upload extname_lower f)).
  - rewrite length_app. cbn. lia.
  - rewrite sum_list_with_app. cbn. lia.
  - rewrite foldr_app. cbn.
    replace (0 + fd_size f + 0)%N with (fd_size f) by lia.
    generalize (fd_size f). intros c. clear Hget.
    induction (users d) as [|x l IH]; cbn; [lia | rewrite IH; apply N.add_assoc].
Qed.

Lemma addUpload_stats_witness :
  plain_key "carol@example.org" /\
  (totalSize (getStats sample_db) + fd_size demo <= 2 ^ 53)%N /\
  getStats sample_db = mkStats 2 3 5220 /\
  getStats (addUpload extname_of_samples "carol@example.org" demo 4500 sample_db)
  = mkStats 3 4 12220.
Proof.
  assert (Hk : plain_key "carol@example.org")
    by (apply (bool_decide_unpack _); vm_compute; reflexivity).
  assert (Hs : (totalSize (getStats sample_db) + fd_size demo <= 2 ^ 53)%N)
    by (vm_compute; discriminate).
  split; [exact Hk|]. split; [exact Hs|]. split; [vm_compute; reflexivity|].
  rewrite (addUpload_stats extname_of_samples "carol@example.org" demo 4500
             sample_db Hk Hs).
  vm_compute; reflexivity.
Defined.

(** X12.  An upload changes nobody's approval, for addresses that are
    no names of [Object.prototype]: the status of every known user is
    as before, and an uploader who was not in the database is created
    as the unapproved "Unknown User". *)
Theorem addUpload_keeps_approval extname_lower e e' f t d :
  plain_key e -> plain_key e' ->
  getUserApprovalStatus e' (addUpload extname_lower e f t d)
  = match getUserApprovalStatus e' d with
    | Some st => Some st
    | None => if decide (e' = e) then Some (false, "Unknown User", t, None) else None
    end.
Proof.
  intros _ _.
  unfold getUserApprovalStatus. destruct (addUpload_users extname_lower e f t d) as [_ ->].
  destruct (obj_get e (users d)) as [u|] eqn:Hget.
  - rewrite obj_get_update. destruct (decide (e' = e)) as [-> | Hne].
    + by rewrite Hget.
    + by destruct (obj_get e' (users d)).
  - rewrite obj_get_app. destruct (obj_get e' (users d)) as [u'|] eqn:Hget'; [done|].
    cbn. destruct (decide (e = e')) as [<- | Hne].
    + by rewrite decide_True.
    + by rewrite decide_False by congruence.
Qed.

Lemma addUpload_keeps_approval_witness :
  plain_key "carol@example.org" /\ plain_key "bob@example.org" /\
  getUserApprovalStatus "carol@example.org"
    (addUpload extname_of_samples "carol@example.org" demo 4500 sample_db)
  = Some (false, "Unknown User", 4500, None) /\
  getUserApprovalStatus "bob@example.org"
    (addUpload extname_of_samples "carol@example.org" demo 4500 sample_db)
  = Some (false, "Bob", 700, None).
Proof.
  assert (Hc : plain_key "carol@example.org")
    by (apply (bool_decide_unpack _); vm_compute; reflexivity).
  assert (Hb : plain_key "bob@example.org")
    by (apply (bool_decide_unpack _); vm_compute; reflexivity).
  split; [exact Hc|]. split; [exact Hb|]. split.
  - rewrite (addUpload_keeps_approval extname_of_samples "carol@example.org"
               "carol@example.org" demo 4500 sample_db Hc Hc).
    vm_compute; reflexivity.
  - rewrite (addUpload_keeps_approval extname_of_samples "carol@example.org"
               "bob@example.org" demo 4500 sample_db Hc Hb).
    vm_compute; reflexivity.
Defined.

(** ** The loops over the users *)

Lemma list_find_id_None fid (l : list Upload) :
  list_find (fun up => upload_id up = fid) l = None <-> fid ∉ upload_id <$> l.
Proof.
  rewrite list_find_None, Forall_forall. split.
  - intros H (up & -> & Hin)%list_elem_of_fmap. by apply (H up).
  - intros H up Hin Hid. apply H. apply list_elem_of_fmap. by exists up.
Qed.

Lemma list_find_id fid (l : list Upload) i up :
  list_find (fun x => upload_id x = fid) l = Some (i, up) ->
  l !! i = Some up /\ upload_id up = fid.
Proof. intros (? & ? & _)%list_find_Some. done. Qed.

Lemma getUploadById_in_None fid us :
  getUploadById_in fid us = None
  <-> fid ∉ us ≫= (fun eu => upload_id <$> uploads (snd eu)).
Proof.
  induction us as [|[e u] us IH]; cbn.
  - split; [intros _; apply not_elem_of_nil | done].
  - rewrite not_elem_of_app, <- IH, <- list_find_id_None.
    destruct (list_find _ (uploads u)) as [[i up]|]; [|tauto].
    split; [done | by intros [? _]].
Qed.

Lemma getUploadById_in_split fid us up e :
  getUploadById_in fid us = Some (up, e) ->
  exists us1 u us2 i,
    us = us1 ++ (e, u) :: us2 /\
    getUploadById_in fid us1 = None /\
    list_find (fun x => upload_id x = fid) (uploads u) = Some (i, up).
Proof.
  induction us as [|[e0 u0] us IH]; cbn; [done|].
  destruct (list_find _ (uploads u0)) as [[i x]|] eqn:Hf.
  - intros [= -> ->]. by exists [], u0, us, i.
  - intros (us1 & u & us2 & i & -> & Hn & Hi)%IH.
    exists ((e0, u0) :: us1), u, us2, i. cbn. by rewrite Hf.
Qed.


Lemma getUploadById_in_head fid e u u' us :
  snd <$> list_find (fun x => upload_id x = fid) (uploads u')
  = snd <$> list_find (fun x => upload_id x = fid) (uploads u) ->
  getUploadById_in fid ((e, u') :: us) = getUploadById_in fid ((e, u) :: us).
Proof.
  cbn. intros H.
  destruct (list_find _ (uploads u')) as [[i x]|],
           (list_find _ (uploads u)) as [[i' x']|]; cbn in H; congruence.
Qed.

Lemma getUploadById_in_middle fid us1 e u u' us2 :
  snd <$> list_find (fun x => upload_id x = fid) (uploads u')
  = snd <$> list_find (fun x => upload_id x = fid) (uploads u) ->
  getUploadById_in fid (us1 ++ (e, u') :: us2)
  = getUploadById_in fid (us1 ++ (e, u) :: us2).
Proof.
  intros H. rewrite !getUploadById_in_app.
  by rewrite (getUploadById_in_head fid e u u' us2 H).
Qed.

Lemma removeUpload_in_app fid us1 us2 :
  getUploadById_in fid us1 = None ->
  removeUpload_in fid (us1 ++ us2)
  = match removeUpload_in fid us2 with
    | Some (r, up) => Some (us1 ++ r, up)
    | None => None
    end.
Proof.
  induction us1 as [|[e u] us1 IH]; cbn.
  - intros _. by destruct (removeUpload_in fid us2) as [[r up]|].
  - destruct (list_find _ (uploads u)) as [[i x]|]; [done|].
    intros Hn. rewrite (IH Hn). by destruct (removeUpload_in fid us2) as [[r up]|].
Qed.

Lemma updateDownloadCount_in_app fid us1 us2 :
  getUploadById_in fid us1 = None ->
  updateDownloadCount_in fid (us1 ++ us2)
  = match updateDownloadCount_in fid us2 with
    | Some (r, n) => Some (us1 ++ r, n)
    | None => None
    end.
Proof.
  induction us1 as [|[e u] us1 IH]; cbn.
  - intros _. by destruct (updateDownloadCount_in fid us2) as [[r n]|].
  - destruct (list_find _ (uploads u)) as [[i x]|]; [done|].
    intros Hn. rewrite (IH Hn).
    by destruct (updateDownloadCount_in fid us2) as [[r n]|].
Qed.

Lemma removeUpload_in_None fid us :
  getUploadById_in fid us = None -> removeUpload_in fid us = None.
Proof.
  intros H. rewrite <- (app_nil_r us). by rewrite removeUpload_in_app.
Qed.

Lemma updateDownloadCount_in_None fid us :
  getUploadById_in fid us = None -> updateDownloadCount_in fid us = None.
Proof.
  intros H. rewrite <- (app_nil_r us). by rewrite updateDownloadCount_in_app.
Qed.

Lemma list_find_delete_other {A} (P : A -> Prop) `{!forall x, Decision (P x)}
    (l : list A) : forall i x,
  l !! i = Some x -> ~ P x ->
  snd <$> list_find P (delete i l) = snd <$> list_find P l.
Proof.
  induction l as [|y l IH]; intros [|i] x Hl Hx; cbn in *; try done.
  - injection Hl as ->. rewrite decide_False by done.
    destruct (list_find P l) as [[j z]|]; done.
  - destruct (decide (P y)); [done|].
    specialize (IH i x Hl Hx).
    destruct (list_find P (delete i l)) as [[j z]|],
             (list_find P l) as [[j' z']|]; cbn in *; congruence.
Qed.

Lemma list_find_alter_other {A} (P : A -> Prop) `{!forall x, Decision (P x)}
    (f : A -> A) (l : list A) : forall i x,
  l !! i = Some x -> ~ P x -> ~ P (f x) ->
  snd <$> list_find P (alter f i l) = snd <$> list_find P l.
Proof.
  induction l as [|y l IH]; intros [|i] x Hl Hx Hfx; cbn in *; try done.
  - injection Hl as ->. by rewrite !decide_False by done.
  - destruct (decide (P y)); [done|].
    specialize (IH i x Hl Hx Hfx).
    destruct (list_find P (alter f i l)) as [[j z]|],
             (list_find P l) as [[j' z']|]; cbn in *; congruence.
Qed.

Lemma list_find_alter_same {A} (P : A -> Prop) `{!forall x, Decision (P x)}
    (f : A -> A) (l : list A) : forall i x,
  list_find P l = Some (i, x) -> P (f x) ->
  list_find P (alter f i l) = Some (i, f x).
Proof.
  intros i x (Hl & Hx & Hlt)%list_find_Some Hfx. apply list_find_Some.
  split; [by rewrite list_lookup_alter_eq, Hl|]. split; [done|].
  intros j y Hj Hji. rewrite list_lookup_alter_ne in Hj by lia. by eapply Hlt.
Qed.

Lemma list_find_insert_same {A} (P : A -> Prop) `{!forall x, Decision (P x)}
    (l : list A) i x y :
  list_find P l = Some (i, x) -> P y ->
  list_find P (<[i := y]> l) = Some (i, y).
Proof.
  intros (Hl & Hx & Hlt)%list_find_Some Hy. apply list_find_Some.
  split; [apply list_lookup_insert_eq; by eapply lookup_lt_Some|]. split; [done|].
  intros j z Hj Hji. rewrite list_lookup_insert_ne in Hj by lia. by eapply Hlt.
Qed.

Lemma delete_NoDup_not_elem_of (l : list string) i x :
  NoDup l -> l !! i = Some x -> x ∉ delete i l.
Proof.
  intros Hnd Hl. rewrite delete_take_drop.
  rewrite <- (take_drop_middle l i x Hl) in Hnd.
  apply NoDup_app in Hnd as (_ & H1 & H2). apply NoDup_cons in H2 as [H2 _].
  apply not_elem_of_app. split; [|done].
  intros Hin. apply (H1 x Hin). by left.
Qed.

Lemma list_find_insert_other {A} (P : A -> Prop) `{!forall x, Decision (P x)}
    (y : A) (l : list A) : forall i x,
  l !! i = Some x -> ~ P x -> ~ P y ->
  snd <$> list_find P (<[i := y]> l) = snd <$> list_find P l.
Proof.
  induction l as [|z l IH]; intros [|i] x Hl Hx Hy; cbn in *; try done.
  - injection Hl as ->. by rewrite !decide_False by done.
  - destruct (decide (P z)); [done|].
    specialize (IH i x Hl Hx Hy).
    destruct (list_find P (<[i := y]> l)) as [[j w]|],
             (list_find P l) as [[j' w']|]; cbn in *; congruence.
Qed.

Lemma totalUploads_middle us1 e (u u' : User) us2 n :
  (length (uploads u') + n)%nat = length (uploads u) ->
  (sum_list_with (fun eu : string * User => length (uploads (snd eu))) (us1 ++ (e, u') :: us2) + n)%nat
  = sum_list_with (fun eu : string * User => length (uploads (snd eu))) (us1 ++ (e, u) :: us2).
Proof. intros H. rewrite !sum_list_with_app. cbn. lia. Qed.

Lemma removeUpload_in_found fid us up e :
  getUploadById_in fid us = Some (up, e) ->
  exists us1 u us2 i,
    us = us1 ++ (e, u) :: us2 /\
    getUploadById_in fid us1 = None /\
    uploads u !! i = Some up /\ upload_id up = fid /\
    removeUpload_in fid us
    = Some (us1 ++ (e, set_uploads (delete i (uploads u)) u) :: us2, up).
Proof.
  intros (us1 & u & us2 & i & Hus & Hn & Hi)%getUploadById_in_split.
  destruct (list_find_id _ _ _ _ Hi) as [Hl Hid].
  exists us1, u, us2, i. repeat split; try done.
  rewrite Hus, removeUpload_in_app by done. cbn. by rewrite Hi.
Qed.

Lemma removeUpload_other fid fid' d :
  fid' <> fid ->
  getUploadById fid' (fst (removeUpload fid d)) = getUploadById fid' d.
Proof.
  intros Hne. unfold getUploadById, removeUpload.
  destruct (getUploadById_in fid (users d)) as [[up e]|] eqn:Hg.
  - apply removeUpload_in_found in Hg as (us1 & u & us2 & i & Hus & Hn & Hl & Hid & ->).
    cbn. rewrite Hus. apply getUploadById_in_middle. cbn.
    apply (list_find_delete_other _ _ _ up); [done | congruence].
  - by rewrite removeUpload_in_None.
Qed.

Lemma removeUpload_gone fid d :
  NoDup (upload_ids d) -> getUploadById fid (fst (removeUpload fid d)) = None.
Proof.
  unfold getUploadById, removeUpload, upload_ids. intros Hnd.
  destruct (getUploadById_in fid (users d)) as [[up e]|] eqn:Hg.
  - apply removeUpload_in_found in Hg as (us1 & u & us2 & i & Hus & Hn & Hl & Hid & ->).
    cbn. rewrite Hus in Hnd. apply getUploadById_in_None.
    apply getUploadById_in_None in Hn.
    rewrite bind_app, bind_cons in Hnd |- *. cbn in Hnd |- *.
    apply NoDup_app in Hnd as (_ & _ & Hnd).
    apply NoDup_app in Hnd as (Hu & Hdis & _).
    assert (Hfid : (upload_id <$> uploads u) !! i = Some fid)
      by (by rewrite list_lookup_fmap, Hl; cbn; rewrite Hid).
    rewrite !not_elem_of_app. split; [done|]. split.
    + rewrite list_fmap_delete. by apply delete_NoDup_not_elem_of.
    + apply Hdis. by eapply list_elem_of_lookup_2.
  - by rewrite removeUpload_in_None.
Qed.

(** X13.  [removeUpload] of an id that [getUploadById] resolves returns
    that very upload and takes exactly one entry out: every other id
    resolves as before, the number of uploads drops by one, and when
    the ids are distinct the id no longer resolves. *)
Theorem removeUpload_removes_one fid d up e :
  getUploadById fid d = Some (up, e) ->
  snd (removeUpload fid d) = Some up /\
  (forall fid', fid' <> fid ->
     getUploadById fid' (fst (removeUpload fid d)) = getUploadById fid' d) /\
  (totalUploads (getStats (fst (removeUpload fid d))) + 1)%nat
  = totalUploads (getStats d) /\
  (NoDup (upload_ids d) -> getUploadById fid (fst (removeUpload fid d)) = None).
Proof.
  intros Hg. split; [|split; [|split]].
  - unfold getUploadById, removeUpload in *.
    by apply removeUpload_in_found in Hg as (? & ? & ? & ? & _ & _ & _ & _ & ->).
  - intros fid'. apply removeUpload_other.
  - unfold getUploadById, removeUpload, getStats in *.
    apply removeUpload_in_found in Hg as (us1 & u & us2 & i & Hus & Hn & Hl & Hid & ->).
    cbn. rewrite Hus. apply totalUploads_middle. cbn.
    rewrite length_delete by done. apply lookup_lt_Some in Hl. lia.
  - apply removeUpload_gone.
Qed.

Lemma removeUpload_removes_one_witness :
  getUploadById "f1" sample_db = Some (song, "alice@example.org") /\
  snd (removeUpload "f1" sample_db) = Some song /\
  getUploadById "f2" (fst (removeUpload "f1" sample_db))
  = Some (notes, "alice@example.org") /\
  totalUploads (getStats (fst (removeUpload "f1" sample_db))) = 2%nat.
Proof.
  assert (H : getUploadById "f1" sample_db = Some (song, "alice@example.org"))
    by (vm_compute; reflexivity).
  destruct (removeUpload_removes_one "f1" sample_db _ _ H) as (H1 & H2 & H3 & _).
  split; [exact H|]. split; [exact H1|]. split.
  - rewrite (H2 "f2") by discriminate. vm_compute; reflexivity.
  - assert (totalUploads (getStats sample_db) = 3%nat) by (vm_compute; reflexivity).
    lia.
Defined.

(** X14.  [updateDownloadCount] of an id that [getUploadById] resolves
    returns the stored count plus one, which is what [getUploadById]
    shows afterwards on the same upload of the same user; every other
    id resolves as before. *)
Theorem updateDownloadCount_counts_one fid d up e :
  getUploadById fid d = Some (up, e) ->
  snd (updateDownloadCount fid d) = (downloadCount up + 1)%N /\
  getUploadById fid (fst (updateDownloadCount fid d))
  = Some (set_downloadCount (downloadCount up + 1) up, e) /\
  (forall fid', fid' <> fid ->
     getUploadById fid' (fst (updateDownloadCount fid d)) = getUploadById fid' d).
Proof.
  unfold getUploadById, updateDownloadCount.
  intros (us1 & u & us2 & i & Hus & Hn & Hi)%getUploadById_in_split.
  destruct (list_find_id _ _ _ _ Hi) as [Hl Hid].
  set (bump := fun x => set_downloadCount (downloadCount x + 1) x).
  assert (Hup : updateDownloadCount_in fid (users d)
                = Some (us1 ++ (e, set_uploads (alter bump i (uploads u)) u) :: us2,
                        (downloadCount up + 1)%N)).
  { rewrite Hus, updateDownloadCount_in_app by done. cbn. by rewrite Hi. }
  rewrite Hup. cbn. rewrite Hus. repeat split.
  - rewrite getUploadById_in_app, Hn. cbn.
    by rewrite (list_find_alter_same _ bump _ i up Hi Hid).
  - intros fid' Hne. apply getUploadById_in_middle. cbn.
    apply (list_find_alter_other _ _ _ _ up); [done | congruence | cbn; congruence].
Qed.

Lemma updateDownloadCount_counts_one_witness :
  getUploadById "f3" sample_db = Some (cover, "bob@example.org") /\
  snd (updateDownloadCount "f3" sample_db) = 2%N /\
  getUploadById "f3" (fst (updateDownloadCount "f3" sample_db))
  = Some (set_downloadCount 2 cover, "bob@example.org").
Proof.
  assert (H : getUploadById "f3" sample_db = Some (cover, "bob@example.org"))
    by (vm_compute; reflexivity).
  destruct (updateDownloadCount_counts_one "f3" sample_db _ _ H) as (H1 & H2 & _).
  split; [exact H|]. split; [exact H1 | exact H2].
Defined.

Lemma uploads_of_user_in_ids e u us x :
  obj_get e us = Some u -> x ∈ upload_id <$> uploads u ->
  x ∈ us ≫= (fun eu => upload_id <$> uploads (snd eu)).
Proof.
  intros Hget%obj_get_elem_of Hx. apply list_elem_of_bind. by exists (e, u).
Qed.

(** X15.  An id that [getUploadById] does not resolve is ignored by
    the three methods that change an upload: [removeUpload] returns
    [null], [updateDownloadCount] returns 0 and [replaceFile] returns
    [null], each leaving the data as it was. *)
Theorem unknown_id_changes_nothing extname_lower fid d :
  getUploadById fid d = None ->
  removeUpload fid d = (d, None) /\
  updateDownloadCount fid d = (d, 0%N) /\
  forall f e t, replaceFile extname_lower fid f e t d = (d, None).
Proof.
  unfold getUploadById, removeUpload, updateDownloadCount, replaceFile.
  intros Hn. rewrite removeUpload_in_None, updateDownloadCount_in_None by done.
  repeat split. intros f e t.
  destruct (obj_get e (users d)) as [u|] eqn:Hget; [|done].
  destruct (list_find _ (uploads u)) as [[i x]|] eqn:Hf; [|done].
  apply getUploadById_in_None in Hn. destruct Hn.
  apply (uploads_of_user_in_ids e u); [done|].
  apply list_find_id in Hf as [Hl Hid]. apply list_elem_of_fmap.
  exists x. split; [done | by eapply list_elem_of_lookup_2].
Qed.

Lemma unknown_id_changes_nothing_witness :
  getUploadById "f9" sample_db = None /\
  removeUpload "f9" sample_db = (sample_db, None) /\
  updateDownloadCount "f9" sample_db = (sample_db, 0%N) /\
  replaceFile extname_of_samples "f9" demo "alice@example.org" 6000 sample_db
  = (sample_db, None).
Proof.
  assert (H : getUploadById "f9" sample_db = None) by (vm_compute; reflexivity).
  destruct (unknown_id_changes_nothing extname_of_samples "f9" sample_db H)
    as (H1 & H2 & H3).
  split; [exact H|]. split; [exact H1|]. split; [exact H2 | apply H3].
Defined.

(** X16.  [replaceFile] acts for the owner only.  With distinct keys
    and distinct upload ids, the user whom [getUploadById] names as
    uploader gets the entry replaced in place, under the same id, with
    the expiry and the privacy of the old one and a download count of
    0, every other id resolving as before; for any other caller it
    returns [null] and changes nothing. *)
Theorem replaceFile_owner_only extname_lower fid f e t d old owner :
  NoDup (fst <$> users d) ->
  NoDup (upload_ids d) ->
  getUploadById fid d = Some (old, owner) ->
  if decide (e = owner) then
    snd (replaceFile extname_lower fid f e t d)
    = Some (replaced_upload extname_lower old f t) /\
    getUploadById fid (fst (replaceFile extname_lower fid f e t d))
    = Some (replaced_upload extname_lower old f t, owner) /\
    (forall fid', fid' <> fid ->
       getUploadById fid' (fst (replaceFile extname_lower fid f e t d))
       = getUploadById fid' d)
  else replaceFile extname_lower fid f e t d = (d, None).
Proof.
  unfold getUploadById, replaceFile, upload_ids.
  intros Hkeys Hids (us1 & u & us2 & i & Hus & Hn & Hi)%getUploadById_in_split.
  destruct (list_find_id _ _ _ _ Hi) as [Hl Hid].
  rewrite Hus in Hkeys, Hids |- *.
  destruct (decide (e = owner)) as [-> | Hne].
  - assert (Hown : obj_get owner us1 = None).
    { apply obj_get_None. rewrite fmap_app in Hkeys.
      apply NoDup_app in Hkeys as (_ & Hdis & _).
      intros Hin. apply (Hdis owner Hin). by left. }
    rewrite obj_get_app, Hown. cbn. rewrite decide_True by done. rewrite Hi. cbn.
    rewrite obj_update_app, Hown. cbn. rewrite decide_True by done.
    repeat split.
    + rewrite getUploadById_in_app, Hn. cbn.
      by rewrite (list_find_insert_same _ _ i old
                    (replaced_upload extname_lower old f t) Hi Hid).
    + intros fid' Hne. apply getUploadById_in_middle. cbn.
      apply (list_find_insert_other _ _ _ _ old); [done | congruence | cbn; congruence].
  - destruct (obj_get e (us1 ++ (owner, u) :: us2)) as [u'|] eqn:Hget; [|done].
    destruct (list_find _ (uploads u')) as [[j x]|] eqn:Hf; [|done].
    exfalso.
    assert (Hx : fid ∈ upload_id <$> uploads u').
    { apply list_find_id in Hf as [Hl' Hid']. apply list_elem_of_fmap.
      exists x. split; [done | by eapply list_elem_of_lookup_2]. }
    rewrite obj_get_app in Hget.
    destruct (obj_get e us1) as [u1|] eqn:Hget1.
    + injection Hget as ->. apply getUploadById_in_None in Hn. apply Hn.
      by apply (uploads_of_user_in_ids e u').
    + cbn in Hget. rewrite decide_False in Hget by congruence.
      rewrite bind_app, bind_cons in Hids. cbn in Hids.
      apply NoDup_app in Hids as (_ & _ & Hids).
      apply NoDup_app in Hids as (_ & Hdis & _).
      apply (Hdis fid).
      * apply list_elem_of_fmap. exists old.
        split; [done | by eapply list_elem_of_lookup_2].
      * by apply (uploads_of_user_in_ids e u').
Qed.

Lemma replaceFile_owner_only_witness :
  NoDup (fst <$> users sample_db) /\
  NoDup (upload_ids sample_db) /\
  getUploadById "f1" sample_db = Some (song, "alice@example.org") /\
  replaceFile extname_of_samples "f1" demo "bob@example.org" 6000 sample_db
  = (sample_db, None) /\
  snd (replaceFile extname_of_samples "f1" demo "alice@example.org" 6000 sample_db)
  = Some (mkUpload "f1" "demo.WAV" "1700000000003-demo.WAV" 7000 6000
            (Some 5000) 0 false "audio").
Proof.
  assert (Hk : NoDup (fst <$> users sample_db))
    by (apply (bool_decide_unpack _); vm_compute; reflexivity).
  assert (Hi : NoDup (upload_ids sample_db))
    by (apply (bool_decide_unpack _); vm_compute; reflexivity).
  assert (H : getUploadById "f1" sample_db = Some (song, "alice@example.org"))
    by (vm_compute; reflexivity).
  split; [exact Hk|]. split; [exact Hi|]. split; [exact H|]. split.
  - exact (replaceFile_owner_only extname_of_samples "f1" demo "bob@example.org"
             6000 sample_db song "alice@example.org" Hk Hi H).
  - exact (proj1 (replaceFile_owner_only extname_of_samples "f1" demo
                    "alice@example.org" 6000 sample_db song "alice@example.org"
                    Hk Hi H)).
Defined.

(** ** Expired files *)

Lemma list_find_filter_None {A} (P Q : A -> Prop)
    `{!forall x, Decision (P x)} `{!forall x, Decision (Q x)} (l : list A) :
  list_find P l = None -> list_find P (filter Q l) = None.
Proof.
  rewrite !list_find_None, !Forall_forall.
  intros Hall x [_ Hin]%list_elem_of_filter. by apply Hall.
Qed.

Lemma list_find_filter_Some {A} (P Q : A -> Prop)
    `{!forall x, Decision (P x)} `{!forall x, Decision (Q x)} (l : list A) :
  forall i x, list_find P l = Some (i, x) -> Q x ->
  exists j, list_find P (filter Q l) = Some (j, x).
Proof.
  induction l as [|y l IH]; intros i x; [done|].
  rewrite filter_cons.
  change (list_find P (y :: l))
    with (if decide (P y) then Some (0%nat, y) else prod_map S id <$> list_find P l).
  destruct (decide (P y)) as [Hy | Hy].
  - intros [= <- <-] Hq. rewrite decide_True by done. cbn.
    rewrite decide_True by done. by exists 0%nat.
  - destruct (list_find P l) as [[j z]|] eqn:Hf; [|done].
    cbn. intros [= <- <-] Hq. destruct (IH j z eq_refl Hq) as [k Hk].
    destruct (decide (Q y)).
    + cbn. rewrite decide_False by done. rewrite Hk. by exists (S k).
    + by exists k.
Qed.

Lemma filter_filter_same {A} (Q : A -> Prop) `{!forall x, Decision (Q x)}
    (l : list A) :
  filter Q (filter Q l) = filter Q l.
Proof.
  induction l as [|y l IH]; [done|]. rewrite filter_cons.
  destruct (decide (Q y)); [|done].
  rewrite filter_cons_True by done. by rewrite IH.
Qed.

(** X17.  [removeExpiredFiles] at a given time: the count it returns
    is the number of uploads that left the database; what
    [getUploadById] resolves afterwards is not expired; an upload that
    resolved before and is not expired resolves as before; and a
    second run at the same time removes nothing. *)
Theorem removeExpiredFiles_sweeps now d :
  (totalUploads (getStats (fst (removeExpiredFiles now d)))
   + snd (removeExpiredFiles now d))%nat = totalUploads (getStats d) /\
  (forall fid up e,
     getUploadById fid (fst (removeExpiredFiles now d)) = Some (up, e) ->
     expired now up = false) /\
  (forall fid up e,
     getUploadById fid d = Some (up, e) -> expired now up = false ->
     getUploadById fid (fst (removeExpiredFiles now d)) = Some (up, e)) /\
  removeExpiredFiles now (fst (removeExpiredFiles now d))
  = (fst (removeExpiredFiles now d), 0%nat).
Proof.
  unfold removeExpiredFiles, getStats, getUploadById, set_users.
  destruct d as [us cs]. cbn. repeat split.
  - induction us as [|[e u] us IH]; cbn; [done|].
    pose proof (length_filter (fun up => expired now up = false) (uploads u)). lia.
  - intros fid up e. induction us as [|[e0 u0] us IH]; cbn; [done|].
    destruct (list_find _ (filter _ (uploads u0))) as [[i x]|] eqn:Hf; [|done].
    intros [= -> ->]. apply list_find_Some in Hf as (Hl & _ & _).
    apply list_elem_of_lookup_2 in Hl. by apply list_elem_of_filter in Hl as [? _].
  - intros fid up e. induction us as [|[e0 u0] us IH]; cbn; [done|].
    destruct (list_find _ (uploads u0)) as [[i x]|] eqn:Hf.
    + intros [= -> ->] Hq.
      destruct (list_find_filter_Some _ (fun up => expired now up = false)
                  _ _ _ Hf Hq) as [j ->]. done.
    + intros H Hq.
      rewrite (list_find_filter_None _ (fun up => expired now up = false) _ Hf).
      by apply IH.
  - f_equal.
    + f_equal. induction us as [|[e u] us IH]; cbn; [done|].
      by rewrite filter_filter_same, IH.
    + induction us as [|[e u] us IH]; cbn; [done|].
      rewrite filter_filter_same, IH. lia.
Qed.

(** ** Approval *)

Lemma unapproved_absent e (us : list (string * User)) :
  e ∉ fst <$> us ->
  filter (fun x : string * string * Z => fst (fst x) <> e)
    ((fun eu => (fst eu, name (snd eu), createdAt (snd eu)))
       <$> filter (fun eu => approved (snd eu) = false) us)
  = (fun eu => (fst eu, name (snd eu), createdAt (snd eu)))
      <$> filter (fun eu => approved (snd eu) = false) us.
Proof.
  induction us as [|[k v] us IH]; [done|]. intros [Hk He]%not_elem_of_cons.
  rewrite filter_cons. cbn in *. destruct (decide (approved v = false)).
  - rewrite fmap_cons, filter_cons_True by (cbn; congruence). by rewrite IH.
  - by apply IH.
Qed.

Lemma unapproved_update e t (us : list (string * User)) :
  NoDup (fst <$> us) ->
  (fun eu => (fst eu, name (snd eu), createdAt (snd eu)))
    <$> filter (fun eu => approved (snd eu) = false)
          (obj_update e (set_approved t) us)
  = filter (fun x : string * string * Z => fst (fst x) <> e)
      ((fun eu => (fst eu, name (snd eu), createdAt (snd eu)))
         <$> filter (fun eu => approved (snd eu) = false) us).
Proof.
  induction us as [|[k v] us IH]; [done|]. intros [Hk Hnd]%NoDup_cons.
  cbn [obj_update]. destruct (decide (k = e)) as [-> | Hne].
  - rewrite filter_cons_False by (cbn; congruence).
    rewrite (filter_cons _ (e, v)). destruct (decide _).
    + rewrite fmap_cons, filter_cons_False by (cbn; tauto).
      by rewrite unapproved_absent.
    + by rewrite unapproved_absent.
  - rewrite !(filter_cons _ (k, v)). destruct (decide _).
    + rewrite !fmap_cons, filter_cons_True by (cbn; congruence). by rewrite IH.
    + by apply IH.
Qed.

(** X18.  For an address that is no name of [Object.prototype],
    [approveUser] tells whether the user exists.  Afterwards that user
    is approved at the time of the call, also when an approval was on
    record already; the status of every other such address is as
    before; and the list of [getUnapprovedUsers] is the earlier one
    without that user, in the same order. *)
Theorem approveUser_approves e t d :
  plain_key e ->
  NoDup (fst <$> users d) ->
  snd (approveUser e t d)
  = match getUserApprovalStatus e d with Some _ => true | None => false end /\
  (forall e',
     plain_key e' ->
     getUserApprovalStatus e' (fst (approveUser e t d))
     = match getUserApprovalStatus e' d with
       | Some (a, n, c, at0) =>
           if decide (e' = e) then Some (true, n, c, Some t) else Some (a, n, c, at0)
       | None => None
       end) /\
  getUnapprovedUsers (fst (approveUser e t d))
  = filter (fun x => fst (fst x) <> e) (getUnapprovedUsers d).
Proof.
  intros _ Hnd. unfold approveUser, getUserApprovalStatus, getUnapprovedUsers.
  destruct (obj_get e (users d)) as [u|] eqn:Hget; cbn; repeat split.
  - intros e' _. rewrite obj_get_update. destruct (decide (e' = e)) as [-> | Hne].
    + by rewrite Hget.
    + by destruct (obj_get e' (users d)).
  - by apply unapproved_update.
  - intros e' _. destruct (obj_get e' (users d)) as [u'|] eqn:Hget'; [|done].
    rewrite decide_False; [done | congruence].
  - symmetry. apply unapproved_absent. by apply obj_get_None.
Qed.

Lemma approveUser_approves_witness :
  plain_key "bob@example.org" /\
  NoDup (fst <$> users sample_db) /\
  snd (approveUser "bob@example.org" 800 sample_db) = true /\
  getUserApprovalStatus "bob@example.org"
    (fst (approveUser "bob@example.org" 800 sample_db))
  = Some (true, "Bob", 700, Some 800) /\
  getUnapprovedUsers sample_db = [("bob@example.org", "Bob", 700)] /\
  getUnapprovedUsers (fst (approveUser "bob@example.org" 800 sample_db)) = [].
Proof.
  assert (Hk : NoDup (fst <$> users sample_db))
    by (apply (bool_decide_unpack _); vm_compute; reflexivity).
  assert (Hb : plain_key "bob@example.org")
    by (apply (bool_decide_unpack _); vm_compute; reflexivity).
  destruct (approveUser_approves "bob@example.org" 800 sample_db Hb Hk)
    as (H1 & H2 & H3).
  split; [exact Hb|].
  split; [exact Hk|]. split; [exact H1|]. split; [exact (H2 "bob@example.org" Hb)|].
  split; [vm_compute; reflexivity|]. rewrite H3. vm_compute; reflexivity.
Defined.

(** ** Collections *)

Lemma omap_ext_elem {A B} (f g : A -> option B) (l : list A) :
  (forall x, x ∈ l -> f x = g x) -> omap f l = omap g l.
Proof.
  induction l as [|x l IH]; [done|]. intros H. cbn.
  rewrite (H x) by (by left). rewrite IH; [done|].
  intros y Hy. apply H. by right.
Qed.

Lemma obj_get_set {A} k k' (v : A) (o : list (string * A)) :
  obj_get k' (obj_set k v o) = if decide (k' = k) then Some v else obj_get k' o.
Proof.
  unfold obj_set. destruct (obj_get k o) as [v0|] eqn:Hget.
  - rewrite obj_get_update. destruct (decide (k' = k)) as [-> | Hne]; [|done].
    by rewrite Hget.
  - rewrite obj_get_app. cbn. destruct (decide (k' = k)) as [-> | Hne].
    + rewrite Hget. by rewrite decide_True.
    + rewrite decide_False by congruence. by destruct (obj_get k' o).
Qed.

Lemma obj_get_delete_ne {A} k k' (o : list (string * A)) :
  k' <> k -> obj_get k' (obj_delete k o) = obj_get k' o.
Proof.
  intros Hne. induction o as [|[k0 v] o IH]; cbn; [done|].
  destruct (decide (k0 = k)) as [-> | Hk].
  - by rewrite decide_False by congruence.
  - cbn. by rewrite IH.
Qed.

Lemma obj_get_delete_eq {A} k (o : list (string * A)) :
  NoDup (fst <$> o) -> obj_get k (obj_delete k o) = None.
Proof.
  induction o as [|[k0 v] o IH]; cbn; [done|]. intros [Hk Hnd]%NoDup_cons.
  destruct (decide (k0 = k)) as [-> | Hne].
  - by apply obj_get_None.
  - cbn. rewrite decide_False by done. by apply IH.
Qed.

(** X19.  [createCollection] for a known user under a fresh uuid
    returns the new collection: public, without files, created by the
    caller.  [getCollection] finds it under the uuid, and it comes last
    in the caller's [getUserCollections], after those listed before. *)
Theorem createCollection_then_listed e nm descr uuid t d u :
  obj_get e (users d) = Some u ->
  obj_get uuid (collections d) = None ->
  uuid ∉ default [] (user_collections u) ->
  snd (createCollection e nm descr uuid t d)
  = Returns (mkCollection uuid nm descr e t [] true) /\
  getCollection uuid (fst (createCollection e nm descr uuid t d))
  = Some (mkCollection uuid nm descr e t [] true, []) /\
  getUserCollections e (fst (createCollection e nm descr uuid t d))
  = getUserCollections e d ++ [(mkCollection uuid nm descr e t [] true, [])].
Proof.
  intros Hu Hfresh Hnew. unfold createCollection. cbn. rewrite Hu. cbn.
  split; [done|]. unfold getCollection, getUserCollections. cbn.
  rewrite obj_get_set, decide_True by done. split; [done|].
  rewrite obj_get_update, decide_True, Hu by done. cbn.
  rewrite omap_app. f_equal.
  - destruct (user_collections u) as [ids|] eqn:Hids; [|done]. cbn in Hnew |- *.
    apply omap_ext_elem. intros cid Hcid. unfold getCollection. cbn.
    rewrite obj_get_set, decide_False by (intros ->; done).
    destruct (obj_get cid (collections d)) as [c|]; [|done]. do 2 f_equal.
    apply omap_ext_elem. intros fid _. unfold getUploadById. cbn.
    apply getUploadById_in_update. done.
  - cbn. unfold getCollection. cbn. by rewrite obj_get_set, decide_True.
Qed.

Lemma createCollection_then_listed_witness :
  obj_get "bob@example.org" (users sample_db) = Some bob /\
  obj_get "c3" (collections sample_db) = None /\
  ("c3" ∉ default [] (user_collections bob)) /\
  getUserCollections "bob@example.org"
    (fst (createCollection "bob@example.org" "Covers" "" "c3" 4000 sample_db))
  = [(mkCollection "c3" "Covers" "" "bob@example.org" 4000 [] true, [])].
Proof.
  assert (H1 : obj_get "bob@example.org" (users sample_db) = Some bob)
    by (vm_compute; reflexivity).
  assert (H2 : obj_get "c3" (collections sample_db) = None)
    by (vm_compute; reflexivity).
  assert (H3 : "c3" ∉ default [] (user_collections bob))
    by (cbn; apply not_elem_of_nil).
  split; [exact H1|]. split; [exact H2|]. split; [exact H3|].
  exact (proj2 (proj2 (createCollection_then_listed "bob@example.org" "Covers" ""
                         "c3" 4000 sample_db bob H1 H2 H3))).
Defined.

(** X20.  [createCollection] for an e-mail address that is not a user
    throws, and by then the collection is stored: the users are as
    before, but [getCollection] finds the collection under the uuid
    and [getPublicCollections] lists it.  (The address and the uuid
    are no names of [Object.prototype].) *)
Theorem createCollection_unknown_user e nm descr uuid t d :
  plain_key e -> plain_key uuid ->
  obj_get e (users d) = None ->
  (exists msg, snd (createCollection e nm descr uuid t d) = Throws msg) /\
  users (fst (createCollection e nm descr uuid t d)) = users d /\
  getCollection uuid (fst (createCollection e nm descr uuid t d))
  = Some (mkCollection uuid nm descr e t [] true, []) /\
  (mkCollection uuid nm descr e t [] true, [])
    ∈ getPublicCollections (fst (createCollection e nm descr uuid t d)).
Proof.
  intros _ _ Hu. unfold createCollection. cbn. rewrite Hu. cbn.
  split; [by eexists|]. split; [done|].
  unfold getCollection, getPublicCollections. cbn.
  rewrite obj_get_set, decide_True by done. split; [done|].
  apply list_elem_of_fmap.
  exists (uuid, mkCollection uuid nm descr e t [] true). split; [done|].
  apply list_elem_of_filter. split; [done|].
  apply (obj_get_elem_of uuid). by rewrite obj_get_set, decide_True.
Qed.

Lemma createCollection_unknown_user_witness :
  plain_key "carol@example.org" /\ plain_key "c3" /\
  obj_get "carol@example.org" (users sample_db) = None /\
  snd (createCollection "carol@example.org" "Ghost" "" "c3" 4000 sample_db)
  = Throws "Cannot read properties of undefined (reading 'collections')" /\
  getCollection "c3"
    (fst (createCollection "carol@example.org" "Ghost" "" "c3" 4000 sample_db))
  = Some (mkCollection "c3" "Ghost" "" "carol@example.org" 4000 [] true, []).
Proof.
  assert (H : obj_get "carol@example.org" (users sample_db) = None)
    by (vm_compute; reflexivity).
  assert (Hc : plain_key "carol@example.org")
    by (apply (bool_decide_unpack _); vm_compute; reflexivity).
  assert (Hi : plain_key "c3")
    by (apply (bool_decide_unpack _); vm_compute; reflexivity).
  destruct (createCollection_unknown_user "carol@example.org" "Ghost" "" "c3"
              4000 sample_db Hc Hi H) as (_ & _ & H3 & _).
  split; [exact Hc|]. split; [exact Hi|].
  split; [exact H|]. split; [vm_compute; reflexivity | exact H3].
Defined.

(** X21.  [addFileToCollection] of an id the collection does not hold
    appends it and returns [true]; [getCollection] then shows the
    files it showed before followed by the upload the id resolves to,
    if any; a second call returns [false] and changes nothing; and
    [removeFileFromCollection] takes the id out again, which gives the
    data back as they were. *)
Theorem addFileToCollection_once cid fid d c :
  obj_get cid (collections d) = Some c ->
  fid ∉ files c ->
  snd (addFileToCollection cid fid d) = true /\
  getCollection cid (fst (addFileToCollection cid fid d))
  = Some (set_files (files c ++ [fid]) c,
          expand_files d (files c) ++ option_list (getUploadById fid d)) /\
  addFileToCollection cid fid (fst (addFileToCollection cid fid d))
  = (fst (addFileToCollection cid fid d), false) /\
  removeFileFromCollection cid fid (fst (addFileToCollection cid fid d))
  = (d, true).
Proof.
  intros Hc Hfid.
  assert (Hadd : addFileToCollection cid fid d
                 = (set_collections
                      (obj_update cid (fun c' => set_files (files c' ++ [fid]) c')
                         (collections d)) d, true)).
  { unfold addFileToCollection. by rewrite Hc, bool_decide_false by done. }
  rewrite Hadd. cbn [fst snd].
  unfold addFileToCollection, removeFileFromCollection, getCollection.
  cbn [collections set_collections].
  rewrite obj_get_update, decide_True, Hc by done.
  cbn [fmap option_fmap option_map files set_files].
  rewrite bool_decide_true by (apply elem_of_app; right; by left).
  split; [done|]. split; [|split; [done|]].
  - f_equal. f_equal. unfold expand_files. rewrite omap_app. f_equal.
  - f_equal. rewrite obj_update_update. unfold set_collections at 1. cbn.
    rewrite obj_update_same; [by destruct d|].
    intros v Hv. rewrite Hc in Hv. injection Hv as <-.
    cbn. rewrite remove_first_app_last by done. by destruct c.
Qed.

Lemma addFileToCollection_once_witness :
  obj_get "c2" (collections sample_db) = Some drafts /\
  ("f3" ∉ files drafts) /\
  getCollection "c2" (fst (addFileToCollection "c2" "f3" sample_db))
  = Some (set_files ["f2"; "f3"] drafts,
          [(notes, "alice@example.org"); (cover, "bob@example.org")]) /\
  removeFileFromCollection "c2" "f3" (fst (addFileToCollection "c2" "f3" sample_db))
  = (sample_db, true).
Proof.
  assert (H1 : obj_get "c2" (collections sample_db) = Some drafts)
    by (vm_compute; reflexivity).
  assert (H2 : "f3" ∉ files drafts)
    by (apply (bool_decide_unpack _); vm_compute; reflexivity).
  destruct (addFileToCollection_once "c2" "f3" sample_db drafts H1 H2)
    as (_ & H3 & _ & H4).
  split; [exact H1|]. split; [exact H2|]. split; [exact H3 | exact H4].
Defined.





Lemma obj_get_fmap_values {A} k (G : A -> A) (o : list (string * A)) :
  obj_get k ((fun kv => (fst kv, G (snd kv))) <$> o) = G <$> obj_get k o.
Proof.
  induction o as [|[k0 v] o IH]; cbn; [done|]. by destruct (decide (k0 = k)).
Qed.

Lemma getUploadById_in_fmap fid (G : User -> User) us :
  (forall u, uploads (G u) = uploads u) ->
  getUploadById_in fid ((fun eu => (fst eu, G (snd eu))) <$> us)
  = getUploadById_in fid us.
Proof.
  intros HG. induction us as [|[e u] us IH]; cbn; [done|].
  rewrite HG, IH. done.
Qed.

(** X23.  [deleteCollection] acts for the creator only.  With distinct
    collection keys, no double subscription and a caller who is a user,
    a call by the creator returns [true], after which [getCollection]
    no longer finds the collection, no user is subscribed to it, the
    other collections are as before and every upload resolves as
    before; a call by any other user, or for an unknown id, returns
    [false] and changes nothing. *)
Theorem deleteCollection_creator_only cid e d :
  NoDup (fst <$> collections d) ->
  subscriptions_distinct d ->
  is_Some (obj_get e (users d)) ->
  if decide (createdBy <$> obj_get cid (collections d) = Some e) then
    snd (deleteCollection cid e d) = Returns true /\
    getCollection cid (fst (deleteCollection cid e d)) = None /\
    (forall e' u',
       obj_get e' (users (fst (deleteCollection cid e d))) = Some u' ->
       cid ∉ default [] (subscribedCollections u')) /\
    (forall cid', cid' <> cid ->
       obj_get cid' (collections (fst (deleteCollection cid e d)))
       = obj_get cid' (collections d)) /\
    (forall fid,
       getUploadById fid (fst (deleteCollection cid e d)) = getUploadById fid d)
  else deleteCollection cid e d = (d, Returns false).
Proof.
  intros Hkeys Hsubs [u Hu]. unfold deleteCollection.
  destruct (obj_get cid (collections d)) as [c|] eqn:Hc; cbn.
  - destruct (decide (Some (createdBy c) = Some e)) as [[= Hby] | Hby].
    + rewrite bool_decide_true by done. cbn. rewrite Hu. cbn.
      split; [done|]. split; [|split; [|split]].
      * unfold getCollection. cbn. by rewrite obj_get_delete_eq.
      * intros e' u'.
        rewrite (obj_get_fmap_values e'
                   (fun u0 => set_subscribedCollections
                                (remove_first cid <$> subscribedCollections u0) u0)),
                obj_get_update.
        assert (Hdist : forall u0, obj_get e' (users d) = Some u0 ->
                  cid ∉ default [] (remove_first cid <$> subscribedCollections u0)).
        { intros u0 Hu0%obj_get_elem_of.
          unfold subscriptions_distinct in Hsubs.
          rewrite Forall_forall in Hsubs. specialize (Hsubs _ Hu0). cbn in Hsubs.
          destruct (subscribedCollections u0) as [l|]; cbn in *.
          - by apply remove_first_NoDup.
          - apply not_elem_of_nil. }
        destruct (obj_get e' (users d)) as [u0|] eqn:Hu0;
          [|by destruct (decide (e' = e))].
        specialize (Hdist u0 eq_refl).
        destruct (decide (e' = e)); cbn; intros Heq; injection Heq as <-; exact Hdist.
      * intros cid' Hne. by apply obj_get_delete_ne.
      * intros fid. unfold getUploadById. cbn.
        rewrite (getUploadById_in_fmap fid
                   (fun u0 => set_subscribedCollections
                                (remove_first cid <$> subscribedCollections u0) u0))
          by done.
        by apply getUploadById_in_update.
    + rewrite bool_decide_false; [done | congruence].
  - by destruct (decide _).
Qed.

Lemma deleteCollection_creator_only_witness :
  NoDup (fst <$> collections sample_db) /\
  subscriptions_distinct sample_db /\
  is_Some (obj_get "alice@example.org" (users sample_db)) /\
  is_Some (obj_get "bob@example.org" (users sample_db)) /\
  deleteCollection "c1" "bob@example.org" sample_db = (sample_db, Returns false) /\
  snd (deleteCollection "c1" "alice@example.org" sample_db) = Returns true /\
  getCollection "c1" (fst (deleteCollection "c1" "alice@example.org" sample_db))
  = None.
Proof.
  assert (Hk : NoDup (fst <$> collections sample_db))
    by (apply (bool_decide_unpack _); vm_compute; reflexivity).
  assert (Hs : subscriptions_distinct sample_db)
    by (apply (bool_decide_unpack _); vm_compute; reflexivity).
  assert (Ha : is_Some (obj_get "alice@example.org" (users sample_db)))
    by (vm_compute; eexists; reflexivity).
  assert (Hb : is_Some (obj_get "bob@example.org" (users sample_db)))
    by (vm_compute; eexists; reflexivity).
  split; [exact Hk|]. split; [exact Hs|]. split; [exact Ha|]. split; [exact Hb|].
  split.
  - exact (deleteCollection_creator_only "c1" "bob@example.org" sample_db Hk Hs Hb).
  - pose proof (deleteCollection_creator_only "c1" "alice@example.org" sample_db
                  Hk Hs Ha) as H.
    cbn in H. destruct H as (H1 & H2 & _). split; [exact H1 | exact H2].
Defined.

(** ** Subscriptions *)

Section Subscriptions.

Variable get : User -> option (list string).
Variable set : option (list string) -> User -> User.
Variable prop : string.
Hypothesis get_set : forall v u, get (set v u) = v.
Hypothesis set_get : forall u, set (get u) u = u.
Hypothesis set_set : forall v w u, set v (set w u) = set v u.

Lemma subscribe_round_trip e x d u l :
  obj_get e (users d) = Some u -> get u = Some l -> x ∉ l ->
  snd (subscribe get set prop e x d) = Returns true /\
  subscribe get set prop e x (fst (subscribe get set prop e x d))
  = (fst (subscribe get set prop e x d), Returns false) /\
  unsubscribe get set prop e x (fst (subscribe get set prop e x d))
  = (d, Returns true) /\
  unsubscribe get set prop e x d = (d, Returns false).
Proof.
  intros Hu Hl Hx.
  assert (Hsub : subscribe get set prop e x d
                 = (set_users (obj_update e (set (Some (l ++ [x]))) (users d)) d,
                    Returns true)).
  { unfold subscribe. by rewrite Hu, Hl, bool_decide_false by done. }
  rewrite Hsub. cbn [fst snd]. unfold subscribe, unsubscribe. cbn [users set_users].
  rewrite obj_get_update, decide_True, Hu by done. cbn [fmap option_fmap option_map].
  rewrite get_set, Hl.
  rewrite bool_decide_true by (apply elem_of_app; right; by left).
  rewrite bool_decide_false by done.
  split; [done|]. split; [done|]. split; [|done]. f_equal.
  rewrite obj_update_update. unfold set_users at 1. cbn.
  rewrite obj_update_same; [by destruct d|].
  intros v Hv. rewrite Hu in Hv. injection Hv as <-.
  rewrite set_set, remove_first_app_last by done. rewrite <- Hl. apply set_get.
Qed.

End Subscriptions.

(** X24.  Subscribing and unsubscribing undo each other.  For a user
    who has a list of subscribed files and is not subscribed to a file,
    [subscribeToFile] returns [true], a second call returns [false]
    and changes nothing, and [unsubscribeFromFile] then returns [true]
    and gives the data back as they were, while on the data as they
    were it returns [false].  The same holds of
    [subscribeToCollection] and [unsubscribeFromCollection] on the
    list of subscribed collections. *)
Theorem subscribe_then_unsubscribe e x y d u lf lc :
  obj_get e (users d) = Some u ->
  subscribedFiles u = Some lf -> x ∉ lf ->
  subscribedCollections u = Some lc -> y ∉ lc ->
  (snd (subscribeToFile e x d) = Returns true /\
   subscribeToFile e x (fst (subscribeToFile e x d))
   = (fst (subscribeToFile e x d), Returns false) /\
   unsubscribeFromFile e x (fst (subscribeToFile e x d)) = (d, Returns true) /\
   unsubscribeFromFile e x d = (d, Returns false)) /\
  (snd (subscribeToCollection e y d) = Returns true /\
   subscribeToCollection e y (fst (subscribeToCollection e y d))
   = (fst (subscribeToCollection e y d), Returns false) /\
   unsubscribeFromCollection e y (fst (subscribeToCollection e y d))
   = (d, Returns true) /\
   unsubscribeFromCollection e y d = (d, Returns false)).
Proof.
  intros Hu Hlf Hx Hlc Hy. split.
  - apply (subscribe_round_trip subscribedFiles set_subscribedFiles "subscribedFiles")
      with (u := u) (l := lf); try done; by intros; destruct u0.
  - apply (subscribe_round_trip subscribedCollections set_subscribedCollections
             "subscribedCollections")
      with (u := u) (l := lc); try done; by intros; destruct u0.
Qed.

Lemma subscribe_then_unsubscribe_witness :
  obj_get "bob@example.org" (users sample_db) = Some bob /\
  subscribedFiles bob = Some ["f1"] /\ ("f2" ∉ ["f1"]) /\
  subscribedCollections bob = Some ["c1"] /\ ("c2" ∉ ["c1"]) /\
  unsubscribeFromFile "bob@example.org" "f2"
    (fst (subscribeToFile "bob@example.org" "f2" sample_db))
  = (sample_db, Returns true) /\
  unsubscribeFromCollection "bob@example.org" "c2"
    (fst (subscribeToCollection "bob@example.org" "c2" sample_db))
  = (sample_db, Returns true).
Proof.
  assert (H1 : obj_get "bob@example.org" (users sample_db) = Some bob)
    by (vm_compute; reflexivity).
  assert (H2 : "f2" ∉ ["f1"])
    by (apply (bool_decide_unpack _); vm_compute; reflexivity).
  assert (H3 : "c2" ∉ ["c1"])
    by (apply (bool_decide_unpack _); vm_compute; reflexivity).
  destruct (subscribe_then_unsubscribe "bob@example.org" "f2" "c2" sample_db bob
              ["f1"] ["c1"] H1 eq_refl H2 eq_refl H3)
    as ((_ & _ & Hf & _) & (_ & _ & Hc & _)).
  split; [exact H1|]. split; [reflexivity|]. split; [exact H2|].
  split; [reflexivity|]. split; [exact H3|]. split; [exact Hf | exact Hc].
Defined.

(** X25.  What a new subscription shows.  After [subscribeToFile]
    of an id the user was not subscribed to, [getSubscribedFiles] is
    the earlier list followed by the upload the id resolves to, and is
    the earlier list when the id resolves to nothing; likewise
    [getSubscribedCollections] after [subscribeToCollection], for
    collection ids, the new one and those subscribed to already, that
    are no names of [Object.prototype]. *)
Theorem subscription_is_listed_last e x y d u :
  obj_get e (users d) = Some u ->
  x ∉ default [] (subscribedFiles u) ->
  y ∉ default [] (subscribedCollections u) ->
  plain_key y ->
  Forall plain_key (default [] (subscribedCollections u)) ->
  getSubscribedFiles e (fst (subscribeToFile e x d))
  = getSubscribedFiles e d ++ option_list (getUploadById x d) /\
  getSubscribedCollections e (fst (subscribeToCollection e y d))
  = getSubscribedCollections e d ++ option_list (obj_get y (collections d)).
Proof.
  intros Hu Hx Hy _ _. split.
  - unfold subscribeToFile, subscribe, getSubscribedFiles. rewrite Hu.
    assert (Hexp : forall v ids,
              expand_files
                (set_users (obj_update e (set_subscribedFiles v) (users d)) d) ids
              = expand_files d ids).
    { intros v ids. apply omap_ext_elem. intros fid _. unfold getUploadById. cbn.
      by apply getUploadById_in_update. }
    destruct (subscribedFiles u) as [l|] eqn:Hl; cbn in Hx.
    + rewrite bool_decide_false by done. cbn [fst users set_users].
      rewrite obj_get_update, decide_True, Hu by done. cbn.
      rewrite Hexp. unfold expand_files. rewrite omap_app. f_equal.
    + cbn [fst users set_users].
      rewrite obj_get_update, decide_True, Hu by done. cbn.
      unfold getUploadById. rewrite getUploadById_in_update by done.
      by destruct (getUploadById_in x (users d)).
  - unfold subscribeToCollection, subscribe, getSubscribedCollections. rewrite Hu.
    destruct (subscribedCollections u) as [l|] eqn:Hl; cbn in Hy.
    + rewrite bool_decide_false by done. cbn [fst users set_users].
      rewrite obj_get_update, decide_True, Hu by done. cbn.
      rewrite omap_app. f_equal.
    + cbn [fst users set_users].
      rewrite obj_get_update, decide_True, Hu by done. cbn.
      by destruct (obj_get y (collections d)).
Qed.

Lemma subscription_is_listed_last_witness :
  obj_get "bob@example.org" (users sample_db) = Some bob /\
  ("f2" ∉ default [] (subscribedFiles bob)) /\
  ("c2" ∉ default [] (subscribedCollections bob)) /\
  plain_key "c2" /\
  Forall plain_key (default [] (subscribedCollections bob)) /\
  getSubscribedFiles "bob@example.org"
    (fst (subscribeToFile "bob@example.org" "f2" sample_db))
  = [(song, "alice@example.org"); (notes, "alice@example.org")] /\
  getSubscribedCollections "bob@example.org"
    (fst (subscribeToCollection "bob@example.org" "c2" sample_db))
  = [mixtape; drafts].
Proof.
  assert (H1 : obj_get "bob@example.org" (users sample_db) = Some bob)
    by (vm_compute; reflexivity).
  assert (H2 : "f2" ∉ default [] (subscribedFiles bob))
    by (apply (bool_decide_unpack _); vm_compute; reflexivity).
  assert (H3 : "c2" ∉ default [] (subscribedCollections bob))
    by (apply (bool_decide_unpack _); vm_compute; reflexivity).
  assert (H4 : plain_key "c2")
    by (apply (bool_decide_unpack _); vm_compute; reflexivity).
  assert (H5 : Forall plain_key (default [] (subscribedCollections bob)))
    by (apply (bool_decide_unpack _); vm_compute; reflexivity).
  destruct (subscription_is_listed_last "bob@example.org" "f2" "c2" sample_db
              bob H1 H2 H3 H4 H5) as [Hf Hc].
  split; [exact H1|]. split; [exact H2|]. split; [exact H3|].
  split; [exact H4|]. split; [exact H5|]. split.
  - rewrite Hf. vm_compute; reflexivity.
  - rewrite Hc. vm_compute; reflexivity.
Defined.

(** ** Profiles *)

Lemma getUserCollections_visibility e e' b d :
  getUserCollections e'
    (set_users (obj_update e (set_profilePublic b) (users d)) d)
  = getUserCollections e' d.
Proof.
  unfold getUserCollections. cbn. rewrite obj_get_update.
  assert (Hcol : forall ids : list string,
            omap (fun cid => getCollection cid
                    (set_users (obj_update e (set_profilePublic b) (users d)) d)) ids
            = omap (fun cid => getCollection cid d) ids).
  { intros ids. apply omap_ext_elem. intros cid _. unfold getCollection. cbn.
    destruct (obj_get cid (collections d)) as [c|]; [|done]. do 2 f_equal.
    apply omap_ext_elem. intros fid _. unfold getUploadById. cbn.
    by apply getUploadById_in_update. }
  destruct (decide (e' = e)) as [-> | Hne];
    destruct (obj_get _ (users d)) as [u|]; cbn; try done;
    destruct (user_collections u); try done; apply Hcol.
Qed.

(** X26.  [updateProfileVisibility] of a known user decides what
    [getPublicProfile] gives for that user and for nobody else: hidden,
    the profile is [null]; shown, it holds the name, the uploads that
    are not private, the public ones of the user's collections and the
    date of creation.  Every other user's profile is as before. *)
Theorem profile_follows_visibility e b d u :
  obj_get e (users d) = Some u ->
  getPublicProfile e (fst (updateProfileVisibility e b d))
  = (if b then
       Some (mkProfile (name u) e
               (filter (fun up => isPrivate up = false) (uploads u))
               (filter (fun c => isPublic (fst c) = true) (getUserCollections e d))
               (createdAt u))
     else None) /\
  (forall e', e' <> e ->
     getPublicProfile e' (fst (updateProfileVisibility e b d))
     = getPublicProfile e' d).
Proof.
  intros Hu. unfold updateProfileVisibility. rewrite Hu. cbn [fst].
  unfold getPublicProfile. split.
  - rewrite getUserCollections_visibility. cbn.
    rewrite obj_get_update, decide_True, Hu by done. cbn. by destruct b.
  - intros e' Hne. rewrite getUserCollections_visibility. cbn.
    by rewrite obj_get_update, decide_False by done.
Qed.

Lemma profile_follows_visibility_witness :
  obj_get "alice@example.org" (users sample_db) = Some alice /\
  getPublicProfile "alice@example.org"
    (fst (updateProfileVisibility "alice@example.org" false sample_db)) = None /\
  profile_uploads
    <$> getPublicProfile "alice@example.org"
          (fst (updateProfileVisibility "alice@example.org" true sample_db))
  = Some [song].
Proof.
  assert (H : obj_get "alice@example.org" (users sample_db) = Some alice)
    by (vm_compute; reflexivity).
  split; [exact H|]. split.
  - exact (proj1 (profile_follows_visibility "alice@example.org" false sample_db
                    alice H)).
  - rewrite (proj1 (profile_follows_visibility "alice@example.org" true sample_db
                      alice H)).
    vm_compute; reflexivity.
Defined.

(** X27.  The collections of a public profile are not filtered by the
    privacy of the files: each public collection in the user's list is
    shown with every file of it that resolves, whatever the upload's
    [isPrivate] flag and whoever uploaded it. *)
Theorem profile_lists_collection_files e d u ids cid c fid up owner :
  obj_get e (users d) = Some u ->
  profilePublic u = true ->
  user_collections u = Some ids ->
  cid ∈ ids ->
  obj_get cid (collections d) = Some c ->
  isPublic c = true ->
  fid ∈ files c ->
  getUploadById fid d = Some (up, owner) ->
  exists p fs,
    getPublicProfile e d = Some p /\
    (c, fs) ∈ profile_collections p /\
    (up, owner) ∈ fs.
Proof.
  intros Hu Hpub Hids Hcid Hc Hcpub Hfid Hup.
  unfold getPublicProfile. rewrite Hu, Hpub.
  eexists _, (expand_files d (files c)). split; [done|]. cbn. split.
  - apply list_elem_of_filter. split; [done|].
    unfold getUserCollections. rewrite Hu, Hids.
    apply list_elem_of_omap. exists cid. split; [done|].
    unfold getCollection. by rewrite Hc.
  - apply list_elem_of_omap. by exists fid.
Qed.

Lemma profile_lists_collection_files_witness :
  isPrivate notes = true /\
  exists p fs,
    getPublicProfile "alice@example.org" sample_db = Some p /\
    (drafts, fs) ∈ profile_collections p /\
    (notes, "alice@example.org") ∈ fs.
Proof.
  split; [reflexivity|].
  apply (profile_lists_collection_files "alice@example.org" sample_db alice
           ["c1"; "c2"] "c2" drafts "f2" notes "alice@example.org");
    try (vm_compute; reflexivity).
  - apply (bool_decide_unpack _); vm_compute; reflexivity.
  - apply (bool_decide_unpack _); vm_compute; reflexivity.
Defined.

End FileDatabaseFacts.
